(** * Obsidian Leaflet: the plugin's map state engine (src/main.ts)

    A shallow embedding of [ObsidianLeaflet] (the class of [main.ts]): the
    code-block post-processor, the coordinate resolution, the persistence
    save cycle, the external binding watcher, the cross-view marker events
    and the vault events, with the properties of the specification and
    further properties of the code proved about them.

    Conventions of the embedding
    - JS numbers are [number]: [NaN] or an exact rational (infinities and
      rounding are not represented); timestamps ([Date.now()]) are integers
      of milliseconds in [Z], read as one value [now] during one handler
      run.
    - [LeafletMap] objects are shared between the view registry
      ([this.maps]) and the closures of the event handlers: they live in a
      store ([pl_heap]) and are named by references. Elements and map
      objects are compared by identity, documents by path.
    - [new Notice(..)] appends to [pl_notices]; [renderError] writes the
      error placeholder of an element in [pl_errors]; [saveData] writes
      [pl_saved].
    - What [main.ts] imports from the host, from Leaflet, from [convert] and
      from the plugin's other modules is the interface [Host]; the calls it
      stands for return, but for two throws the control flow of [main.ts]
      meets: that of [convert] on a unit it does not know, in the
      comparator of the overlay sort, and that of Leaflet's [latLng] on a
      [NaN], in the watcher's [try] block on the bound marker. In the loop
      over the immutable markers [latLng] is taken to return; the
      properties of a whole render are stated for positions that are
      numbers.
      Where the plugin's own absent code decides what [main.ts] reads back,
      it is a definition modelled from the specification.
    - Icon markup ([markerIcons], [generateMarkerMarkup], the icon override
      of a bound document) and the registration of callbacks
      ([registerEvent], [registerDomEvent], [ctx.addChild]) are not
      represented; each handler is a function of the state it runs in. *)

From Stdlib Require Import String Ascii List ZArith QArith Qabs Bool Lia Lqa.
From Stdlib Require Import Permutation Sorted DecimalString.
From stdpp Require Import gmap strings.
Import ListNotations.

(** ** Numbers and coordinates *)

Inductive number : Type :=
| NaN
| Num (q : Q).

Definition isNaN (n : number) : bool :=
  match n with NaN => true | Num _ => false end.

Record LatLng : Type := latLng { lat : number; lng : number }.

(** DOM elements and [LeafletMap] objects are compared by identity. *)
Definition Element : Type := nat.
Definition ref : Type := nat.

Inductive MapType : Type := RealMap | ImageMap.

(** Values whose JS type the code does not fix: block parameters and the
    fields of a document's front matter. *)
#[warnings="-register-all"]
Inductive jsval : Type :=
| JUndefined
| JString (s : string)
| JNumber (n : number)
| JArray (l : list jsval).

(** Truthiness, as [!v] and [v && ..] test it. *)
Definition truthy (v : jsval) : bool :=
  match v with
  | JUndefined => false
  | JString s => negb (String.eqb s EmptyString)
  | JNumber NaN => false
  | JNumber (Num q) => negb (Qeq_bool q 0)
  | JArray _ => true
  end.

(** ** Markers *)

(** The Leaflet layer of a marker: where it is drawn and its tooltip. *)
Record MarkerInstance : Type := {
  li_latlng : LatLng;
  li_tooltip_bound : bool;
  li_tooltip_open : bool
}.

Record Marker : Type := {
  mk_id : string;
  mk_type : string;
  mk_loc : LatLng;
  mk_link : option string;
  mk_layer : option string;
  mk_mutable : bool;
  mk_command : bool;
  mk_zoom : option number;
  mk_leafletInstance : MarkerInstance
}.

(** [IMarkerData]: the flat persisted shape of a marker. *)
Record IMarkerData : Type := {
  md_type : string;
  md_id : string;
  md_loc : number * number;
  md_link : option string;
  md_layer : option string;
  md_command : bool;
  md_zoom : number
}.

(** ** Overlays *)

(** [IOverlayData]: the argument of [map.addOverlay]. *)
Record IOverlayData : Type := {
  od_radius : Q;
  od_loc : number * number;
  od_color : string;
  od_unit : string;
  od_layer : option string;
  od_desc : option string;
  od_id : option string
}.

Inductive LeafletShape : Type :=
| Circle (center : number * number) (color : string)
| OtherShape.

Record ILeafletOverlay : Type := {
  ov_leafletInstance : LeafletShape;
  ov_layer : option string;
  ov_data : IOverlayData;
  ov_mutable : bool;
  ov_id : option string
}.

(** The persisted shape of an overlay. *)
Record ISavedOverlay : Type := {
  so_radius : Q;
  so_loc : number * number;
  so_color : string;
  so_layer : option string;
  so_unit : string;
  so_desc : option string
}.

(** ** Documents of the vault *)

Record TFile : Type := {
  tf_path : string;
  tf_name : string
}.

Inductive TAbstractFile : Type :=
| File (f : TFile)
| Folder (path : string).

(** One entry of a document's [mapoverlay] list,
    [[color, loc, length, desc]]; an absent component is [None]. *)
Record OverlayEntry : Type := {
  oe_color : option string;
  oe_loc : option (number * number);
  oe_length : option string;
  oe_desc : option string
}.

Record FrontMatter : Type := {
  fm_location : option jsval;
  fm_mapoverlay : option (list OverlayEntry);
  (** The own properties [frontmatter[zoomTag]] is looked up in. *)
  fm_own : list (string * jsval)
}.

Record CachedMetadata : Type := {
  cm_frontmatter : option FrontMatter
}.

(** ** The durable record of a map and the plugin state *)

Record IMapMarkerData : Type := {
  rd_id : option string;
  rd_path : option string;
  rd_files : list string;
  rd_lastAccessed : option Z;
  rd_markers : list IMarkerData;
  rd_overlays : list (option ISavedOverlay)
}.

Record LeafletMap : Type := {
  lm_id : string;
  lm_contentEl : Element;
  lm_type : MapType;
  lm_unit : string;
  lm_scale : Q;
  lm_markers : list Marker;
  lm_overlays : list ILeafletOverlay;
  lm_mapLayers : list string
}.

(** [IMapInterface]: one entry of the view registry [this.maps]. *)
Record IMapInterface : Type := {
  mi_map : ref;
  mi_source : string;
  mi_el : Element;
  mi_id : string
}.

Record MapFile : Type := {
  mf_file : string;
  mf_maps : list string
}.

Record IObsidianAppData : Type := {
  ad_mapMarkers : list IMapMarkerData;
  ad_lat : number;
  ad_long : number
}.

Record Plugin : Type := {
  pl_AppData : IObsidianAppData;
  pl_maps : list IMapInterface;
  pl_mapFiles : list MapFile;
  pl_heap : gmap ref LeafletMap;
  pl_notices : list string;
  pl_errors : gmap Element string;
  pl_saved : option IObsidianAppData;
  pl_idsDrawn : nat;
  (** [this.app.metadataCache]: the file cache of each document. *)
  pl_metadataCache : list (TFile * CachedMetadata)
}.

(** ** What [main.ts] imports *)

(** The arguments [createMarker] is called with in the post-processor. *)
Record CreateMarkerArgs : Type := {
  cm_type : string;
  cm_loc : LatLng;
  cm_link : option string;
  cm_id : string;
  cm_layer : option string;
  cm_mutable : bool;
  cm_command : bool
}.

(** The options the post-processor constructs [LeafletRenderer] with
    (those the embedding represents). *)
Record RendererOptions : Type := {
  ro_id : string;
  ro_type : MapType;
  ro_unit : string;
  ro_scale : Q
}.

Class Host : Type := {
  (** JS [Number(s)] on a string. *)
  Number : string -> number;
  (** JS [String(n)], the text a template literal gives a number. *)
  number_toString : number -> string;
  (** [s.trim()] *)
  String_trim : string -> string;
  (** [s.match(OVERLAY_TAG_REGEX)]: [None] without a match, otherwise the
      capture groups 1 and 2 ([None] for a group that is [undefined]). The
      constant is declared in [utils]. *)
  OVERLAY_TAG_REGEX : string -> option (option string * option string);
  (** [convert(x).from(u).to("m")] on a unit of [Length]. *)
  convert_to_m : Q -> string -> Q;
  (** The message of the error [convert(x).from(u)] throws on a unit [u] it
      does not know; [None] on a unit of [Length]. *)
  convert_error : string -> option string;
  (** The zoom hint of [_getCoordinates]:
      [convert(distance).from(unit ?? "m").to(map.type == "image" ? map.unit : "m")],
      divided by [map.scale] on an image map. *)
  zoomDistance : string -> option string -> LeafletMap -> number;
  (** [getId()], by the number of ids drawn so far. *)
  getId : nat -> string;
  (** [app.metadataCache.getFirstLinkpathDest(link, ..)], when it is a
      [TFile]. *)
  getFirstLinkpathDest : string -> option TFile;
  (** [new LeafletRenderer(plugin, sourcePath, el, options).map]. *)
  LeafletRenderer_map : Element -> RendererOptions -> LeafletMap;
  (** Methods of [LeafletMap] (module [leaflet]) the plugin calls. *)
  createMarker : LeafletMap -> CreateMarkerArgs -> LeafletMap;
  addMarker : LeafletMap -> Marker -> LeafletMap;
  loadData : LeafletMap -> option IMapMarkerData -> LeafletMap;
  render : LeafletMap -> number * number -> option number ->
           option (string * option string) -> bool -> LeafletMap;
  updateMarkerIcons : LeafletMap -> LeafletMap;
  (** [toDataURL(encodeURIComponent(image), app)]: the layer's data, or
      [None] for a layer that yields none. *)
  toDataURL : string -> option string
}.

(** ** Persistence: [saveSettings] *)

Section SaveSettings.
Context `{Host}.

(** [id != map.id], a record's id against a view's. *)
Definition id_differs (rid : option string) (mid : string) : bool :=
  match rid with
  | Some s => negb (String.eqb s mid)
  | None => true
  end.

(** [!id] *)
Definition falsy_id (rid : option string) : bool :=
  match rid with
  | Some s => String.eqb s EmptyString
  | None => true
  end.

Definition to_IMarkerData (m : Marker) : IMarkerData :=
  {| md_type := mk_type m;
     md_id := mk_id m;
     md_loc := (lat (mk_loc m), lng (mk_loc m));
     md_link := mk_link m;
     md_layer := mk_layer m;
     md_command := mk_command m || false;
     md_zoom := match mk_zoom m with Some z => z | None => Num 0 end |}.

(** The callback of [overlays.map]: it returns [undefined] for an overlay
    whose shape is not a [Circle]. *)
Definition to_saved_overlay (o : ILeafletOverlay) : option ISavedOverlay :=
  match ov_leafletInstance o with
  | Circle c col =>
      Some {| so_radius := od_radius (ov_data o);
              so_loc := c;
              so_color := col;
              so_layer := ov_layer o;
              so_unit := od_unit (ov_data o);
              so_desc := od_desc (ov_data o) |}
  | OtherShape => None
  end.

Definition files_embedding (mapFiles : list MapFile) (id : string) : list string :=
  map mf_file
      (List.filter (fun mf => existsb (String.eqb id) (mf_maps mf)) mapFiles).

(** The record pushed for one active view. *)
Definition fresh_record (st : Plugin) (now : Z) (m : IMapInterface) : IMapMarkerData :=
  let markers := from_option lm_markers [] (pl_heap st !! mi_map m) in
  let overlays := from_option lm_overlays [] (pl_heap st !! mi_map m) in
  {| rd_id := Some (mi_id m);
     rd_path := None;
     rd_files := files_embedding (pl_mapFiles st) (mi_id m);
     rd_lastAccessed := Some now;
     rd_markers := map to_IMarkerData (List.filter mk_mutable markers);
     rd_overlays := map to_saved_overlay (List.filter ov_mutable overlays) |}.

(** One round of [this.maps.forEach]: filter the view's id out, push. *)
Definition replace_record (st : Plugin) (now : Z)
    (store : list IMapMarkerData) (m : IMapInterface) : list IMapMarkerData :=
  List.filter (fun r => id_differs (rd_id r) (mi_id m)) store
    ++ [fresh_record st now m].

Definition merge_active (st : Plugin) (now : Z) : list IMapMarkerData :=
  fold_left (replace_record st now) (pl_maps st) (ad_mapMarkers (pl_AppData st)).

(** [markers.length > 0 || overlays.length > 0] *)
Definition has_data (r : IMapMarkerData) : bool :=
  (0 <? length (rd_markers r))%nat || (0 <? length (rd_overlays r))%nat.

(** [!id || files.length || Date.now() - lastAccessed <= 6.048e8], with
    [lastAccessed = Date.now()] when the record has none. *)
Definition gc_keep (now : Z) (r : IMapMarkerData) : bool :=
  falsy_id (rd_id r)
  || (0 <? length (rd_files r))%nat
  || (now - match rd_lastAccessed r with Some t => t | None => now end
        <=? 604800000)%Z.

(** The store the garbage-collection filter is applied to. *)
Definition before_gc (st : Plugin) (now : Z) : list IMapMarkerData :=
  List.filter has_data (merge_active st now).

Definition saveSettings (st : Plugin) (now : Z) : Plugin :=
  let data :=
    {| ad_mapMarkers := List.filter (gc_keep now) (before_gc st now);
       ad_lat := ad_lat (pl_AppData st);
       ad_long := ad_long (pl_AppData st) |} in
  {| pl_AppData := data;
     pl_maps := pl_maps st;
     pl_mapFiles := pl_mapFiles st;
     pl_heap :=
       fold_left (fun h m => alter updateMarkerIcons (mi_map m) h)
                 (pl_maps st) (pl_heap st);
     pl_notices := pl_notices st;
     pl_errors := pl_errors st;
     pl_saved := Some data;
     pl_idsDrawn := pl_idsDrawn st;
     pl_metadataCache := pl_metadataCache st |}.

(** The view whose record is pushed last for an id. *)
Definition last_writer (maps : list IMapInterface) (id : string) : option IMapInterface :=
  List.find (fun v => String.eqb (mi_id v) id) (rev maps).

Definition has_id (id : string) (r : IMapMarkerData) : bool :=
  negb (id_differs (rd_id r) id).

End SaveSettings.

(** ** Effects: state, exceptions, notices *)

(** [this.app.metadataCache.getFileCache(file)] *)
Definition getFileCache (st : Plugin) (f : TFile) : option CachedMetadata :=
  option_map snd
    (List.find (fun e => String.eqb (tf_path (fst e)) (tf_path f))
               (pl_metadataCache st)).

Inductive outcome (A : Type) : Type :=
| Ok (a : A)
| Throw (msg : string).
Arguments Ok {A} a.
Arguments Throw {A} msg.

(** A computation on the plugin state that returns or throws; what it did
    to the state before it threw stays done. *)
Definition M (A : Type) : Type := Plugin -> outcome A * Plugin.

Definition ret {A : Type} (a : A) : M A := fun st => (Ok a, st).

Definition bind {A B : Type} (c : M A) (k : A -> M B) : M B :=
  fun st =>
    match c st with
    | (Ok a, st') => k a st'
    | (Throw msg, st') => (Throw msg, st')
    end.

Definition throw {A : Type} (msg : string) : M A := fun st => (Throw msg, st).

Notation "'do' x <- c ; k" := (bind c (fun x => k))
  (at level 10, x binder, c at level 100, k at level 200).

Definition set_AppData (d : IObsidianAppData) (st : Plugin) : Plugin :=
  {| pl_AppData := d; pl_maps := pl_maps st; pl_mapFiles := pl_mapFiles st;
     pl_heap := pl_heap st; pl_notices := pl_notices st;
     pl_errors := pl_errors st; pl_saved := pl_saved st;
     pl_idsDrawn := pl_idsDrawn st;
     pl_metadataCache := pl_metadataCache st |}.

Definition set_maps (l : list IMapInterface) (st : Plugin) : Plugin :=
  {| pl_AppData := pl_AppData st; pl_maps := l; pl_mapFiles := pl_mapFiles st;
     pl_heap := pl_heap st; pl_notices := pl_notices st;
     pl_errors := pl_errors st; pl_saved := pl_saved st;
     pl_idsDrawn := pl_idsDrawn st;
     pl_metadataCache := pl_metadataCache st |}.

Definition set_mapFiles (l : list MapFile) (st : Plugin) : Plugin :=
  {| pl_AppData := pl_AppData st; pl_maps := pl_maps st; pl_mapFiles := l;
     pl_heap := pl_heap st; pl_notices := pl_notices st;
     pl_errors := pl_errors st; pl_saved := pl_saved st;
     pl_idsDrawn := pl_idsDrawn st;
     pl_metadataCache := pl_metadataCache st |}.

Definition set_heap (h : gmap ref LeafletMap) (st : Plugin) : Plugin :=
  {| pl_AppData := pl_AppData st; pl_maps := pl_maps st;
     pl_mapFiles := pl_mapFiles st; pl_heap := h;
     pl_notices := pl_notices st; pl_errors := pl_errors st;
     pl_saved := pl_saved st; pl_idsDrawn := pl_idsDrawn st;
     pl_metadataCache := pl_metadataCache st |}.

(** [new Notice(msg)] *)
Definition add_notices (msgs : list string) (st : Plugin) : Plugin :=
  {| pl_AppData := pl_AppData st; pl_maps := pl_maps st;
     pl_mapFiles := pl_mapFiles st; pl_heap := pl_heap st;
     pl_notices := pl_notices st ++ msgs; pl_errors := pl_errors st;
     pl_saved := pl_saved st; pl_idsDrawn := pl_idsDrawn st;
     pl_metadataCache := pl_metadataCache st |}.

Definition Notice (msg : string) : M unit :=
  fun st => (Ok tt, add_notices [msg] st).

(** Modelled from the spec: [renderError(el, message)] of [utils], which
    is not part of [main.ts]: a fatal error replaces the map's rendered
    region with a visible error message containing the failure reason. *)
Definition renderError (el : Element) (msg : string) (st : Plugin) : Plugin :=
  {| pl_AppData := pl_AppData st; pl_maps := pl_maps st;
     pl_mapFiles := pl_mapFiles st; pl_heap := pl_heap st;
     pl_notices := pl_notices st; pl_errors := <[el := msg]> (pl_errors st);
     pl_saved := pl_saved st; pl_idsDrawn := pl_idsDrawn st;
     pl_metadataCache := pl_metadataCache st |}.

Definition set_overlays (l : list ILeafletOverlay) (m : LeafletMap) : LeafletMap :=
  {| lm_id := lm_id m; lm_contentEl := lm_contentEl m; lm_type := lm_type m;
     lm_unit := lm_unit m; lm_scale := lm_scale m; lm_markers := lm_markers m;
     lm_overlays := l; lm_mapLayers := lm_mapLayers m |}.

Definition set_markers (l : list Marker) (m : LeafletMap) : LeafletMap :=
  {| lm_id := lm_id m; lm_contentEl := lm_contentEl m; lm_type := lm_type m;
     lm_unit := lm_unit m; lm_scale := lm_scale m; lm_markers := l;
     lm_overlays := lm_overlays m; lm_mapLayers := lm_mapLayers m |}.

(** [array.map(f)] with a callback that may throw: in order, up to the
    first throw. *)
Fixpoint mapM {A B : Type} (f : A -> M B) (l : list A) : M (list B) :=
  match l with
  | [] => ret []
  | x :: l' => do y <- f x; do ys <- mapM f l'; ret (y :: ys)
  end.

(** The first element a predicate holds of, replaced: the mutation of the
    object that [array.find] returned. *)
Fixpoint update_first {A : Type} (p : A -> bool) (f : A -> A) (l : list A) : list A :=
  match l with
  | [] => []
  | x :: l' => if p x then f x :: l' else x :: update_first p f l'
  end.

(** [array.filter(d => d != data)] for the object [data] that
    [array.find(p)] returned. *)
Fixpoint remove_first {A : Type} (p : A -> bool) (l : list A) : list A :=
  match l with
  | [] => []
  | x :: l' => if p x then l' else x :: remove_first p l'
  end.

(** [Array.prototype.sort(cmp)] for a comparator that returns and orders
    consistently: the sorted order, elements that compare equal keeping
    their order. *)
Fixpoint insert_by {A : Type} (cmp : A -> A -> Q) (x : A) (l : list A) : list A :=
  match l with
  | [] => [x]
  | y :: l' => if Qle_bool (cmp x y) 0 then x :: y :: l' else y :: insert_by cmp x l'
  end.

Definition Array_sort {A : Type} (cmp : A -> A -> Q) (l : list A) : list A :=
  fold_right (insert_by cmp) [] l.

(** [Array.prototype.sort(cmp)] for a comparator that may throw: the same
    insertions, ended by the comparator's first throw, which [sort] passes
    on. An array of fewer than two elements is returned without a call of
    the comparator. Which pairs the engine compares, and in which order, is
    its own choice; the properties below do not depend on it. *)
Fixpoint insert_with {A : Type} (cmp : A -> A -> M Q) (x : A) (l : list A) : M (list A) :=
  match l with
  | [] => ret [x]
  | y :: l' =>
      do c <- cmp x y;
      if Qle_bool c 0 then ret (x :: y :: l')
      else do rest <- insert_with cmp x l'; ret (y :: rest)
  end.

Fixpoint sort_with {A : Type} (cmp : A -> A -> M Q) (l : list A) : M (list A) :=
  match l with
  | [] => ret []
  | x :: l' => do sorted <- sort_with cmp l'; insert_with cmp x sorted
  end.

(** ** Overlay geometry *)

(** A raw overlay declaration [[color, loc, length, desc, id?]]. *)
Record RawOverlay : Type := {
  raw_color : string;
  raw_loc : number * number;
  raw_length : string;
  raw_desc : option string;
  raw_id : option string
}.

(** An element of [overlayArray]: [[color, loc, radius, unit, desc, id]]. *)
Record OverlayTuple : Type := {
  ot_color : string;
  ot_loc : number * number;
  ot_radius : Q;
  ot_unit : string;
  ot_desc : option string;
  ot_id : string
}.

Definition overlay_radius_error : string :=
  "Could not parse overlay radius. Please make sure it is in the format `<length> <unit>`.".

Section Overlays.
Context `{Host}.

Definition draw_id : M string :=
  fun st =>
    (Ok (getId (pl_idsDrawn st)),
     {| pl_AppData := pl_AppData st; pl_maps := pl_maps st;
        pl_mapFiles := pl_mapFiles st; pl_heap := pl_heap st;
        pl_notices := pl_notices st; pl_errors := pl_errors st;
        pl_saved := pl_saved st; pl_idsDrawn := S (pl_idsDrawn st);
        pl_metadataCache := pl_metadataCache st |}).

(** [Number(match[1])]; [Number(undefined)] is [NaN]. *)
Definition Number_of_group (g : option string) : number :=
  match g with
  | Some s => Number s
  | None => NaN
  end.

(** The callback of [[...overlay, ...immutableOverlays].map]. *)
Definition overlay_tuple (o : RawOverlay) : M OverlayTuple :=
  do id <- match raw_id o with
           | Some i => ret i
           | None => draw_id
           end;
  match OVERLAY_TAG_REGEX (raw_length o) with
  | None => throw overlay_radius_error
  | Some (g1, g2) =>
      match Number_of_group g1 with
      | NaN => throw overlay_radius_error
      | Num radius =>
          ret {| ot_color := raw_color o;
                 ot_loc := raw_loc o;
                 ot_radius := radius;
                 ot_unit := match g2 with Some u => u | None => "m" end;
                 ot_desc := raw_desc o;
                 ot_id := id |}
      end
  end.

(** The guard of that callback: [!match || isNaN(Number(match[1]))]. *)
Definition malformed_radius (o : RawOverlay) : bool :=
  match OVERLAY_TAG_REGEX (raw_length o) with
  | None => true
  | Some (g1, _) => isNaN (Number_of_group g1)
  end.

(** [convert(a[2]).from(a[3]).to("m")], on a unit [convert] knows. *)
Definition radius_m (t : OverlayTuple) : Q :=
  convert_to_m (ot_radius t) (ot_unit t).

(** Whether [convert] knows the unit of a tuple. The unit is the second
    group of [OVERLAY_TAG_REGEX], cast to [Length] unchecked. *)
Definition unit_known (t : OverlayTuple) : bool :=
  match convert_error (ot_unit t) with
  | Some _ => false
  | None => true
  end.

(** [convert(a[2]).from(a[3]).to("m")] as the comparator runs it: it throws
    on a unit [convert] does not know. *)
Definition convert_radius (t : OverlayTuple) : M Q :=
  match convert_error (ot_unit t) with
  | Some message => throw message
  | None => ret (radius_m t)
  end.

(** The comparator of [overlayArray.sort]: both conversions, then
    [radiusB - radiusA]. *)
Definition compare_overlays (a b : OverlayTuple) : M Q :=
  do radiusA <- convert_radius a;
  do radiusB <- convert_radius b;
  ret (radiusB - radiusA)%Q.

(** [overlayArray.sort(..)] *)
Definition sort_overlays (l : list OverlayTuple) : M (list OverlayTuple) :=
  sort_with compare_overlays l.

(** Modelled from the spec: the overlay object [addOverlay] registers for
    a spec, as far as [main.ts] reads it: the spec's id, layer and data, and
    a circle at the spec's location in the spec's colour. *)
Definition overlay_of (d : IOverlayData) (mutable : bool) : ILeafletOverlay :=
  {| ov_leafletInstance := Circle (od_loc d) (od_color d);
     ov_layer := od_layer d;
     ov_data := d;
     ov_mutable := mutable;
     ov_id := od_id d |}.

(** The radius of an overlay in metres. *)
Definition overlay_m (o : ILeafletOverlay) : Q :=
  convert_to_m (od_radius (ov_data o)) (od_unit (ov_data o)).

(** Modelled from the spec: [LeafletMap.addOverlay(spec, mutable)] of the
    module [leaflet], which is not part of [main.ts]: it inserts the overlay
    into the map's collection maintaining the descending-radius order and
    emits no notification. *)
Definition addOverlay (m : LeafletMap) (d : IOverlayData) (mutable : bool) : LeafletMap :=
  set_overlays
    (insert_by (fun a b => (overlay_m b - overlay_m a)%Q) (overlay_of d mutable)
               (lm_overlays m))
    m.

(** The object the loop over the sorted [overlayArray] passes to
    [map.addOverlay] for a tuple. *)
Definition tuple_data (layers : list string) (t : OverlayTuple) : IOverlayData :=
  {| od_radius := ot_radius t;
     od_loc := ot_loc t;
     od_color := ot_color t;
     od_unit := ot_unit t;
     od_layer := head layers;
     od_desc := ot_desc t;
     od_id := Some (ot_id t) |}.

End Overlays.

(** ** Coordinates: [_getCoordinates] *)

(** [s.split("%").shift()]: the text before the first percent sign. *)
Fixpoint before_percent (s : string) : string :=
  match s with
  | EmptyString => EmptyString
  | String c s' =>
      if Ascii.eqb c "%"%char then EmptyString else String c (before_percent s')
  end.

(** [s.replace(/(\[|\])/, empty)]: the first square bracket removed. *)
Fixpoint strip_first_bracket (s : string) : string :=
  match s with
  | EmptyString => EmptyString
  | String c s' =>
      if Ascii.eqb c "["%char || Ascii.eqb c "]"%char then s'
      else String c (strip_first_bracket s')
  end.

(** [array.flat()], one level deep. *)
Definition flat (l : list jsval) : list jsval :=
  concat (map (fun v => match v with JArray xs => xs | _ => [v] end) l).

Definition coordinates_notice : string :=
  "There was an error with the provided latitude and longitude. Using defaults.".

Section Coordinates.
Context `{Host}.

(** The text of a value in a template literal. *)
Fixpoint template (v : jsval) : string :=
  match v with
  | JUndefined => "undefined"
  | JString s => s
  | JNumber n => number_toString n
  | JArray l =>
      String.concat ","
        (map (fun x => match x with JUndefined => EmptyString | _ => template x end) l)
  end.

(** [Number(v)] on a value. *)
Definition Number_of (v : jsval) : number :=
  match v with
  | JUndefined => NaN
  | JString s => Number s
  | JNumber n => n
  | JArray _ => Number (template v)
  end.

(** What the labelled block [file:] leaves in [latitude], [longitude] and
    [distanceToZoom] for a link that resolved to a document. *)
Definition read_note_location (zoomTag : option string) (m : LeafletMap)
    (file : TFile) (latitude longitude : jsval) : M (jsval * jsval * option number) :=
  fun st =>
  (match getFileCache st file with
  | Some {| cm_frontmatter := Some fm |} =>
      match fm_location fm with
      | Some (JArray location) =>
          let latitude := nth 0 location JUndefined in
          let longitude := nth 1 location JUndefined in
          let zoomTag := match zoomTag with Some t => t | None => EmptyString end in
          if String.eqb zoomTag EmptyString then ret (latitude, longitude, None)
          else
            match List.find (fun kv => String.eqb (fst kv) zoomTag) (fm_own fm) with
            | None => ret (latitude, longitude, None)
            | Some (_, JUndefined) => ret (latitude, longitude, None)
            | Some (_, JString overlay) =>
                match OVERLAY_TAG_REGEX overlay with
                | Some (Some distance, unit) =>
                    if String.eqb distance EmptyString then ret (latitude, longitude, None)
                    else ret (latitude, longitude, Some (zoomDistance distance unit m))
                | _ => ret (latitude, longitude, None)
                end
            | Some (_, _) => throw "overlay.match is not a function"
            end
      | _ => ret (latitude, longitude, None)
      end
  | _ => ret (latitude, longitude, None)
  end) st.

(** Lines 542 to 590: which latitude and longitude are to be parsed. *)
Definition resolve_coordinates (lat long : jsval) (coordinates : option (list jsval))
    (zoomTag : option string) (m : LeafletMap) : M (jsval * jsval * option number) :=
  match coordinates with
  | Some (c :: cs) =>
      match hd JUndefined (flat (c :: cs)) with
      | JString link =>
          match getFirstLinkpathDest (strip_first_bracket link) with
          | Some file => read_note_location zoomTag m file lat long
          | None =>
              if (length (c :: cs) =? 2)%nat
              then ret (c, nth 1 (c :: cs) JUndefined, None)
              else ret (lat, long, None)
          end
      | _ => throw "coordinates.flat(...)[0].replace is not a function"
      end
  | _ => ret (lat, long, None)
  end.

(** [Number(`${v}`?.split("%").shift())] *)
Definition parse_coordinate (v : jsval) : number :=
  Number (before_percent (template v)).

(** The fallback of one component: [!v || isNaN(parsed)]. *)
Definition or_default (v : jsval) (parsed dflt : number) : number :=
  if negb (truthy v) || isNaN parsed then dflt else parsed.

(** Lines 592 to 623: parse, warn, fall back. *)
Definition coordinates_or_defaults (latitude longitude : jsval) (m : LeafletMap)
    : M (number * number) :=
  let c0 := parse_coordinate latitude in
  let c1 := parse_coordinate longitude in
  do _ <- (if isNaN c0 || isNaN c1 then Notice coordinates_notice else ret tt);
  fun st =>
    match lm_type m with
    | ImageMap =>
        (Ok (or_default latitude c0 (Num 50), or_default longitude c1 (Num 50)), st)
    | RealMap =>
        (Ok (or_default latitude c0 (ad_lat (pl_AppData st)),
             or_default longitude c1 (ad_long (pl_AppData st))), st)
    end.

Definition _getCoordinates (lat long : jsval) (coordinates : option (list jsval))
    (zoomTag : option string) (m : LeafletMap) : M ((number * number) * option number) :=
  do r <- resolve_coordinates lat long coordinates zoomTag m;
  let '(latitude, longitude, distanceToZoom) := r in
  do coords <- coordinates_or_defaults latitude longitude m;
  ret (coords, distanceToZoom).

End Coordinates.

(** ** The code-block post-processor *)

(** The block parameters [getParamsFromSource(source)] yields, those the
    embedding represents; an absent parameter is [None] or [JUndefined]. *)
Record Params : Type := {
  p_id : option string;
  p_image : option string;
  p_lat : jsval;
  p_long : jsval;
  p_coordinates : option (list jsval);
  p_zoomTag : option string;
  p_unit : option string;
  p_scale : option Q;
  p_layers : list string;
  p_overlay : list RawOverlay;
  p_overlayColor : option string
}.

(** An element of [immutableMarkers]:
    [[type, lat, long, link, layer, command, id]]. *)
Record ImmutableMarker : Type := {
  im_type : string;
  im_lat : jsval;
  im_long : jsval;
  im_link : option string;
  im_layer : option string;
  im_command : option bool;
  im_id : option string
}.

(** What [getImmutableItems] resolved for the block. *)
Record ImmutableItems : Type := {
  ii_markers : list ImmutableMarker;
  ii_overlays : list RawOverlay;
  ii_files : list (TFile * string)
}.

Definition path_is (r : IMapMarkerData) (p : string) : bool :=
  match rd_path r with
  | Some q => String.eqb q p
  | None => false
  end.

Definition loading_notice : string := "There was an error loading the map.".

Section Postprocessor.
Context `{Host}.

(** The test of "Update Old Map Data Format":
    [(path == `${sourcePath}/${image}` && !mapId) || path == `${sourcePath}/${id}`]. *)
Definition old_format_found (sourcePath image id : string) (r : IMapMarkerData) : bool :=
  (path_is r (sourcePath +:+ "/" +:+ image) && falsy_id (rd_id r))
  || path_is r (sourcePath +:+ "/" +:+ id).

(** The test [data] is then looked up with. *)
Definition old_format_data (sourcePath image id : string) (r : IMapMarkerData) : bool :=
  path_is r (sourcePath +:+ "/" +:+ image)
  || path_is r (sourcePath +:+ "/" +:+ id).

Definition update_old_format (now : Z) (sourcePath image id : string)
    (store : list IMapMarkerData) : list IMapMarkerData :=
  if existsb (old_format_found sourcePath image id) store then
    match List.find (old_format_data sourcePath image id) store with
    | Some data =>
        remove_first (old_format_data sourcePath image id) store
          ++ [ {| rd_id := Some id;
                  rd_path := None;
                  rd_files := [sourcePath];
                  rd_lastAccessed := Some now;
                  rd_markers := rd_markers data;
                  rd_overlays := rd_overlays data |} ]
    | None => store
    end
  else store.

(** A new [LeafletMap] object. *)
Definition alloc (m : LeafletMap) : M ref :=
  fun st =>
    let r := fresh (dom (pl_heap st)) in
    (Ok r, set_heap (<[r := m]> (pl_heap st)) st).

(** A method call on the object [r] names. *)
Definition call (r : ref) (f : LeafletMap -> LeafletMap) : M unit :=
  fun st => (Ok tt, set_heap (alter f r (pl_heap st)) st).

Definition read (r : ref) : M LeafletMap :=
  fun st =>
    match pl_heap st !! r with
    | Some m => (Ok m, st)
    | None => (Throw "map is undefined", st)
    end.

(** The body of the loop over [immutableMarkers]. *)
Definition create_immutable (layers : list string) (r : ref) (t : ImmutableMarker) : M unit :=
  do id <- match im_id t with
           | Some i => ret i
           | None => draw_id
           end;
  call r (fun m =>
    createMarker m
      {| cm_type := im_type t;
         cm_loc := latLng (Number_of (im_lat t)) (Number_of (im_long t));
         cm_link := option_map String_trim (im_link t);
         cm_id := id;
         cm_layer := match im_layer t with Some l => Some l | None => head layers end;
         cm_mutable := false;
         cm_command := match im_command t with Some c => c | None => false end |}).

Fixpoint forM {A : Type} (f : A -> M unit) (l : list A) : M unit :=
  match l with
  | [] => ret tt
  | x :: l' => do _ <- f x; forM f l'
  end.

(** The overlays of the block: [overlayArray] is built, sorted, and its
    elements are handed one after the other to the map's method [add], which
    is [map.addOverlay]. *)
Definition insert_overlays_with (add : LeafletMap -> IOverlayData -> bool -> LeafletMap)
    (layers : list string) (r : ref) (raws : list RawOverlay) : M unit :=
  do overlayArray <- mapM overlay_tuple raws;
  do sorted <- sort_overlays overlayArray;
  forM (fun t => call r (fun m => add m (tuple_data layers t) false)) sorted.

Definition insert_overlays : list string -> ref -> list RawOverlay -> M unit :=
  insert_overlays_with addOverlay.

(** [layerData] of an image map. *)
Definition load_layers (image : string) (layers : list string)
    : M (list (string * option string)) :=
  if String.eqb image "real" then ret []
  else
    let layerData := map (fun l => (l, toDataURL l)) layers in
    if existsb (fun d => match snd d with
                         | Some data => String.eqb data EmptyString
                         | None => true
                         end) layerData
    then throw "No valid layers were provided to the image map."
    else ret layerData.

(** [this.mapFiles]: the block's document embeds the map [id]. *)
Definition note_map_file (sourcePath id : string) (l : list MapFile) : list MapFile :=
  let here := fun mf => String.eqb (mf_file mf) sourcePath in
  if existsb here l
  then update_first here
         (fun mf => {| mf_file := mf_file mf; mf_maps := mf_maps mf ++ [id] |}) l
  else l ++ [ {| mf_file := sourcePath; mf_maps := [id] |} ].

(** Lines 205 to 491, on the map [r] just constructed: the markers and
    overlays of the block are put on it, its centre is computed, its
    persisted data and its layers are loaded. *)
Definition populate (image id : string) (r : ref) (params : Params)
    (items : ImmutableItems)
    : M ((number * number) * option number * list (string * option string)) :=
  let layers := p_layers params in
  do _ <- forM (create_immutable layers r) (ii_markers items);
  do _ <- insert_overlays layers r (p_overlay params ++ ii_overlays items);
  do lat <- (fun st =>
    (Ok (match p_lat params with
         | JUndefined => JString (number_toString (ad_lat (pl_AppData st)))
         | v => v
         end), st));
  do long <- (fun st =>
    (Ok (match p_long params with
         | JUndefined => JString (number_toString (ad_long (pl_AppData st)))
         | v => v
         end), st));
  do m <- read r;
  do located <- _getCoordinates lat long (p_coordinates params) (p_zoomTag params) m;
  do mapData <- (fun st =>
    (Ok (List.find (has_id id) (ad_mapMarkers (pl_AppData st))), st));
  do _ <- call r (fun m => loadData m mapData);
  do layerData <- load_layers image layers;
  ret (located, layerData).

(** [this.maps = this.maps.filter((m) => m.el != el)] and the push. *)
Definition register_view (v : IMapInterface) (maps : list IMapInterface) : list IMapInterface :=
  List.filter (fun w => negb (mi_el w =? mi_el v)%nat) maps ++ [v].

(** Lines 493 to 528: the map is rendered, its view registered, the
    settings saved. *)
Definition render_and_register (now : Z) (source : string) (el : Element)
    (sourcePath id : string) (r : ref)
    (located : (number * number) * option number)
    (layerData : list (string * option string)) : M unit :=
  do _ <- call r (fun m =>
    render m (fst located) (snd located) (head layerData)
           (1 <? length layerData)%nat);
  do _ <- (fun st =>
    (Ok tt,
     set_maps
       (register_view {| mi_map := r; mi_source := source; mi_el := el; mi_id := id |}
                      (pl_maps st))
       st));
  do _ <- (fun st =>
    (Ok tt, set_mapFiles (note_map_file sourcePath id (pl_mapFiles st)) st));
  fun st => (Ok tt, saveSettings st now).

(** The [try] block of [postprocessor]. *)
Definition postprocessor_try (now : Z) (source : string) (el : Element)
    (sourcePath : string) (params : Params) (items : ImmutableItems) : M unit :=
  let image := match p_image params with Some i => i | None => "real" end in
  if falsy_id (p_id params) then
    do _ <- Notice "As of version 3.0.0, Obsidian Leaflet maps must have an ID.";
    do _ <- Notice "All marker data associated with this map will sync to the new ID.";
    throw "ID required"
  else
    let id := match p_id params with Some i => i | None => EmptyString end in
    do _ <- (fun st =>
      (Ok tt,
       set_AppData
         {| ad_mapMarkers :=
              update_old_format now sourcePath image id (ad_mapMarkers (pl_AppData st));
            ad_lat := ad_lat (pl_AppData st);
            ad_long := ad_long (pl_AppData st) |} st));
    do r <- alloc
      (LeafletRenderer_map el
         {| ro_id := id;
            ro_type := if String.eqb image "real" then RealMap else ImageMap;
            ro_unit := match p_unit params with Some u => u | None => "m" end;
            ro_scale := match p_scale params with Some x => x | None => 1%Q end |});
    do populated <- populate image id r params items;
    render_and_register now source el sourcePath id r (fst populated) (snd populated).

(** [postprocessor]: the [try] block and its [catch]. *)
Definition postprocessor (now : Z) (source : string) (el : Element)
    (sourcePath : string) (params : Params) (items : ImmutableItems)
    (st : Plugin) : Plugin :=
  match postprocessor_try now source el sourcePath params items st with
  | (Ok _, st') => st'
  | (Throw message, st') => renderError el message (add_notices [loading_notice] st')
  end.

End Postprocessor.

(** ** The external binding watcher *)

Definition marker_has_id (id : string) (m : Marker) : bool := String.eqb (mk_id m) id.

(** Modelled from the spec: [LeafletMap.getMarkerById(id)] of the module
    [leaflet]: the marker of that id, or absent. *)
Definition getMarkerById (m : LeafletMap) (id : string) : option Marker :=
  List.find (marker_has_id id) (lm_markers m).

(** Modelled from the spec: [Marker.setLatLng] of the plugin's marker
    class: the marker's location is updated in place, its identity kept. *)
Definition setLatLng (l : LatLng) (m : Marker) : Marker :=
  {| mk_id := mk_id m; mk_type := mk_type m; mk_loc := l; mk_link := mk_link m;
     mk_layer := mk_layer m; mk_mutable := mk_mutable m;
     mk_command := mk_command m; mk_zoom := mk_zoom m;
     mk_leafletInstance :=
       {| li_latlng := l;
          li_tooltip_bound := li_tooltip_bound (mk_leafletInstance m);
          li_tooltip_open := li_tooltip_open (mk_leafletInstance m) |} |}.

(** Leaflet's [LatLng.equals]: both components within [1e-9]. *)
Definition LatLng_equals (a b : LatLng) : bool :=
  match lat a, lat b, lng a, lng b with
  | Num x, Num x', Num y, Num y' =>
      Qle_bool (Qabs (x - x')) (1 # 1000000000)
      && Qle_bool (Qabs (y - y')) (1 # 1000000000)
  | _, _, _, _ => false
  end.

Definition bound_marker_notice (name : string) : string :=
  "There was an error updating the marker for " +:+ name +:+ ".".

Definition bound_length_notice (name : string) : string :=
  "Could not parse map overlay length in " +:+ name
  +:+ ". Please ensure it is in the format: <distance> <unit>".

Definition bound_overlays_notice (name : string) : string :=
  "There was an error updating the overlays for " +:+ name +:+ ".".

Section Watcher.
Context `{Host}.

(** The [try] block on the bound marker and its [catch]: the marker follows
    the document's [location], an array of two numbers. Leaflet's [latLng]
    throws on a component that is [NaN]; the [catch] raises a notice and the
    marker stays. The map, and the notices raised. *)
Definition changed_location (fileId name : string) (fm : FrontMatter) (m : LeafletMap)
    : LeafletMap * list string :=
  match getMarkerById m fileId, fm_location fm with
  | Some marker, Some (JArray [JNumber a; JNumber b]) =>
      if isNaN a || isNaN b then (m, [bound_marker_notice name])
      else if LatLng_equals (mk_loc marker) (latLng a b) then (m, [])
      else (set_markers
              (update_first (marker_has_id fileId) (setLatLng (latLng a b)) (lm_markers m)) m,
            [])
  | _, _ => (m, [])
  end.

(** [[, radius, unit = "m"] = length.match(OVERLAY_TAG_REGEX) ?? []] *)
Definition radius_and_unit (length : string) : option string * string :=
  match OVERLAY_TAG_REGEX length with
  | Some (radius, unit) => (radius, match unit with Some u => u | None => "m" end)
  | None => (None, "m")
  end.

(** The guard of the callback, [!radius || isNaN(Number(radius))]: the
    radius and unit of a declaration that passes it. *)
Definition entry_radius (e : OverlayEntry) : option (Q * string) :=
  match radius_and_unit (match oe_length e with Some l => l | None => "1 m" end) with
  | (Some radius, unit) =>
      if String.eqb radius EmptyString then None
      else match Number radius with
           | NaN => None
           | Num q => Some (q, unit)
           end
  | (None, _) => None
  end.

(** The argument [map.addOverlay] is called with for a declaration. *)
Definition entry_data (fileId overlayColor layer : string) (e : OverlayEntry)
    (radius : Q) (unit : string) : IOverlayData :=
  {| od_radius := radius;
     od_loc := match oe_loc e with Some l => l | None => (Num 0, Num 0) end;
     od_color := match oe_color e with Some c => c | None => overlayColor end;
     od_unit := unit;
     od_layer := Some layer;
     od_desc := oe_desc e;
     od_id := Some fileId |}.

(** [mapoverlay.forEach]: the map, the notices raised, and whether the
    callback threw (a map without layers has no [mapLayers[0].id]); what
    was inserted before a throw stays inserted. *)
Fixpoint insert_declared (fileId name overlayColor : string)
    (entries : list OverlayEntry) (m : LeafletMap) : LeafletMap * list string * bool :=
  match entries with
  | [] => (m, [], false)
  | e :: rest =>
      match entry_radius e with
      | None =>
          let '(m', notes, threw) := insert_declared fileId name overlayColor rest m in
          (m', bound_length_notice name :: notes, threw)
      | Some (radius, unit) =>
          match lm_mapLayers m with
          | layer :: _ =>
              insert_declared fileId name overlayColor rest
                (addOverlay m (entry_data fileId overlayColor layer e radius unit) false)
          | [] => (m, [], true)
          end
      end
  end.

(** The [try] block on the overlays and its [catch]: the overlays of the
    binding id are filtered out, then the declared ones inserted. *)
Definition changed_overlays (fileId name overlayColor : string) (fm : FrontMatter)
    (m : LeafletMap) : LeafletMap * list string :=
  let cleared :=
    set_overlays (List.filter (fun o => id_differs (ov_id o) fileId) (lm_overlays m)) m in
  match fm_mapoverlay fm with
  | None => (cleared, [])
  | Some entries =>
      let '(m', notes, threw) := insert_declared fileId name overlayColor entries cleared in
      (m', notes ++ (if threw then [bound_overlays_notice name] else []))
  end.

(** [watchers.get(file)] *)
Definition watched (watchers : list (TFile * string)) (f : TFile) : option string :=
  option_map snd
    (List.find (fun w => String.eqb (tf_path (fst w)) (tf_path f)) watchers).

(** The handler of the metadata cache's ["changed"] event, registered for
    the map [self] of a block with bound documents: its guards, the bound
    marker's location, the bound overlays. *)
Definition watcher_changed (self : ref) (watchers : list (TFile * string))
    (overlayColor : string) (file : TAbstractFile) (st : Plugin) : Plugin :=
  match file with
  | Folder _ => st
  | File f =>
      match watched watchers f with
      | None => st
      | Some fileId =>
          match getFileCache st f with
          | Some {| cm_frontmatter := Some fm |} =>
              match pl_heap st !! self with
              | Some m =>
                  let '(located, raised) := changed_location fileId (tf_name f) fm m in
                  let '(m', notes) :=
                    changed_overlays fileId (tf_name f) overlayColor fm located in
                  add_notices (raised ++ notes) (set_heap (<[self := m']> (pl_heap st)) st)
              | None => st
              end
          | _ => st
          end
      end
  end.

End Watcher.

(** ** Cross-view marker events *)

(** Leaflet's [closeTooltip] then [unbindTooltip] on a marker's layer. *)
Definition unbind_tooltip (m : Marker) : Marker :=
  {| mk_id := mk_id m; mk_type := mk_type m; mk_loc := mk_loc m;
     mk_link := mk_link m; mk_layer := mk_layer m; mk_mutable := mk_mutable m;
     mk_command := mk_command m; mk_zoom := mk_zoom m;
     mk_leafletInstance :=
       {| li_latlng := li_latlng (mk_leafletInstance m);
          li_tooltip_bound := false;
          li_tooltip_open := false |} |}.

(** [existingMarker.leafletInstance.setLatLng(marker.leafletInstance.getLatLng())]
    then [existingMarker.loc = marker.loc]. *)
Definition follow (marker existing : Marker) : Marker :=
  {| mk_id := mk_id existing; mk_type := mk_type existing; mk_loc := mk_loc marker;
     mk_link := mk_link existing; mk_layer := mk_layer existing;
     mk_mutable := mk_mutable existing; mk_command := mk_command existing;
     mk_zoom := mk_zoom existing;
     mk_leafletInstance :=
       {| li_latlng := li_latlng (mk_leafletInstance marker);
          li_tooltip_bound := li_tooltip_bound (mk_leafletInstance existing);
          li_tooltip_open := li_tooltip_open (mk_leafletInstance existing) |} |}.

Section MapEvents.
Context `{Host}.

(** The filter of every broadcast:
    [({ id, map: m }) => id == map.id && m.contentEl != map.contentEl]. *)
Definition is_sibling (h : gmap ref LeafletMap) (origin : LeafletMap) (v : IMapInterface) : bool :=
  String.eqb (mi_id v) (lm_id origin)
  && match h !! mi_map v with
     | Some m => negb (lm_contentEl m =? lm_contentEl origin)%nat
     | None => false
     end.

Definition siblings (st : Plugin) (origin : LeafletMap) : list IMapInterface :=
  List.filter (is_sibling (pl_heap st) origin) (pl_maps st).

(** The synchronous part of the ["marker-added"] handler of the map
    [self]: the tooltip of the new marker is closed and unbound, then every
    sibling view is handed the marker. The marker is the object the
    originating map holds under that id. *)
Definition marker_added_broadcast (self : ref) (marker : Marker) (st : Plugin) : Plugin :=
  match pl_heap st !! self with
  | None => st
  | Some origin =>
      let marker' := unbind_tooltip marker in
      let h0 :=
        alter (fun m => set_markers
                 (update_first (marker_has_id (mk_id marker)) unbind_tooltip (lm_markers m)) m)
              self (pl_heap st) in
      set_heap
        (fold_left (fun h v => alter (fun m => addMarker m marker') (mi_map v) h)
                   (siblings st origin) h0)
        st
  end.

(** The ["marker-added"] handler: broadcast, then save. *)
Definition on_marker_added (self : ref) (marker : Marker) (now : Z) (st : Plugin) : Plugin :=
  saveSettings (marker_added_broadcast self marker st) now.

(** The body of [forEach] in the ["marker-dragging"] handler. *)
Definition drag_in (marker : Marker) (otherMap : LeafletMap) : LeafletMap :=
  match List.find (marker_has_id (mk_id marker)) (lm_markers otherMap) with
  | None => otherMap
  | Some _ =>
      set_markers
        (update_first (marker_has_id (mk_id marker)) (follow marker) (lm_markers otherMap))
        otherMap
  end.

(** The ["marker-dragging"] handler of the map [self]. *)
Definition on_marker_dragging (self : ref) (marker : Marker) (st : Plugin) : Plugin :=
  match pl_heap st !! self with
  | None => st
  | Some origin =>
      set_heap
        (fold_left (fun h v => alter (drag_in marker) (mi_map v) h)
                   (siblings st origin) (pl_heap st))
        st
  end.

End MapEvents.

(** ** A host to run the code on

    The instance of [Host] the examples are evaluated with: decimal
    literals, a handful of units, an empty link index, and [LeafletMap]
    methods that keep the markers and the persisted data they are handed. *)

Definition digit_of (c : ascii) : option Z :=
  let n := nat_of_ascii c in
  if (48 <=? n)%nat && (n <=? 57)%nat then Some (Z.of_nat (n - 48)) else None.

Definition is_digit (c : ascii) : bool :=
  match digit_of c with Some _ => true | None => false end.

(** The value of a string of digits, [None] if it holds anything else or
    nothing. *)
Fixpoint digits_value (acc : Z) (s : string) : option Z :=
  match s with
  | EmptyString => Some acc
  | String c s' =>
      match digit_of c with
      | Some d => digits_value (10 * acc + d) s'
      | None => None
      end
  end.

Definition nonempty_digits (s : string) : option Z :=
  if String.eqb s EmptyString then None else digits_value 0 s.

(** The longest prefix a predicate holds of, and the rest. *)
Fixpoint span (p : ascii -> bool) (s : string) : string * string :=
  match s with
  | EmptyString => (EmptyString, EmptyString)
  | String c s' =>
      if p c then let '(a, b) := span p s' in (String c a, b)
      else (EmptyString, s)
  end.

(** The value of [digits] or [digits.digits]. *)
Definition unsigned_decimal (s : string) : number :=
  let '(int, rest) := span is_digit s in
  match nonempty_digits int, rest with
  | Some i, EmptyString => Num (inject_Z i)
  | Some i, String c frac =>
      match Ascii.eqb c "."%char, nonempty_digits frac with
      | true, Some f =>
          Num (Qred (inject_Z i + (f # Pos.of_nat (10 ^ String.length frac))))
      | _, _ => NaN
      end
  | None, _ => NaN
  end.

(** JS [Number(s)] on the plain decimal literals, with or without a minus
    sign, and on the empty string; [NaN] on the rest (the examples use no
    exponent, radix prefix or surrounding space). *)
Definition decimal_Number (s : string) : number :=
  match s with
  | EmptyString => Num 0
  | String c s' =>
      if Ascii.eqb c "-"%char then
        match unsigned_decimal s' with
        | Num q => Num (- q)
        | NaN => NaN
        end
      else unsigned_decimal s
  end.

Definition is_letter (c : ascii) : bool :=
  let n := nat_of_ascii c in
  ((65 <=? n)%nat && (n <=? 90)%nat) || ((97 <=? n)%nat && (n <=? 122)%nat).

Definition is_space (c : ascii) : bool := Ascii.eqb c " "%char.

(** Modelled from the spec: the constant [OVERLAY_TAG_REGEX] of [utils],
    which is not part of [main.ts]: a radius specification has the form
    [<number><whitespace><unit>], and the fixed pattern captures a numeric
    magnitude and an optional unit. The magnitude is the leading run of
    digits and points; without one there is no match. *)
Definition spec_OVERLAY_TAG_REGEX (s : string) : option (option string * option string) :=
  let '(magnitude, rest) := span (fun c => is_digit c || Ascii.eqb c "."%char) s in
  if String.eqb magnitude EmptyString then None
  else
    let '(_, rest') := span is_space rest in
    let '(unit, _) := span is_letter rest' in
    Some (Some magnitude, if String.eqb unit EmptyString then None else Some unit).

(** [convert(x).from(u).to("m")] on metres, kilometres, feet and miles. *)
Definition metres_of (x : Q) (u : string) : Q :=
  if String.eqb u "km" then (x * 1000)%Q
  else if String.eqb u "ft" then (x * (3048 # 10000))%Q
  else if String.eqb u "mi" then (x * (1609344 # 1000))%Q
  else x.

(** On another unit [convert] throws an error that names the unit. *)
Definition unknown_unit (u : string) : option string :=
  if String.eqb u "m" || String.eqb u "km" || String.eqb u "ft" || String.eqb u "mi"
  then None
  else Some (u +:+ " is not a valid unit").

Definition decimal_of_nat (n : nat) : string :=
  DecimalString.NilZero.string_of_uint (Nat.to_uint n).

(** A persisted marker and a persisted overlay, back on a map. *)
Definition marker_of_data (d : IMarkerData) : Marker :=
  {| mk_id := md_id d; mk_type := md_type d;
     mk_loc := latLng (fst (md_loc d)) (snd (md_loc d));
     mk_link := md_link d; mk_layer := md_layer d; mk_mutable := true;
     mk_command := md_command d; mk_zoom := Some (md_zoom d);
     mk_leafletInstance :=
       {| li_latlng := latLng (fst (md_loc d)) (snd (md_loc d));
          li_tooltip_bound := true; li_tooltip_open := false |} |}.

Definition overlay_of_saved (o : ISavedOverlay) : ILeafletOverlay :=
  {| ov_leafletInstance := Circle (so_loc o) (so_color o);
     ov_layer := so_layer o;
     ov_data := {| od_radius := so_radius o; od_loc := so_loc o;
                   od_color := so_color o; od_unit := so_unit o;
                   od_layer := so_layer o; od_desc := so_desc o; od_id := None |};
     ov_mutable := true;
     ov_id := None |}.

#[local] Instance example_host : Host := {|
  Number := decimal_Number;
  number_toString := fun n =>
    match n with
    | NaN => "NaN"
    | Num q => DecimalString.NilZero.string_of_int (Z.to_int (Qnum q / Zpos (Qden q)))
    end;
  String_trim := fun s => s;
  OVERLAY_TAG_REGEX := spec_OVERLAY_TAG_REGEX;
  convert_to_m := metres_of;
  convert_error := unknown_unit;
  zoomDistance := fun d u m =>
    match decimal_Number d with
    | Num q => Num (metres_of q (match u with Some u => u | None => "m" end))
    | NaN => NaN
    end;
  getId := fun n => "ID_" +:+ decimal_of_nat n;
  getFirstLinkpathDest := fun _ => None;
  LeafletRenderer_map := fun el o =>
    {| lm_id := ro_id o; lm_contentEl := S el; lm_type := ro_type o;
       lm_unit := ro_unit o; lm_scale := ro_scale o; lm_markers := [];
       lm_overlays := []; lm_mapLayers := [] |};
  createMarker := fun m a =>
    set_markers
      (lm_markers m ++
         [ {| mk_id := cm_id a; mk_type := cm_type a; mk_loc := cm_loc a;
              mk_link := cm_link a; mk_layer := cm_layer a;
              mk_mutable := cm_mutable a; mk_command := cm_command a;
              mk_zoom := None;
              mk_leafletInstance :=
                {| li_latlng := cm_loc a; li_tooltip_bound := true;
                   li_tooltip_open := false |} |} ]) m;
  addMarker := fun m marker => set_markers (lm_markers m ++ [marker]) m;
  loadData := fun m data =>
    match data with
    | None => m
    | Some r =>
        set_markers (lm_markers m ++ map marker_of_data (rd_markers r))
          (set_overlays
             (lm_overlays m ++
                flat_map (fun o => match o with
                                   | Some saved => [overlay_of_saved saved]
                                   | None => []
                                   end) (rd_overlays r))
             m)
    end;
  render := fun m _ _ _ _ => m;
  updateMarkerIcons := fun m => m;
  toDataURL := fun l => Some l
|}.

(** ** Orders *)

(** [a] may stand before [b]: its key is no smaller. *)
Definition descending {A : Type} (key : A -> Q) (a b : A) : Prop :=
  (key b <= key a)%Q.

(** The comparator [key(b) - key(a)], as [overlayArray.sort] is given. *)
Definition by_key_descending {A : Type} (key : A -> Q) (a b : A) : Q :=
  (key b - key a)%Q.

(** ** Frames *)

(** From [st] to [st'] nothing changed but the map object [r], the durable
    store in memory and the count of ids drawn. *)
Definition touches_only (r : ref) (st st' : Plugin) : Prop :=
  pl_maps st' = pl_maps st /\
  pl_mapFiles st' = pl_mapFiles st /\
  pl_notices st' = pl_notices st /\
  pl_errors st' = pl_errors st /\
  pl_saved st' = pl_saved st /\
  forall r0, r0 <> r -> pl_heap st' !! r0 = pl_heap st !! r0.

(** ** What a state shows *)

(** The element [el] shows a registered view whose map has [n] overlays. *)
Definition renders_overlays (st : Plugin) (el : Element) (n : nat) : Prop :=
  exists v m,
    In v (pl_maps st) /\ mi_el v = el /\
    pl_heap st !! mi_map v = Some m /\ length (lm_overlays m) = n.

(** The overlay carries the binding id [fileId]. *)
Definition tagged (fileId : string) (o : ILeafletOverlay) : bool :=
  negb (id_differs (ov_id o) fileId).

Section Declared.
Context `{Host}.

(** The declaration passes the handler's guard on its length. *)
Definition well_formed_length (e : OverlayEntry) : bool :=
  match entry_radius e with Some _ => true | None => false end.

(** The overlays a document's declarations stand for, in their order. *)
Definition declared_overlays (fileId overlayColor layer : string)
    (entries : list OverlayEntry) : list ILeafletOverlay :=
  flat_map
    (fun e =>
       match entry_radius e with
       | Some (radius, unit) =>
           [overlay_of (entry_data fileId overlayColor layer e radius unit) false]
       | None => []
       end)
    entries.

(** The overlays the handler inserts for them on a map with these layers:
    the declared ones under the first layer, none without a layer. *)
Definition declared_on (fileId overlayColor : string) (layers : list string)
    (entries : list OverlayEntry) : list ILeafletOverlay :=
  match layers with
  | layer :: _ => declared_overlays fileId overlayColor layer entries
  | [] => []
  end.

End Declared.

(** ** Defaults of the map centre *)

(** The default a component falls back to. *)
Definition default_latitude (m : LeafletMap) (st : Plugin) : number :=
  match lm_type m with
  | ImageMap => Num 50
  | RealMap => ad_lat (pl_AppData st)
  end.

Definition default_longitude (m : LeafletMap) (st : Plugin) : number :=
  match lm_type m with
  | ImageMap => Num 50
  | RealMap => ad_long (pl_AppData st)
  end.


(** ** States to run the code on *)

Definition day : Z := 86400000.
Definition example_now : Z := 1700000000000.

Definition pin : IMarkerData :=
  {| md_type := "default"; md_id := "pin"; md_loc := (Num 1, Num 2);
     md_link := None; md_layer := None; md_command := false; md_zoom := Num 0 |}.

(** A durable record with one marker, last accessed [age] ago. *)
Definition record_of (id : option string) (files : list string) (age : Z) : IMapMarkerData :=
  {| rd_id := id; rd_path := None; rd_files := files;
     rd_lastAccessed := Some (example_now - age)%Z;
     rd_markers := [pin]; rd_overlays := [] |}.

Definition plugin_with (store : list IMapMarkerData) (maps : list IMapInterface)
    (heap : gmap ref LeafletMap) (cache : list (TFile * CachedMetadata)) : Plugin :=
  {| pl_AppData := {| ad_mapMarkers := store; ad_lat := Num 39; ad_long := Num (-82)%Q |};
     pl_maps := maps; pl_mapFiles := []; pl_heap := heap; pl_notices := [];
     pl_errors := ∅; pl_saved := None; pl_idsDrawn := 0;
     pl_metadataCache := cache |}.

(** The store of the GC boundary: unattached records 8 and 6 days old, an
    attached one 30 days old, and one of the old format, without id. *)
Definition gc_example : Plugin :=
  plugin_with
    [ record_of (Some "stale") [] (8 * day)%Z;
      record_of (Some "recent") [] (6 * day)%Z;
      record_of (Some "attached") ["Atlas.md"] (30 * day)%Z;
      record_of None [] (30 * day)%Z ]
    [] ∅ [].

Definition marker_at (id : string) (x y : Q) : Marker :=
  {| mk_id := id; mk_type := "default"; mk_loc := latLng (Num x) (Num y);
     mk_link := None; mk_layer := None; mk_mutable := true; mk_command := false;
     mk_zoom := None;
     mk_leafletInstance :=
       {| li_latlng := latLng (Num x) (Num y); li_tooltip_bound := true;
          li_tooltip_open := true |} |}.

Definition map_of (id : string) (contentEl : Element) (markers : list Marker)
    (overlays : list ILeafletOverlay) : LeafletMap :=
  {| lm_id := id; lm_contentEl := contentEl; lm_type := RealMap; lm_unit := "m";
     lm_scale := 1; lm_markers := markers; lm_overlays := overlays;
     lm_mapLayers := ["real"] |}.

Definition view_of (r : ref) (el : Element) (id : string) : IMapInterface :=
  {| mi_map := r; mi_source := "id: " +:+ id; mi_el := el; mi_id := id |}.

(** Three views: A and B show the map "world", C another map. A holds the
    marker "m1", B also "m2". *)
Definition views_example : Plugin :=
  plugin_with
    [ record_of (Some "world") ["Atlas.md"] day ]
    [ view_of 1 10 "world"; view_of 2 20 "world"; view_of 3 30 "moon" ]
    (<[1 := map_of "world" 11 [marker_at "m1" 1 1] []]>
       (<[2 := map_of "world" 21 [marker_at "m1" 1 1; marker_at "m2" 2 2] []]>
          (<[3 := map_of "moon" 31 [marker_at "m1" 5 5] []]> ∅)))
    [].

Definition raw (length : string) : RawOverlay :=
  {| raw_color := "blue"; raw_loc := (Num 0, Num 0); raw_length := length;
     raw_desc := None; raw_id := None |}.

Definition params_with (id : option string) (overlays : list RawOverlay) : Params :=
  {| p_id := id; p_image := None; p_lat := JUndefined; p_long := JUndefined;
     p_coordinates := None; p_zoomTag := None; p_unit := None; p_scale := None;
     p_layers := []; p_overlay := overlays; p_overlayColor := None |}.

Definition no_items : ImmutableItems :=
  {| ii_markers := []; ii_overlays := []; ii_files := [] |}.

Definition tuple_of (radius : Q) (unit : string) : OverlayTuple :=
  {| ot_color := "blue"; ot_loc := (Num 0, Num 0); ot_radius := radius;
     ot_unit := unit; ot_desc := None; ot_id := "o" |}.

(** A bound document and the overlays it declares. *)
Definition town : TFile := {| tf_path := "Places/Town.md"; tf_name := "Town.md" |}.

Definition town_declares (lengths : list string) : FrontMatter :=
  {| fm_location := None;
     fm_mapoverlay :=
       Some (map (fun l => {| oe_color := None; oe_loc := None;
                              oe_length := Some l; oe_desc := None |})
                 lengths);
     fm_own := [] |}.

Definition declares (lengths : list string) : list (TFile * CachedMetadata) :=
  [ (town, {| cm_frontmatter := Some (town_declares lengths) |}) ].

Definition without_front_matter : list (TFile * CachedMetadata) :=
  [ (town, {| cm_frontmatter := None |}) ].

Definition set_metadataCache (cache : list (TFile * CachedMetadata)) (st : Plugin) : Plugin :=
  {| pl_AppData := pl_AppData st; pl_maps := pl_maps st;
     pl_mapFiles := pl_mapFiles st; pl_heap := pl_heap st;
     pl_notices := pl_notices st; pl_errors := pl_errors st;
     pl_saved := pl_saved st; pl_idsDrawn := pl_idsDrawn st;
     pl_metadataCache := cache |}.

(** One view of the map "world", with an overlay of its own and [town]
    bound under the id "town". *)
Definition bound_example : Plugin :=
  plugin_with []
    [ view_of 1 10 "world" ]
    (<[1 := map_of "world" 11 []
              [ overlay_of {| od_radius := 7; od_loc := (Num 0, Num 0);
                              od_color := "red"; od_unit := "m"; od_layer := None;
                              od_desc := None; od_id := Some "own" |} true ]]> ∅)
    (declares ["100 m"; "2 km"]).

Definition block_source : string := "id: world".

Definition empty_plugin : Plugin := plugin_with [] [] ∅ [].

(** A block of three overlays, the second with the radius "abc". *)
Definition malformed_block : Params :=
  params_with (Some "world") [raw "5 m"; raw "abc"; raw "50 m"].

Definition well_formed_block : Params :=
  params_with (Some "world") [raw "5 m"; raw "50 m"].

Definition block_without_id : Params := params_with None [raw "5 m"].

Definition three_overlays : list RawOverlay := [raw "5 m"; raw "50 m"; raw "1 m"].

(** A block of two overlays, the first in a unit [convert] does not know. *)
Definition unknown_unit_block : Params :=
  params_with (Some "world") [raw "5 xyz"; raw "3 m"].

(** An [addOverlay] that keeps the overlays in the order of its calls. *)
Definition addOverlay_last (m : LeafletMap) (d : IOverlayData) (mutable : bool) : LeafletMap :=
  set_overlays (lm_overlays m ++ [overlay_of d mutable]) m.

Definition image_map : LeafletMap :=
  {| lm_id := "dungeon"; lm_contentEl := 41; lm_type := ImageMap; lm_unit := "m";
     lm_scale := 1; lm_markers := []; lm_overlays := []; lm_mapLayers := ["cave.png"] |}.

(** ** The registry of views *)

(** Every registered view has a map object, and no two views share one. *)
Definition registry_wf (st : Plugin) : Prop :=
  List.NoDup (map mi_map (pl_maps st)) /\
  forall v, In v (pl_maps st) -> is_Some (pl_heap st !! mi_map v).

(** A computation that leaves the registry as it is and drops no map
    object. *)
Definition keeps_registry {A : Type} (c : M A) : Prop :=
  forall st,
    pl_maps (snd (c st)) = pl_maps st /\
    forall r, is_Some (pl_heap st !! r) -> is_Some (pl_heap (snd (c st)) !! r).

(** ** The vault events of [onload] *)

(** [file.path] *)
Definition path_of (file : TAbstractFile) : string :=
  match file with
  | File f => tf_path f
  | Folder path => path
  end.

Section VaultEvents.
Context `{Host}.

(** The handler of the vault's ["rename"] event (lines 79 to 87): the
    first entry of [this.mapFiles] for the old path takes the new path, and
    the settings are saved. *)
Definition vault_rename (file : option TAbstractFile) (oldPath : string) (now : Z)
    (st : Plugin) : Plugin :=
  match file with
  | None => st
  | Some file =>
      let old := fun mf => String.eqb (mf_file mf) oldPath in
      if existsb old (pl_mapFiles st) then
        saveSettings
          (set_mapFiles
             (update_first old
                (fun mf => {| mf_file := path_of file; mf_maps := mf_maps mf |})
                (pl_mapFiles st))
             st)
          now
      else st
  end.

(** The handler of the vault's ["delete"] event (lines 90 to 100). *)
Definition vault_delete (file : option TAbstractFile) (now : Z) (st : Plugin) : Plugin :=
  match file with
  | None => st
  | Some file =>
      let here := fun mf => String.eqb (mf_file mf) (path_of file) in
      if existsb here (pl_mapFiles st) then
        saveSettings
          (set_mapFiles (List.filter (fun mf => negb (here mf)) (pl_mapFiles st)) st)
          now
      else st
  end.

End VaultEvents.

(** ** The deletion of a bound document *)

(** [watchers.delete(file)] *)
Definition watchers_delete (watchers : list (TFile * string)) (f : TFile)
    : list (TFile * string) :=
  List.filter (fun w => negb (String.eqb (tf_path (fst w)) (tf_path f))) watchers.

Section WatcherDeleted.

(** [LeafletMap.removeMarker(marker)] of the module [leaflet], called with
    the bound marker or with [undefined]. *)
Variable removeMarker : LeafletMap -> option Marker -> LeafletMap.

(** The handler of the vault's ["delete"] event that a block with bound
    documents registers for its map [self] (lines 396 to 416): the bound
    marker is removed, the overlays of the binding id are filtered out, the
    document is unbound. It returns the bindings with the state. *)
Definition watcher_deleted (self : ref) (watchers : list (TFile * string))
    (file : TAbstractFile) (st : Plugin) : list (TFile * string) * Plugin :=
  match file with
  | Folder _ => (watchers, st)
  | File f =>
      match watched watchers f with
      | None => (watchers, st)
      | Some fileId =>
          match pl_heap st !! self with
          | Some m =>
              let m1 := removeMarker m (getMarkerById m fileId) in
              let m2 :=
                set_overlays
                  (List.filter (fun o => id_differs (ov_id o) fileId) (lm_overlays m1)) m1 in
              (watchers_delete watchers f, set_heap (<[self := m2]> (pl_heap st)) st)
          | None => (watchers, st)
          end
      end
  end.

End WatcherDeleted.

(** ** The update of a marker's data *)

Section MarkerDataUpdated.
Context `{Host}.

(** The ["marker-data-updated"] handler of the map [self] (lines 815 to
    838): the settings are saved, then the copies of the marker in the
    sibling views follow it, as they do while it is dragged. *)
Definition on_marker_data_updated (self : ref) (marker : Marker) (now : Z)
    (st : Plugin) : Plugin :=
  on_marker_dragging self marker (saveSettings st now).

End MarkerDataUpdated.

(** ** Invariants and shapes *)

(** No two records of the store carry the same id. *)
Definition unique_ids (store : list IMapMarkerData) : Prop :=
  forall id, (length (List.filter (has_id id) store) <= 1)%nat.

(** No view has the record's id. *)
Definition inactive (maps : list IMapInterface) (r : IMapMarkerData) : bool :=
  forallb (fun m => id_differs (rd_id r) (mi_id m)) maps.

(** The views that are the last of their id in the registry, in its
    order. *)
Fixpoint writers (maps : list IMapInterface) : list IMapInterface :=
  match maps with
  | [] => []
  | m :: maps' =>
      if existsb (fun w => String.eqb (mi_id w) (mi_id m)) maps' then writers maps'
      else m :: writers maps'
  end.

(** Each document has one entry in [this.mapFiles]. *)
Definition mapFiles_wf (l : list MapFile) : Prop :=
  List.NoDup (map mf_file l).

(** Each element shows one view. *)
Definition one_view_per_element (maps : list IMapInterface) : Prop :=
  List.NoDup (map mi_el maps).

(** The view of the element [el]. *)
Definition shown_in (el : Element) (v : IMapInterface) : bool :=
  (mi_el v =? el)%nat.

(** A computation that leaves a part of the state as it is. *)
Definition leaves {A B : Type} (part : Plugin -> B) (c : M A) : Prop :=
  forall st, part (snd (c st)) = part st.

(** What the dragging of a marker leaves of a map: the ids of its markers
    in their order, the markers of other ids, its overlays, its element. *)
Definition undragged (id : string) (m : LeafletMap)
    : list string * list Marker * list ILeafletOverlay * Element :=
  (map mk_id (lm_markers m),
   List.filter (fun k => negb (marker_has_id id k)) (lm_markers m),
   lm_overlays m,
   lm_contentEl m).

(** A path after the renaming of [oldPath]. *)
Definition renamed (oldPath newPath p : string) : string :=
  if String.eqb p oldPath then newPath else p.

(** The document declares a location Leaflet refuses for the bound
    marker: two numbers of which one is [NaN], on a map that has the
    marker. *)
Definition refused_location (fileId : string) (fm : FrontMatter) (m : LeafletMap) : bool :=
  match getMarkerById m fileId, fm_location fm with
  | Some _, Some (JArray [JNumber a; JNumber b]) => isNaN a || isNaN b
  | _, _ => false
  end.

Section Layers.
Context `{Host}.

(** The layer yields data: the test [!d.data] fails on it. *)
Definition layer_has_data (l : string) : bool :=
  match toDataURL l with
  | Some data => negb (String.eqb data EmptyString)
  | None => false
  end.

(** [layerData] is built: the map is real, or each layer yields data. *)
Definition layers_ok (image : string) (layers : list string) : bool :=
  String.eqb image "real" || forallb layer_has_data layers.

(** [layerData] when it is built. *)
Definition layerData_of (image : string) (layers : list string)
    : list (string * option string) :=
  if String.eqb image "real" then [] else map (fun l => (l, toDataURL l)) layers.

(** The unit of a declaration: the second group of the match, ["m"]
    without one. *)
Definition declared_unit (o : RawOverlay) : string :=
  match OVERLAY_TAG_REGEX (raw_length o) with
  | Some (_, Some unit) => unit
  | _ => "m"
  end.

(** [convert] knows the unit of each declaration. *)
Definition units_known (raws : list RawOverlay) : bool :=
  forallb (fun o => match convert_error (declared_unit o) with
                    | Some _ => false
                    | None => true
                    end) raws.

(** The coordinates of each immutable marker are numbers. Leaflet's
    [latLng] throws on one that is [NaN]. *)
Definition positions_are_numbers (items : ImmutableItems) : bool :=
  forallb (fun t => negb (isNaN (Number_of (im_lat t)))
                    && negb (isNaN (Number_of (im_long t))))
          (ii_markers items).

End Layers.

Definition layers_notice : string := "No valid layers were provided to the image map.".

(** The [image] and the [id] of a block, as the post-processor reads
    them. *)
Definition image_of (params : Params) : string :=
  match p_image params with Some i => i | None => "real" end.

Definition id_of (params : Params) : string :=
  match p_id params with Some i => i | None => EmptyString end.

(** The view a render registers for the map object [r]. *)
Definition view_for (r : ref) (source : string) (el : Element) (params : Params)
    : IMapInterface :=
  {| mi_map := r; mi_source := source; mi_el := el; mi_id := id_of params |}.

(** From [st] to [st'] nothing changed but the map object [r], the
    durable store in memory, the count of ids drawn and, at most, the
    notice on the coordinates. *)
Definition populates (r : ref) (st st' : Plugin) : Prop :=
  pl_maps st' = pl_maps st /\
  pl_mapFiles st' = pl_mapFiles st /\
  pl_errors st' = pl_errors st /\
  pl_saved st' = pl_saved st /\
  (forall r0, r0 <> r -> pl_heap st' !! r0 = pl_heap st !! r0) /\
  (pl_notices st' = pl_notices st \/
   pl_notices st' = pl_notices st ++ [coordinates_notice]).

(** ** More states to run the code on *)

(** The map "world" is displayed and holds no marker any more; the store
    still has its record. *)
Definition emptied_example : Plugin :=
  plugin_with
    [ record_of (Some "world") ["Atlas.md"] day ]
    [ view_of 1 10 "world" ]
    (<[1 := map_of "world" 11 [] []]> ∅)
    [].

(** The document [town] is bound to the marker "town" of the map "world";
    it declares the location (3, 4) and three overlays, the second with a
    length that does not parse. *)
Definition town_located : FrontMatter :=
  {| fm_location := Some (JArray [JNumber (Num 3); JNumber (Num 4)]);
     fm_mapoverlay := fm_mapoverlay (town_declares ["100 m"; "abc"; "2 km"]);
     fm_own := [] |}.

Definition located_example : Plugin :=
  plugin_with []
    [ view_of 1 10 "world" ]
    (<[1 := map_of "world" 11 [marker_at "town" 1 1; marker_at "m1" 5 5] []]> ∅)
    [ (town, {| cm_frontmatter := Some town_located |}) ].

(** The same document declaring a location whose latitude is [NaN]. *)
Definition refused_example : Plugin :=
  plugin_with []
    [ view_of 1 10 "world" ]
    (<[1 := map_of "world" 11 [marker_at "town" 1 1; marker_at "m1" 5 5] []]> ∅)
    [ (town,
       {| cm_frontmatter :=
            Some {| fm_location := Some (JArray [JNumber NaN; JNumber (Num 4)]);
                    fm_mapoverlay := fm_mapoverlay (town_declares ["100 m"; "abc"]);
                    fm_own := [] |} |}) ].

(** A map that has no layer yet, with an overlay of the binding id
    "town". *)
Definition unlayered_example : Plugin :=
  plugin_with []
    [ view_of 1 10 "world" ]
    (<[1 := {| lm_id := "world"; lm_contentEl := 11; lm_type := RealMap;
               lm_unit := "m"; lm_scale := 1; lm_markers := [];
               lm_overlays :=
                 [ overlay_of {| od_radius := 7; od_loc := (Num 0, Num 0);
                                 od_color := "red"; od_unit := "m"; od_layer := None;
                                 od_desc := None; od_id := Some "town" |} false ];
               lm_mapLayers := [] |}]> ∅)
    (declares ["abc"; "5 m"]).

(** A [removeMarker] to run the code on: the markers of the marker's id
    are taken off the map. *)
Definition example_removeMarker (m : LeafletMap) (marker : option Marker) : LeafletMap :=
  match marker with
  | Some k =>
      set_markers (List.filter (fun x => negb (marker_has_id (mk_id k) x)) (lm_markers m)) m
  | None => m
  end.

(** A host on which the link "Town" resolves to the document [town]. *)
Definition linked_host : Host :=
  {| Number := @Number example_host;
     number_toString := @number_toString example_host;
     String_trim := @String_trim example_host;
     OVERLAY_TAG_REGEX := @OVERLAY_TAG_REGEX example_host;
     convert_to_m := @convert_to_m example_host;
     convert_error := @convert_error example_host;
     zoomDistance := @zoomDistance example_host;
     getId := @getId example_host;
     getFirstLinkpathDest := fun link => if String.eqb link "Town" then Some town else None;
     LeafletRenderer_map := @LeafletRenderer_map example_host;
     createMarker := @createMarker example_host;
     addMarker := @addMarker example_host;
     loadData := @loadData example_host;
     render := @render example_host;
     updateMarkerIcons := @updateMarkerIcons example_host;
     toDataURL := @toDataURL example_host |}.

(** The document [town] declares the location (3, 4) and, under "zoom",
    the given value. *)
Definition zoomed_example (zoom : jsval) : Plugin :=
  plugin_with [] [] ∅
    [ (town,
       {| cm_frontmatter :=
            Some {| fm_location := Some (JArray [JNumber (Num 3); JNumber (Num 4)]);
                    fm_mapoverlay := None;
                    fm_own := [("zoom", zoom)] |} |}) ].

Definition atlas : TFile := {| tf_path := "Atlas.md"; tf_name := "Atlas.md" |}.

Definition atlas_moved : TFile :=
  {| tf_path := "Maps/Atlas.md"; tf_name := "Atlas.md" |}.

(** The documents "Atlas.md" and "Notes.md" embed the map "world", which
    one view displays with a marker. *)
Definition embedded_example : Plugin :=
  set_mapFiles
    [ {| mf_file := "Atlas.md"; mf_maps := ["world"] |};
      {| mf_file := "Notes.md"; mf_maps := ["world"; "moon"] |} ]
    (plugin_with
       [ record_of (Some "world") ["Atlas.md"; "Notes.md"] day ]
       [ view_of 1 10 "world" ]
       (<[1 := map_of "world" 11 [marker_at "m1" 1 1] []]> ∅)
       []).

(** A block of an image map with two layers, the second of which yields
    no data. *)
Definition image_block : Params :=
  {| p_id := Some "dungeon"; p_image := Some "cave.png"; p_lat := JUndefined;
     p_long := JUndefined; p_coordinates := None; p_zoomTag := None;
     p_unit := None; p_scale := None; p_layers := ["cave.png"; EmptyString];
     p_overlay := [raw "5 m"]; p_overlayColor := None |}.

(** A record attached to a document that holds no marker and no overlay,
    accessed a day ago, in a store no view is displayed of. *)
Definition dataless_record : IMapMarkerData :=
  {| rd_id := Some "attached"; rd_path := None; rd_files := ["Atlas.md"];
     rd_lastAccessed := Some (example_now - day)%Z; rd_markers := []; rd_overlays := [] |}.

Definition dataless_example : Plugin := plugin_with [dataless_record] [] ∅ [].

(** A store of the old format: the record of the map of "Atlas.md" is
    keyed by its path and has no id. *)
Definition old_format_store : list IMapMarkerData :=
  [ record_of (Some "moon") [] day;
    {| rd_id := None; rd_path := Some "Atlas.md/real"; rd_files := [];
       rd_lastAccessed := None; rd_markers := [pin]; rd_overlays := [] |} ].


(** * Properties *)

(** ** Lists *)

Lemma filter_swap {A : Type} (p q : A -> bool) (l : list A) :
  List.filter p (List.filter q l) = List.filter q (List.filter p l).
Proof.
  induction l as [|x l IH]; simpl; [reflexivity|].
  destruct (q x) eqn:Hq, (p x) eqn:Hp; simpl; rewrite ?Hq, ?Hp, IH; reflexivity.
Qed.

Lemma filter_none {A : Type} (p : A -> bool) (l : list A) :
  (forall x, In x l -> p x = false) -> List.filter p l = [].
Proof.
  induction l as [|x l IH]; simpl; intros Hall; [reflexivity|].
  rewrite (Hall x (or_introl eq_refl)). apply IH. intros y Hy. apply Hall. now right.
Qed.

Lemma filter_all {A : Type} (p : A -> bool) (l : list A) :
  (forall x, In x l -> p x = true) -> List.filter p l = l.
Proof.
  induction l as [|x l IH]; simpl; intros Hall; [reflexivity|].
  rewrite (Hall x (or_introl eq_refl)). f_equal. apply IH. intros y Hy. apply Hall. now right.
Qed.

Lemma filter_filter_and {A : Type} (p q : A -> bool) (l : list A) :
  List.filter p (List.filter q l) = List.filter (fun x => q x && p x) l.
Proof.
  induction l as [|x l IH]; simpl; [reflexivity|].
  destruct (q x); simpl; [destruct (p x)|]; now rewrite IH.
Qed.

Lemma filter_idem {A : Type} (p : A -> bool) (l : list A) :
  List.filter p (List.filter p l) = List.filter p l.
Proof. apply filter_all. intros x Hx. now apply filter_In in Hx. Qed.

(** Filtering a list keeps its images distinct. *)
Lemma NoDup_map_filter {A B : Type} (g : A -> B) (p : A -> bool) (l : list A) :
  List.NoDup (map g l) -> List.NoDup (map g (List.filter p l)).
Proof.
  induction l as [|x l IH]; simpl; intros Hnd; [constructor|].
  apply List.NoDup_cons_iff in Hnd as [Hx Hnd].
  destruct (p x); simpl; [|now apply IH].
  apply List.NoDup_cons_iff. split; [|now apply IH].
  intros Hin. apply Hx. apply in_map_iff in Hin as (y & Hy & Hin).
  apply filter_In in Hin as [Hin _]. apply in_map_iff. eauto.
Qed.

(** ** The save cycle *)

Section SaveSettingsFacts.
Context `{Host}.

Lemma has_id_spec (id : string) (r : IMapMarkerData) :
  has_id id r = true <-> rd_id r = Some id.
Proof.
  unfold has_id, id_differs. destruct (rd_id r) as [s|]; simpl.
  - rewrite negb_involutive, String.eqb_eq. split; congruence.
  - split; discriminate.
Qed.

Lemma last_writer_snoc (maps : list IMapInterface) (m : IMapInterface) (id : string) :
  last_writer (maps ++ [m]) id =
  if String.eqb (mi_id m) id then Some m else last_writer maps id.
Proof. unfold last_writer. rewrite rev_unit. reflexivity. Qed.

Lemma last_writer_in (maps : list IMapInterface) (m : IMapInterface) :
  In m maps -> exists w, last_writer maps (mi_id m) = Some w.
Proof.
  intros Hin. unfold last_writer.
  destruct (List.find _ (rev maps)) as [w|] eqn:Hf; [eauto|].
  apply in_rev in Hin. pose proof (find_none _ _ Hf m Hin) as Hn.
  simpl in Hn. rewrite String.eqb_refl in Hn. discriminate.
Qed.

(** After the loop over the views, the records of an id that some view has
    are the one record of the last such view. *)
Lemma merge_active_by_id (st : Plugin) (now : Z) (id : string)
    (maps : list IMapInterface) (store : list IMapMarkerData) :
  List.filter (has_id id) (fold_left (replace_record st now) maps store) =
  match last_writer maps id with
  | Some w => [fresh_record st now w]
  | None => List.filter (has_id id) store
  end.
Proof.
  induction maps as [|m maps IH] using rev_ind; [reflexivity|].
  rewrite fold_left_app, last_writer_snoc. simpl. unfold replace_record at 1.
  rewrite List.filter_app. simpl.
  destruct (String.eqb (mi_id m) id) eqn:Hid.
  - apply String.eqb_eq in Hid. subst id.
    unfold has_id at 2. simpl. rewrite String.eqb_refl. simpl.
    rewrite filter_none; [reflexivity|].
    intros r Hr. apply filter_In in Hr as [_ Hr].
    unfold has_id. now rewrite Hr.
  - unfold has_id at 2. simpl. rewrite Hid. simpl. rewrite app_nil_r.
    rewrite filter_swap. rewrite <- IH.
    apply filter_all. intros r Hr.
    apply filter_In in Hr as [_ Hr]. apply has_id_spec in Hr.
    unfold id_differs. rewrite Hr. rewrite String.eqb_sym, Hid. reflexivity.
Qed.

Lemma saved_records_of_id (st : Plugin) (now : Z) (id : string) :
  List.filter (has_id id) (ad_mapMarkers (pl_AppData (saveSettings st now))) =
  List.filter (gc_keep now) (List.filter has_data
    (List.filter (has_id id) (merge_active st now))).
Proof.
  simpl. unfold before_gc.
  rewrite (filter_swap (has_id id)). f_equal. apply filter_swap.
Qed.

(** A durable record with data whose id no active view has reaches the
    garbage-collection filter. *)
Lemma durable_record_reaches_gc (st : Plugin) (now : Z) (r : IMapMarkerData) :
  In r (ad_mapMarkers (pl_AppData st)) ->
  has_data r = true ->
  (forall m, In m (pl_maps st) -> id_differs (rd_id r) (mi_id m) = true) ->
  In r (before_gc st now).
Proof.
  intros Hin Hdata Hids. apply filter_In. split; [|exact Hdata].
  unfold merge_active. revert Hin Hids.
  generalize (ad_mapMarkers (pl_AppData st)) as store.
  induction (pl_maps st) as [|m maps IH]; intros store Hin Hids; [exact Hin|].
  simpl. apply IH.
  - unfold replace_record. apply in_or_app. left. apply filter_In.
    split; [exact Hin|]. apply Hids. now left.
  - intros m' Hm'. apply Hids. now right.
Qed.

Lemma inactive_fresh (st : Plugin) (now : Z) (m : IMapInterface) (maps : list IMapInterface) :
  inactive maps (fresh_record st now m) =
  negb (existsb (fun w => String.eqb (mi_id w) (mi_id m)) maps).
Proof.
  unfold inactive. simpl. induction maps as [|w maps IH]; simpl; [reflexivity|].
  rewrite IH, negb_orb, (String.eqb_sym (mi_id m)). reflexivity.
Qed.

(** The loop over the views leaves the records of the ids no view has, in
    their order, followed by a fresh record for the last view of each id. *)
Lemma merge_active_shape (st : Plugin) (now : Z) (maps : list IMapInterface)
    (store : list IMapMarkerData) :
  fold_left (replace_record st now) maps store =
  List.filter (inactive maps) store ++ map (fresh_record st now) (writers maps).
Proof.
  revert store. induction maps as [|m maps IH]; intros store; simpl.
  - rewrite app_nil_r. symmetry. now apply filter_all.
  - rewrite IH. unfold replace_record at 1. rewrite List.filter_app, filter_filter_and.
    rewrite <- app_assoc. f_equal. simpl. rewrite inactive_fresh.
    destruct (existsb _ maps); reflexivity.
Qed.

Lemma writers_incl (maps : list IMapInterface) (w : IMapInterface) :
  In w (writers maps) -> In w maps.
Proof.
  induction maps as [|m maps IH]; simpl; [tauto|].
  destruct (existsb _ maps); simpl; intuition.
Qed.

Lemma inactive_spec (maps : list IMapInterface) (r : IMapMarkerData) :
  inactive maps r = true <->
  forall m, In m maps -> id_differs (rd_id r) (mi_id m) = true.
Proof. unfold inactive. now rewrite forallb_forall. Qed.

Lemma fresh_is_active (st : Plugin) (now : Z) (maps : list IMapInterface) (w : IMapInterface) :
  In w maps -> inactive maps (fresh_record st now w) = false.
Proof.
  intros Hin. destruct (inactive maps (fresh_record st now w)) eqn:Hi; [|reflexivity].
  apply (proj1 (inactive_spec _ _)) with (m := w) in Hi; [|exact Hin].
  simpl in Hi. now rewrite String.eqb_refl in Hi.
Qed.

Lemma last_writer_cons (m : IMapInterface) (maps : list IMapInterface) (id : string) :
  last_writer (m :: maps) id =
  match last_writer maps id with
  | Some w => Some w
  | None => if String.eqb (mi_id m) id then Some m else None
  end.
Proof.
  unfold last_writer. simpl. generalize (rev maps) as l.
  induction l as [|x l IH]; simpl; [reflexivity|].
  destruct (String.eqb (mi_id x) id); [reflexivity | exact IH].
Qed.

Lemma last_writer_none (maps : list IMapInterface) (id : string) (v : IMapInterface) :
  last_writer maps id = None -> In v maps -> mi_id v <> id.
Proof.
  unfold last_writer. intros Hnone Hin. apply in_rev in Hin.
  pose proof (find_none _ _ Hnone v Hin) as Hv. now apply String.eqb_neq in Hv.
Qed.

Lemma last_writer_some (maps : list IMapInterface) (id : string) (w : IMapInterface) :
  last_writer maps id = Some w -> In w maps /\ mi_id w = id.
Proof.
  unfold last_writer. intros Hw. apply find_some in Hw as [Hin Hid].
  split; [now apply in_rev | now apply String.eqb_eq].
Qed.

(** The last view of an id is the one writer of the id. *)
Lemma writers_split (maps : list IMapInterface) (id : string) (w : IMapInterface) :
  last_writer maps id = Some w ->
  exists earlier later,
    writers maps = earlier ++ w :: later /\
    forall v, In v (earlier ++ later) -> mi_id v <> id.
Proof.
  induction maps as [|m maps IH]; [discriminate|].
  rewrite last_writer_cons. simpl.
  destruct (last_writer maps id) as [w'|] eqn:Hlast.
  - intros [= ->]. destruct (IH eq_refl) as (earlier & later & Hsplit & Hids).
    destruct (existsb _ maps) eqn:Hex.
    + now exists earlier, later.
    + exists (m :: earlier), later. split; [simpl; now rewrite Hsplit|].
      intros v [<-|Hv]; [|now apply Hids].
      intros Hm. apply last_writer_some in Hlast as [Hin Hw].
      assert (Hex' : existsb (fun v => String.eqb (mi_id v) (mi_id m)) maps = true).
      { apply existsb_exists. exists w. split; [exact Hin|]. apply String.eqb_eq. congruence. }
      congruence.
  - destruct (String.eqb (mi_id m) id) eqn:Hm; [|discriminate].
    intros [= <-]. apply String.eqb_eq in Hm.
    destruct (existsb _ maps) eqn:Hex.
    + apply existsb_exists in Hex as (v & Hv & Hid). apply String.eqb_eq in Hid.
      exfalso. apply (last_writer_none _ _ v Hlast Hv). congruence.
    + exists [], (writers maps). split; [reflexivity|].
      intros v Hv. apply (last_writer_none _ _ v Hlast). now apply writers_incl.
Qed.

(** The record of a view passes the filters of the save cycle when it has
    data: it was accessed now. *)
Lemma fresh_record_saved (st : Plugin) (now : Z) (w : IMapInterface) :
  List.filter (gc_keep now) (List.filter has_data [fresh_record st now w]) =
  if has_data (fresh_record st now w) then [fresh_record st now w] else [].
Proof.
  simpl. destruct (has_data (fresh_record st now w)); [|reflexivity].
  simpl. unfold gc_keep. simpl. rewrite Z.sub_diag. simpl.
  now rewrite orb_true_r.
Qed.

(** C8. On a save cycle, for every active view the record the durable
    store held for the view's map id is removed and the record freshly
    built for the last active view of that id is appended: it carries the
    id, the documents that embed the map, the time of the save and the
    mutable markers and overlays of that view's map. When it has a marker
    or an overlay it is, after the save, the one record of the id in the
    store, and only records pushed for later views follow it; when it has
    none, the store holds no record of the id. *)
Theorem save_replaces_record_by_id (st : Plugin) (now : Z) (m : IMapInterface) :
  In m (pl_maps st) ->
  exists w,
    last_writer (pl_maps st) (mi_id m) = Some w /\
    let pushed :=
      {| rd_id := Some (mi_id m);
         rd_path := None;
         rd_files := files_embedding (pl_mapFiles st) (mi_id m);
         rd_lastAccessed := Some now;
         rd_markers :=
           map to_IMarkerData
               (List.filter mk_mutable (from_option lm_markers [] (pl_heap st !! mi_map w)));
         rd_overlays :=
           map to_saved_overlay
               (List.filter ov_mutable (from_option lm_overlays [] (pl_heap st !! mi_map w))) |} in
    let saved := ad_mapMarkers (pl_AppData (saveSettings st now)) in
    List.filter (has_id (mi_id m)) saved = (if has_data pushed then [pushed] else []) /\
    exists before after,
      saved = before ++ (if has_data pushed then [pushed] else []) ++ after /\
      (forall r, In r (before ++ after) -> rd_id r <> Some (mi_id m)) /\
      (forall r, In r after -> exists v, In v (pl_maps st) /\ r = fresh_record st now v).
Proof.
  intros Hin. destruct (last_writer_in _ _ Hin) as [w Hw]. exists w.
  split; [exact Hw|]. intros pushed saved.
  destruct (last_writer_some _ _ _ Hw) as [Hwin Hwid].
  assert (Hpushed : fresh_record st now w = pushed).
  { unfold fresh_record, pushed. now rewrite Hwid. }
  split.
  - subst saved. rewrite saved_records_of_id. unfold merge_active.
    rewrite merge_active_by_id, Hw, fresh_record_saved. now rewrite Hpushed.
  - destruct (writers_split _ _ _ Hw) as (earlier & later & Hsplit & Hids).
    set (kept := List.filter (inactive (pl_maps st)) (ad_mapMarkers (pl_AppData st))).
    set (G := fun l => List.filter (gc_keep now) (List.filter has_data l)).
    exists (G kept ++ G (map (fresh_record st now) earlier)),
           (G (map (fresh_record st now) later)).
    assert (Hfresh : forall l r, In r (G (map (fresh_record st now) l)) ->
                       exists v, In v l /\ r = fresh_record st now v).
    { intros l r Hr. unfold G in Hr. apply filter_In in Hr as [Hr _].
      apply filter_In in Hr as [Hr _]. apply in_map_iff in Hr as (v & <- & Hv). eauto. }
    split; [|split].
    + subst saved. cbn [saveSettings pl_AppData ad_mapMarkers].
      unfold before_gc, merge_active. rewrite merge_active_shape, Hsplit.
      fold kept. rewrite map_app. cbn [map].
      change (fresh_record st now w :: map (fresh_record st now) later)
        with ([fresh_record st now w] ++ map (fresh_record st now) later).
      rewrite !List.filter_app. rewrite fresh_record_saved, Hpushed.
      unfold G. now rewrite <- !app_assoc.
    + intros r Hr Hrid.
      apply in_app_or in Hr as [Hr|Hr]; [apply in_app_or in Hr as [Hr|Hr]|].
      * unfold G, kept in Hr. apply filter_In in Hr as [Hr _].
        apply filter_In in Hr as [Hr _]. apply filter_In in Hr as [_ Hr].
        apply (proj1 (inactive_spec _ _)) with (m := m) in Hr; [|exact Hin].
        unfold id_differs in Hr. rewrite Hrid, String.eqb_refl in Hr. discriminate.
      * destruct (Hfresh _ _ Hr) as (v & Hv & ->). simpl in Hrid.
        apply (Hids v); [apply in_or_app; now left | congruence].
      * destruct (Hfresh _ _ Hr) as (v & Hv & ->). simpl in Hrid.
        apply (Hids v); [apply in_or_app; now right | congruence].
    + intros r Hr. destruct (Hfresh _ _ Hr) as (v & Hv & ->).
      exists v. split; [|reflexivity].
      apply writers_incl. rewrite Hsplit. apply in_or_app. right. now right.
Qed.

(** C2 as the code has it. On a save cycle a record of the durable store
    that has an id is dropped when it has no files and was last accessed
    more than 7 days (604800000 ms) ago, and also when it holds no marker
    and no overlay, whatever its files. A record that holds a marker or an
    overlay and whose id no active view has is retained when it has no
    files and was last accessed within 7 days, so 6 days ago, and when it
    has files, whatever its age. *)
Theorem gc_boundary (st : Plugin) (now : Z) (r : IMapMarkerData) :
  In r (ad_mapMarkers (pl_AppData st)) ->
  falsy_id (rd_id r) = false ->
  let saved := ad_mapMarkers (pl_AppData (saveSettings st now)) in
  (forall t, rd_files r = [] -> rd_lastAccessed r = Some t ->
             (now - t > 604800000)%Z -> ~ In r saved) /\
  (has_data r = false -> ~ In r saved) /\
  ((forall m, In m (pl_maps st) -> id_differs (rd_id r) (mi_id m) = true) ->
   has_data r = true ->
   (forall t, rd_files r = [] -> rd_lastAccessed r = Some t ->
              (now - t <= 604800000)%Z -> In r saved) /\
   (rd_files r <> [] -> In r saved)).
Proof.
  intros Hdurable Hid saved. subst saved. simpl. split; [|split].
  - intros t Hfiles Ht Hage Hr. apply filter_In in Hr as [_ Hr].
    unfold gc_keep in Hr. rewrite Hid, Hfiles, Ht in Hr. simpl in Hr.
    apply Z.leb_le in Hr. lia.
  - intros Hdata Hr. apply filter_In in Hr as [Hr _].
    apply filter_In in Hr as [_ Hr]. congruence.
  - intros Hinactive Hdata.
    pose proof (durable_record_reaches_gc st now r Hdurable Hdata Hinactive) as Hin.
    split.
    + intros t Hfiles Ht Hage. apply filter_In. split; [exact Hin|].
      unfold gc_keep. rewrite Hid, Hfiles, Ht. simpl. apply Z.leb_le. lia.
    + intros Hfiles. apply filter_In. split; [exact Hin|].
      unfold gc_keep. destruct (rd_files r); [congruence|]. simpl.
      now rewrite orb_true_r.
Qed.

(** C10. The garbage-collection filter of the save cycle retains every
    record it is applied to whose id is absent or empty, whatever the
    record's files and age. *)
Theorem gc_keeps_record_without_id (st : Plugin) (now : Z) (r : IMapMarkerData) :
  In r (before_gc st now) ->
  falsy_id (rd_id r) = true ->
  In r (ad_mapMarkers (pl_AppData (saveSettings st now))).
Proof.
  intros Hin Hid. simpl. apply filter_In. split; [exact Hin|].
  unfold gc_keep. now rewrite Hid.
Qed.

End SaveSettingsFacts.

Lemma save_replaces_record_by_id_witness :
  In (view_of 1 10 "world") (pl_maps views_example) /\
  exists w,
    last_writer (pl_maps views_example) "world" = Some w /\
    let pushed :=
      {| rd_id := Some "world";
         rd_path := None;
         rd_files := files_embedding (pl_mapFiles views_example) "world";
         rd_lastAccessed := Some example_now;
         rd_markers :=
           map to_IMarkerData
               (List.filter mk_mutable
                  (from_option lm_markers [] (pl_heap views_example !! mi_map w)));
         rd_overlays :=
           map to_saved_overlay
               (List.filter ov_mutable
                  (from_option lm_overlays [] (pl_heap views_example !! mi_map w))) |} in
    let saved := ad_mapMarkers (pl_AppData (saveSettings views_example example_now)) in
    List.filter (has_id "world") saved = (if has_data pushed then [pushed] else []) /\
    exists before after,
      saved = before ++ (if has_data pushed then [pushed] else []) ++ after /\
      (forall r, In r (before ++ after) -> rd_id r <> Some "world") /\
      (forall r, In r after ->
                 exists v, In v (pl_maps views_example) /\
                           r = fresh_record views_example example_now v).
Proof.
  split; [simpl; auto|].
  apply (save_replaces_record_by_id views_example example_now (view_of 1 10 "world")).
  simpl; auto.
Defined.

(** Two views show the map "world": after the save its one record is the
    one of the second view, with both of that view's markers, and the
    record the store held before is gone. *)
Example last_view_wins :
  let saved := ad_mapMarkers (pl_AppData (saveSettings views_example example_now)) in
  map (fun r => (rd_id r, map md_id (rd_markers r), rd_lastAccessed r)) saved
    = [ (Some "world", ["m1"; "m2"], Some example_now);
        (Some "moon", ["m1"], Some example_now) ] /\
  ~ In (record_of (Some "world") ["Atlas.md"] day) saved.
Proof.
  split; [vm_compute; reflexivity|].
  intros [Hr|[Hr|[]]]; discriminate.
Qed.

Lemma gc_boundary_witness :
  let saved := ad_mapMarkers (pl_AppData (saveSettings gc_example example_now)) in
  ~ In (record_of (Some "stale") [] (8 * day)) saved /\
  In (record_of (Some "recent") [] (6 * day)) saved /\
  In (record_of (Some "attached") ["Atlas.md"] (30 * day)) saved.
Proof.
  assert (Hinactive : forall r m, In m (pl_maps gc_example) ->
                                  id_differs (rd_id r) (mi_id m) = true)
    by (intros r m []).
  split; [|split].
  - apply (proj1 (gc_boundary gc_example example_now
                    (record_of (Some "stale") [] (8 * day))
                    ltac:(simpl; auto) eq_refl)
             (example_now - 8 * day)%Z eq_refl eq_refl).
    reflexivity.
  - apply (proj1 (proj2 (proj2 (gc_boundary gc_example example_now
                                  (record_of (Some "recent") [] (6 * day))
                                  ltac:(simpl; auto) eq_refl))
                    (Hinactive _) eq_refl)
             (example_now - 6 * day)%Z eq_refl eq_refl).
    discriminate.
  - apply (proj2 (proj2 (proj2 (gc_boundary gc_example example_now
                                  (record_of (Some "attached") ["Atlas.md"] (30 * day))
                                  ltac:(simpl; auto) eq_refl))
                    (Hinactive _) eq_refl)).
    discriminate.
Defined.

(** Two durable records that have an id and files, and are dropped all
    the same: one holds no marker and no overlay; the other is the record
    of a map that is displayed and holds no marker any more. *)
Lemma attached_records_dropped :
  (In dataless_record (ad_mapMarkers (pl_AppData dataless_example)) /\
   falsy_id (rd_id dataless_record) = false /\
   rd_files dataless_record <> [] /\
   ~ In dataless_record
        (ad_mapMarkers (pl_AppData (saveSettings dataless_example example_now)))) /\
  (In (record_of (Some "world") ["Atlas.md"] day)
      (ad_mapMarkers (pl_AppData emptied_example)) /\
   ~ In (record_of (Some "world") ["Atlas.md"] day)
        (ad_mapMarkers (pl_AppData (saveSettings emptied_example example_now)))).
Proof.
  split.
  - split; [simpl; auto|]. split; [reflexivity|]. split; [discriminate|].
    intros [].
  - split; [simpl; auto|]. intros [].
Qed.

Lemma gc_keeps_record_without_id_witness :
  In (record_of None [] (30 * day)) (before_gc gc_example example_now) /\
  falsy_id (rd_id (record_of None [] (30 * day))) = true /\
  In (record_of None [] (30 * day))
     (ad_mapMarkers (pl_AppData (saveSettings gc_example example_now))).
Proof.
  assert (Hin : In (record_of None [] (30 * day)) (before_gc gc_example example_now))
    by (simpl; auto).
  split; [exact Hin|]. split; [reflexivity|].
  exact (gc_keeps_record_without_id gc_example example_now _ Hin eq_refl).
Defined.

(** ** Sorting *)

Section Sorting.
Context {A : Type} (key : A -> Q).

Lemma insert_by_perm (cmp : A -> A -> Q) (x : A) (l : list A) :
  Permutation (x :: l) (insert_by cmp x l).
Proof.
  induction l as [|y l IH]; simpl; [reflexivity|].
  destruct (Qle_bool (cmp x y) 0); [reflexivity|].
  rewrite perm_swap. now apply perm_skip.
Qed.

Lemma Array_sort_perm (cmp : A -> A -> Q) (l : list A) :
  Permutation l (Array_sort cmp l).
Proof.
  induction l as [|x l IH]; simpl; [reflexivity|].
  rewrite <- insert_by_perm. now apply perm_skip.
Qed.

Lemma insert_by_sorted (x : A) (l : list A) :
  StronglySorted (descending key) l ->
  StronglySorted (descending key) (insert_by (by_key_descending key) x l).
Proof.
  induction l as [|y l IH]; simpl; intros Hs.
  - constructor; constructor.
  - apply StronglySorted_inv in Hs as [Hs Hy].
    destruct (Qle_bool (by_key_descending key x y) 0) eqn:Hc.
    + apply Qle_bool_iff in Hc. unfold by_key_descending in Hc.
      assert (Hxy : descending key x y) by (unfold descending; lra).
      constructor; [constructor; assumption|].
      constructor; [exact Hxy|].
      eapply List.Forall_impl; [|exact Hy].
      intros z Hz. unfold descending in *. lra.
    + assert (Hyx : descending key y x).
      { unfold descending. destruct (Qlt_le_dec (key x) (key y)) as [Hlt|Hle].
        - now apply Qlt_le_weak.
        - exfalso. assert (Hc' : Qle_bool (by_key_descending key x y) 0 = true).
          { apply Qle_bool_iff. unfold by_key_descending. lra. }
          congruence. }
      constructor; [now apply IH|].
      eapply Permutation_Forall; [apply insert_by_perm|].
      constructor; assumption.
Qed.

Lemma Array_sort_sorted (l : list A) :
  StronglySorted (descending key) (Array_sort (by_key_descending key) l).
Proof.
  induction l as [|x l IH]; simpl; [constructor|]. now apply insert_by_sorted.
Qed.

(** Filtering commutes with the insertion of an element it rejects. *)
Lemma filter_insert_by_out (cmp : A -> A -> Q) (p : A -> bool) (x : A) (l : list A) :
  p x = false -> List.filter p (insert_by cmp x l) = List.filter p l.
Proof.
  intros Hx. induction l as [|y l IH]; simpl; [now rewrite Hx|].
  destruct (Qle_bool (cmp x y) 0); simpl; [now rewrite Hx|].
  now rewrite IH.
Qed.

(** An element the filter accepts is inserted among those it accepts. *)
Lemma filter_insert_by_in (cmp : A -> A -> Q) (p : A -> bool) (x : A) (l : list A) :
  p x = true -> Permutation (List.filter p (insert_by cmp x l)) (x :: List.filter p l).
Proof.
  intros Hx. induction l as [|y l IH]; simpl; [now rewrite Hx|].
  destruct (Qle_bool (cmp x y) 0); simpl; [now rewrite Hx|].
  destruct (p y); [|exact IH].
  rewrite IH. apply perm_swap.
Qed.

End Sorting.

(** ** Overlay geometry *)

Lemma bind_ok {A B : Type} (c : M A) (k : A -> M B) (st st1 : Plugin) (a : A) :
  c st = (Ok a, st1) -> bind c k st = k a st1.
Proof. intros Hc. unfold bind. now rewrite Hc. Qed.

Lemma bind_throw {A B : Type} (c : M A) (k : A -> M B) (st st1 : Plugin) (msg : string) :
  c st = (Throw msg, st1) -> bind c k st = (Throw msg, st1).
Proof. intros Hc. unfold bind. now rewrite Hc. Qed.

Section OverlayFacts.
Context `{Host}.

Lemma convert_radius_known (t : OverlayTuple) (st : Plugin) :
  unit_known t = true -> convert_radius t st = (Ok (radius_m t), st).
Proof.
  unfold unit_known, convert_radius. now destruct (convert_error (ot_unit t)).
Qed.

Lemma convert_radius_unknown (t : OverlayTuple) (st : Plugin) :
  unit_known t = false ->
  exists message,
    convert_error (ot_unit t) = Some message /\ convert_radius t st = (Throw message, st).
Proof.
  unfold unit_known, convert_radius.
  destruct (convert_error (ot_unit t)) as [message|]; [|discriminate].
  intros _. now exists message.
Qed.

(** On units [convert] knows the comparator returns [radiusB - radiusA]. *)
Lemma compare_overlays_known (a b : OverlayTuple) (st : Plugin) :
  unit_known a = true -> unit_known b = true ->
  compare_overlays a b st = (Ok (by_key_descending radius_m a b), st).
Proof.
  intros Ha Hb. unfold compare_overlays.
  rewrite (bind_ok _ _ _ _ _ (convert_radius_known a st Ha)).
  now rewrite (bind_ok _ _ _ _ _ (convert_radius_known b st Hb)).
Qed.

(** On a unit [convert] does not know the comparator throws the error of
    [convert]. *)
Lemma compare_overlays_unknown (a b : OverlayTuple) (st : Plugin) :
  unit_known a && unit_known b = false ->
  exists t message,
    (t = a \/ t = b) /\ convert_error (ot_unit t) = Some message /\
    compare_overlays a b st = (Throw message, st).
Proof.
  intros Hab. unfold compare_overlays.
  destruct (unit_known a) eqn:Ha.
  - simpl in Hab. destruct (convert_radius_unknown b st Hab) as (message & Hm & Hrun).
    exists b, message. split; [now right|]. split; [exact Hm|].
    rewrite (bind_ok _ _ _ _ _ (convert_radius_known a st Ha)).
    now rewrite (bind_throw _ _ _ _ _ Hrun).
  - destruct (convert_radius_unknown a st Ha) as (message & Hm & Hrun).
    exists a, message. split; [now left|]. split; [exact Hm|].
    now rewrite (bind_throw _ _ _ _ _ Hrun).
Qed.

Lemma insert_with_known (x : OverlayTuple) (l : list OverlayTuple) (st : Plugin) :
  unit_known x = true -> forallb unit_known l = true ->
  insert_with compare_overlays x l st
  = (Ok (insert_by (by_key_descending radius_m) x l), st).
Proof.
  intros Hx. induction l as [|y l IH]; simpl; intros Hl; [reflexivity|].
  apply andb_prop in Hl as [Hy Hl].
  rewrite (bind_ok _ _ _ _ _ (compare_overlays_known x y st Hx Hy)).
  destruct (Qle_bool (by_key_descending radius_m x y) 0); [reflexivity|].
  now rewrite (bind_ok _ _ _ _ _ (IH Hl)).
Qed.

(** On units [convert] knows the sort returns the array in the sorted
    order. *)
Lemma sort_overlays_known (l : list OverlayTuple) (st : Plugin) :
  forallb unit_known l = true ->
  sort_overlays l st = (Ok (Array_sort (by_key_descending radius_m) l), st).
Proof.
  unfold sort_overlays. induction l as [|x l IH]; simpl; intros Hl; [reflexivity|].
  apply andb_prop in Hl as [Hx Hl].
  rewrite (bind_ok _ _ _ _ _ (IH Hl)).
  apply insert_with_known; [exact Hx|].
  apply forallb_forall. intros t Ht.
  apply (Permutation_in _ (Permutation_sym (Array_sort_perm _ l))) in Ht.
  now apply (proj1 (forallb_forall _ _) Hl).
Qed.

(** An array of fewer than two tuples is returned as it is. *)
Lemma sort_overlays_short (l : list OverlayTuple) (st : Plugin) :
  (length l <= 1)%nat -> sort_overlays l st = (Ok l, st).
Proof.
  destruct l as [|x [|y l]]; simpl; intros Hlen; [reflexivity|reflexivity|lia].
Qed.

(** The comparator and the sort read no state and write none. *)
Lemma insert_with_runs (x : OverlayTuple) (l : list OverlayTuple) (st : Plugin) :
  (exists l', Permutation (x :: l) l' /\
              insert_with compare_overlays x l st = (Ok l', st)) \/
  (exists t message, In t (x :: l) /\ convert_error (ot_unit t) = Some message /\
                     insert_with compare_overlays x l st = (Throw message, st)).
Proof.
  induction l as [|y l IH]; simpl insert_with.
  - left. exists [x]. now split.
  - destruct (unit_known x && unit_known y) eqn:Hxy.
    + apply andb_prop in Hxy as [Hx Hy].
      rewrite (bind_ok _ _ _ _ _ (compare_overlays_known x y st Hx Hy)).
      destruct (Qle_bool (by_key_descending radius_m x y) 0).
      * left. exists (x :: y :: l). now split.
      * destruct IH as [(l' & Hperm & Hrun)|(t & message & Hin & Hm & Hrun)].
        -- left. exists (y :: l'). split.
           ++ rewrite perm_swap. now apply perm_skip.
           ++ now rewrite (bind_ok _ _ _ _ _ Hrun).
        -- right. exists t, message. split; [|split; [exact Hm|]].
           ++ destruct Hin as [<-|Hin]; [now left|now right; right].
           ++ now rewrite (bind_throw _ _ _ _ _ Hrun).
    + destruct (compare_overlays_unknown x y st Hxy) as (t & message & Ht & Hm & Hrun).
      right. exists t, message. split; [|split; [exact Hm|]].
      * destruct Ht as [->| ->]; [now left|now right; left].
      * now rewrite (bind_throw _ _ _ _ _ Hrun).
Qed.

Lemma sort_overlays_runs (l : list OverlayTuple) (st : Plugin) :
  (exists sorted, Permutation l sorted /\ sort_overlays l st = (Ok sorted, st)) \/
  (exists t message, In t l /\ convert_error (ot_unit t) = Some message /\
                     sort_overlays l st = (Throw message, st)).
Proof.
  unfold sort_overlays. induction l as [|x l IH]; simpl sort_with.
  - left. exists []. now split.
  - destruct IH as [(sorted & Hperm & Hrun)|(t & message & Hin & Hm & Hrun)].
    + rewrite (bind_ok _ _ _ _ _ Hrun).
      destruct (insert_with_runs x sorted st)
        as [(l' & Hperm' & Hrun')|(t & message & Hin & Hm & Hrun')].
      * left. exists l'. split; [|exact Hrun'].
        now rewrite <- Hperm', <- Hperm.
      * right. exists t, message. split; [|split; [exact Hm|exact Hrun']].
        apply (Permutation_in t (perm_skip x (Permutation_sym Hperm))). exact Hin.
    + right. exists t, message. split; [now right|]. split; [exact Hm|].
      now rewrite (bind_throw _ _ _ _ _ Hrun).
Qed.

Lemma sort_overlays_pure (l : list OverlayTuple) (st : Plugin) :
  snd (sort_overlays l st) = st.
Proof.
  destruct (sort_overlays_runs l st) as [(sorted & _ & Hrun)|(t & message & _ & _ & Hrun)];
    now rewrite Hrun.
Qed.

(** With two tuples or more, a unit [convert] does not know ends the sort:
    each tuple is compared at least once, and the comparator converts both
    radii. *)
Lemma sort_overlays_unknown (l : list OverlayTuple) (st : Plugin) :
  (2 <= length l)%nat -> forallb unit_known l = false ->
  exists t message,
    In t l /\ convert_error (ot_unit t) = Some message /\
    sort_overlays l st = (Throw message, st).
Proof.
  intros Hlen Hunknown.
  destruct (sort_overlays_runs l st) as [(sorted & Hperm & Hrun)|Hthrows];
    [exfalso|exact Hthrows].
  revert sorted Hperm Hrun. induction l as [|x l IH]; [simpl in Hlen; lia|].
  intros sorted Hperm. unfold sort_overlays. simpl sort_with.
  destruct (sort_overlays_runs l st) as [(s & Hs & Hsorted)|(t & message & _ & _ & Hthrow)].
  - unfold sort_overlays in Hsorted. rewrite (bind_ok _ _ _ _ _ Hsorted).
    destruct s as [|y s].
    { apply Permutation_sym, Permutation_nil in Hs. subst l. simpl in Hlen. lia. }
    simpl insert_with.
    destruct (unit_known x && unit_known y) eqn:Hxy.
    + apply andb_prop in Hxy as [Hx Hy].
      simpl in Hunknown. rewrite Hx in Hunknown. simpl in Hunknown.
      destruct l as [|z [|z' l]].
      * simpl in Hlen. lia.
      * apply Permutation_length_1_inv in Hs. injection Hs as <- _.
        simpl in Hunknown. rewrite Hy in Hunknown. discriminate.
      * exfalso. apply (IH ltac:(simpl; lia) Hunknown (y :: s) Hs). exact Hsorted.
    + destruct (compare_overlays_unknown x y st Hxy) as (t & message & _ & _ & Hthrow).
      rewrite (bind_throw _ _ _ _ _ Hthrow). discriminate.
  - unfold sort_overlays in Hthrow. rewrite (bind_throw _ _ _ _ _ Hthrow). discriminate.
Qed.

End OverlayFacts.

(** The radii 5 m, 50 m and 1 m are sorted as 50 m, 5 m, 1 m. *)
Example overlays_5_50_1 :
  fst (sort_overlays [tuple_of 5 "m"; tuple_of 50 "m"; tuple_of 1 "m"] empty_plugin)
  = Ok [tuple_of 50 "m"; tuple_of 5 "m"; tuple_of 1 "m"].
Proof. reflexivity. Qed.

(** Units are converted before the comparison: 1 km stands before 50 m. *)
Example overlays_mixed_units :
  fst (sort_overlays [tuple_of 5 "m"; tuple_of 1 "km"; tuple_of 50 "m"] empty_plugin)
  = Ok [tuple_of 1 "km"; tuple_of 50 "m"; tuple_of 5 "m"].
Proof. reflexivity. Qed.

(** A unit [convert] does not know ends the sort of two tuples. *)
Example overlays_unknown_unit :
  fst (sort_overlays [tuple_of 5 "xyz"; tuple_of 3 "m"] empty_plugin)
  = Throw "xyz is not a valid unit".
Proof. reflexivity. Qed.

(** ** The effects of the post-processor *)

Lemma set_heap_same (st : Plugin) : set_heap (pl_heap st) st = st.
Proof. now destruct st. Qed.

Lemma touches_only_refl (r : ref) (st : Plugin) : touches_only r st st.
Proof. unfold touches_only. tauto. Qed.

Lemma touches_only_trans (r : ref) (st1 st2 st3 : Plugin) :
  touches_only r st1 st2 -> touches_only r st2 st3 -> touches_only r st1 st3.
Proof.
  unfold touches_only.
  intros (A1 & B1 & C1 & D1 & E1 & F1) (A2 & B2 & C2 & D2 & E2 & F2).
  repeat split; try congruence.
  intros r0 Hr0. rewrite F2, F1; auto.
Qed.

Section PostprocessorFacts.
Context `{Host}.

Lemma draw_id_touches (r : ref) (st : Plugin) :
  exists id st1, draw_id st = (Ok id, st1) /\ touches_only r st st1.
Proof.
  eexists _, _. split; [reflexivity|]. unfold touches_only. simpl. tauto.
Qed.

Lemma call_touches (r : ref) (f : LeafletMap -> LeafletMap) (st : Plugin) :
  touches_only r st (set_heap (alter f r (pl_heap st)) st).
Proof.
  unfold touches_only. simpl. repeat split; try reflexivity.
  intros r0 Hr0. now apply lookup_alter_ne.
Qed.

(** The loop over [immutableMarkers] returns and touches its map only. *)
Lemma create_immutable_touches (layers : list string) (r : ref)
    (l : list ImmutableMarker) (st : Plugin) :
  exists st1,
    forM (create_immutable layers r) l st = (Ok tt, st1) /\ touches_only r st st1.
Proof.
  revert st. induction l as [|t l IH]; intros st; simpl.
  - exists st. split; [reflexivity | apply touches_only_refl].
  - unfold create_immutable at 1.
    destruct (im_id t) as [i|].
    + unfold bind at 1 2, ret at 1, call at 1.
      edestruct IH as (st1 & Hrun & Hframe). exists st1. split; [exact Hrun|].
      eapply touches_only_trans; [apply call_touches | exact Hframe].
    + unfold bind at 1 2, draw_id at 1, call at 1.
      edestruct IH as (st1 & Hrun & Hframe). exists st1. split; [exact Hrun|].
      eapply touches_only_trans; [|exact Hframe].
      unfold touches_only. simpl. repeat split; try reflexivity.
      intros r0 Hr0. now apply lookup_alter_ne.
Qed.

(** The callback of [overlayArray]'s construction throws on a malformed
    radius and returns on any other; either way it only draws an id. *)
Lemma overlay_tuple_runs (r : ref) (o : RawOverlay) (st : Plugin) :
  exists st1, touches_only r st st1 /\
    if malformed_radius o
    then overlay_tuple o st = (Throw overlay_radius_error, st1)
    else exists t, overlay_tuple o st = (Ok t, st1).
Proof.
  unfold overlay_tuple, malformed_radius.
  destruct (raw_id o) as [i|].
  - exists st. split; [apply touches_only_refl|].
    unfold bind, ret.
    destruct (OVERLAY_TAG_REGEX (raw_length o)) as [[g1 g2]|]; [|reflexivity].
    destruct (Number_of_group g1); simpl; [reflexivity | eauto].
  - destruct (draw_id_touches r st) as (id & st1 & Hd & Hframe).
    exists st1. split; [exact Hframe|].
    unfold bind. rewrite Hd.
    destruct (OVERLAY_TAG_REGEX (raw_length o)) as [[g1 g2]|]; [|reflexivity].
    destruct (Number_of_group g1); simpl; [reflexivity | unfold ret; eauto].
Qed.

Lemma overlayArray_throws (r : ref) (raws : list RawOverlay) (st : Plugin) :
  existsb malformed_radius raws = true ->
  exists st1,
    mapM overlay_tuple raws st = (Throw overlay_radius_error, st1) /\
    touches_only r st st1.
Proof.
  revert st. induction raws as [|o raws IH]; intros st; simpl; [discriminate|].
  intros Hbad. destruct (overlay_tuple_runs r o st) as (st1 & Hframe & Hrun).
  destruct (malformed_radius o); simpl in Hbad.
  - exists st1. split; [|exact Hframe]. now apply bind_throw.
  - destruct Hrun as [t Hrun]. destruct (IH st1 Hbad) as (st2 & Hrest & Hframe2).
    exists st2. split; [|eapply touches_only_trans; eassumption].
    rewrite (bind_ok _ _ _ _ _ Hrun). now apply bind_throw.
Qed.

(** A loop of method calls on one object is one call of their sequence. *)
Lemma forM_call (r : ref) {A : Type} (f : LeafletMap -> A -> LeafletMap)
    (l : list A) (st : Plugin) :
  forM (fun t => call r (fun m => f m t)) l st =
  (Ok tt, set_heap (alter (fun m => fold_left f l m) r (pl_heap st)) st).
Proof.
  revert st. induction l as [|x l IH]; intros st; simpl.
  - unfold ret. f_equal. rewrite alter_id; [|reflexivity]. symmetry. apply set_heap_same.
  - unfold bind, call at 1. rewrite IH. simpl. f_equal. unfold set_heap. simpl.
    f_equal. apply alter_alter_eq.
Qed.

(** C3. Whatever the order of the declarations, an [overlayArray] that
    was built is sorted by radius in metres, largest first, before its
    elements are inserted. When [convert] knows the units (or the array has
    fewer than two elements, which [sort] returns as they are), what
    [map.addOverlay] is called on, in order and whatever the method does
    with an overlay, is a rearrangement of the array in which each overlay
    stands before those of no larger radius. With two overlays or more of
    which one has a unit [convert] does not know, the comparator throws
    [convert]'s error and no overlay is inserted. *)
Theorem overlays_inserted_largest_first (layers : list string) (r : ref)
    (raws : list RawOverlay) (st st1 : Plugin) (overlayArray : list OverlayTuple) :
  mapM overlay_tuple raws st = (Ok overlayArray, st1) ->
  ((length overlayArray <= 1)%nat \/ forallb unit_known overlayArray = true ->
   exists sorted,
     Permutation overlayArray sorted /\
     StronglySorted (descending radius_m) sorted /\
     forall add,
       insert_overlays_with add layers r raws st =
         (Ok tt,
          set_heap
            (alter (fun m => fold_left (fun m t => add m (tuple_data layers t) false) sorted m)
                   r (pl_heap st1)) st1)) /\
  ((2 <= length overlayArray)%nat -> forallb unit_known overlayArray = false ->
   exists t message,
     In t overlayArray /\ convert_error (ot_unit t) = Some message /\
     forall add, insert_overlays_with add layers r raws st = (Throw message, st1)).
Proof.
  intros Hbuilt. split.
  - intros [Hshort|Hknown].
    + exists overlayArray. split; [reflexivity|]. split.
      * destruct overlayArray as [|x [|y l]]; simpl in Hshort; try lia;
          repeat constructor.
      * intros add. unfold insert_overlays_with.
        rewrite (bind_ok _ _ _ _ _ Hbuilt).
        rewrite (bind_ok _ _ _ _ _ (sort_overlays_short overlayArray st1 Hshort)).
        apply (forM_call r (fun m t => add m (tuple_data layers t) false)).
    + exists (Array_sort (by_key_descending radius_m) overlayArray).
      split; [apply Array_sort_perm|]. split; [apply (Array_sort_sorted radius_m)|].
      intros add. unfold insert_overlays_with.
      rewrite (bind_ok _ _ _ _ _ Hbuilt).
      rewrite (bind_ok _ _ _ _ _ (sort_overlays_known overlayArray st1 Hknown)).
      apply (forM_call r (fun m t => add m (tuple_data layers t) false)).
  - intros Hlen Hunknown.
    destruct (sort_overlays_unknown overlayArray st1 Hlen Hunknown)
      as (t & message & Hin & Hm & Hthrow).
    exists t, message. split; [exact Hin|]. split; [exact Hm|].
    intros add. unfold insert_overlays_with.
    rewrite (bind_ok _ _ _ _ _ Hbuilt).
    now rewrite (bind_throw _ _ _ _ _ Hthrow).
Qed.

(** C7. A block without an id is not rendered: the user is notified, no
    map is constructed and no view registered, and the block's region
    shows the error message "ID required". *)
Theorem missing_id_is_fatal (now : Z) (source : string) (el : Element)
    (sourcePath : string) (params : Params) (items : ImmutableItems) (st : Plugin) :
  falsy_id (p_id params) = true ->
  let st' := postprocessor now source el sourcePath params items st in
  pl_errors st' !! el = Some "ID required" /\
  pl_notices st' =
    pl_notices st ++
      [ "As of version 3.0.0, Obsidian Leaflet maps must have an ID.";
        "All marker data associated with this map will sync to the new ID.";
        loading_notice ] /\
  pl_maps st' = pl_maps st /\
  pl_heap st' = pl_heap st /\
  pl_mapFiles st' = pl_mapFiles st /\
  pl_AppData st' = pl_AppData st /\
  pl_saved st' = pl_saved st.
Proof.
  intros Hid. unfold postprocessor, postprocessor_try. rewrite Hid. simpl.
  split; [apply lookup_insert_eq|].
  split; [now rewrite <- !app_assoc|]. tauto.
Qed.

(** A malformed radius ends the post-processor in its [catch], after it
    touched nothing but a map object it created. *)
Lemma malformed_radius_caught (now : Z) (source : string) (el : Element)
    (sourcePath : string) (params : Params) (items : ImmutableItems) (st : Plugin) :
  falsy_id (p_id params) = false ->
  existsb malformed_radius (p_overlay params ++ ii_overlays items) = true ->
  exists r st3,
    pl_heap st !! r = None /\
    touches_only r st st3 /\
    postprocessor now source el sourcePath params items st =
      renderError el overlay_radius_error (add_notices [loading_notice] st3).
Proof.
  intros Hid Hbad. unfold postprocessor, postprocessor_try. rewrite Hid.
  set (image := match p_image params with Some i => i | None => "real" end).
  set (id := match p_id params with Some i => i | None => EmptyString end).
  unfold bind at 1. unfold bind at 1. unfold alloc at 1.
  set (st0 := set_AppData _ st).
  set (r := fresh (dom (pl_heap st0))).
  set (st1 := set_heap _ st0).
  assert (Hfresh : pl_heap st !! r = None).
  { apply not_elem_of_dom. apply is_fresh. }
  assert (H01 : touches_only r st st1).
  { unfold touches_only. simpl. repeat split; try reflexivity.
    intros r0 Hr0. now apply lookup_insert_ne. }
  destruct (create_immutable_touches (p_layers params) r (ii_markers items) st1)
    as (st2 & Hmarkers & H12).
  destruct (overlayArray_throws r _ st2 Hbad) as (st3 & Hthrow & H23).
  assert (Hpop : populate image id r params items st1 = (Throw overlay_radius_error, st3)).
  { unfold populate. rewrite (bind_ok _ _ _ _ _ Hmarkers).
    unfold insert_overlays, insert_overlays_with.
    now rewrite (bind_throw _ _ _ _ _ (bind_throw _ _ _ _ _ Hthrow)). }
  rewrite (bind_throw _ _ _ _ _ Hpop).
  exists r, st3. split; [exact Hfresh|]. split; [|reflexivity].
  exact (touches_only_trans _ _ _ _ H01 (touches_only_trans _ _ _ _ H12 H23)).
Qed.

(** C1 as the code has it. A block whose overlay list holds an overlay
    with a radius specification that does not match, or whose numeric part
    is not a number, is not rendered: the error "Could not parse overlay
    radius..." aborts the render of the whole map. The block's region shows
    that message, the user is notified, no view is registered and nothing
    is saved; the maps of the other views are as they were. *)
Theorem malformed_radius_aborts_render (now : Z) (source : string) (el : Element)
    (sourcePath : string) (params : Params) (items : ImmutableItems) (st : Plugin) :
  falsy_id (p_id params) = false ->
  existsb malformed_radius (p_overlay params ++ ii_overlays items) = true ->
  let st' := postprocessor now source el sourcePath params items st in
  pl_errors st' !! el = Some overlay_radius_error /\
  pl_notices st' = pl_notices st ++ [loading_notice] /\
  pl_maps st' = pl_maps st /\
  pl_mapFiles st' = pl_mapFiles st /\
  pl_saved st' = pl_saved st /\
  forall r0 m, pl_heap st !! r0 = Some m -> pl_heap st' !! r0 = Some m.
Proof.
  intros Hid Hbad.
  destruct (malformed_radius_caught now source el sourcePath params items st Hid Hbad)
    as (r & st3 & Hfresh & (Hmaps & Hfiles & Hnotes & Herrs & Hsaved & Hheap) & Hrun).
  rewrite Hrun. simpl. split; [apply lookup_insert_eq|].
  split; [now rewrite Hnotes|].
  repeat split; try assumption.
  intros r0 m Hm. rewrite Hheap; [exact Hm|]. congruence.
Qed.

End PostprocessorFacts.

Lemma overlays_inserted_largest_first_witness :
  exists overlayArray st1,
    mapM overlay_tuple three_overlays views_example = (Ok overlayArray, st1) /\
    forallb unit_known overlayArray = true /\
    exists sorted,
      Permutation overlayArray sorted /\
      StronglySorted (descending radius_m) sorted /\
      forall add,
        insert_overlays_with add [] 1 three_overlays views_example =
          (Ok tt,
           set_heap
             (alter (fun m => fold_left (fun m t => add m (tuple_data [] t) false) sorted m)
                    1 (pl_heap st1)) st1).
Proof.
  eexists _, _. split; [vm_compute; reflexivity|]. split; [reflexivity|].
  refine (proj1 (overlays_inserted_largest_first [] 1 three_overlays views_example _ _ _)
                (or_intror _)).
  - vm_compute; reflexivity.
  - reflexivity.
Defined.

(** The overlays declared as 5 m, 50 m and 1 m reach [map.addOverlay] as
    50 m, 5 m, 1 m. *)
Example overlays_5_50_1_inserted :
  let st' := snd (insert_overlays_with addOverlay_last [] 1 three_overlays views_example) in
  option_map (fun m => map (fun o => od_radius (ov_data o)) (lm_overlays m))
             (pl_heap st' !! 1)
  = Some [50%Q; 5%Q; 1%Q].
Proof. vm_compute. reflexivity. Qed.

Lemma missing_id_is_fatal_witness :
  falsy_id (p_id block_without_id) = true /\
  let st' := postprocessor example_now block_source 10 "Atlas.md" block_without_id no_items views_example in
  pl_errors st' !! 10 = Some "ID required" /\
  pl_notices st' =
    pl_notices views_example ++
      [ "As of version 3.0.0, Obsidian Leaflet maps must have an ID.";
        "All marker data associated with this map will sync to the new ID.";
        loading_notice ] /\
  pl_maps st' = pl_maps views_example /\
  pl_heap st' = pl_heap views_example /\
  pl_mapFiles st' = pl_mapFiles views_example /\
  pl_AppData st' = pl_AppData views_example /\
  pl_saved st' = pl_saved views_example.
Proof.
  split; [reflexivity|].
  apply (missing_id_is_fatal example_now block_source 10 "Atlas.md" block_without_id no_items
           views_example).
  reflexivity.
Defined.

(** The block of three overlays of which one is malformed: nothing of it is
    rendered, its region shows the error. *)
Lemma malformed_radius_not_skipped :
  malformed_radius (raw "abc") = true /\
  malformed_radius (raw "5 m") = false /\
  malformed_radius (raw "50 m") = false /\
  let st' := postprocessor example_now block_source 10 "Atlas.md" malformed_block no_items empty_plugin in
  ~ renders_overlays st' 10 2 /\
  pl_maps st' = [] /\
  pl_errors st' !! 10 = Some overlay_radius_error.
Proof.
  split; [reflexivity|]. split; [reflexivity|]. split; [reflexivity|].
  assert (Hmaps : pl_maps (postprocessor example_now block_source 10 "Atlas.md" malformed_block
                             no_items empty_plugin) = [])
    by (vm_compute; reflexivity).
  split; [|split].
  - intros (v & m & Hin & _). rewrite Hmaps in Hin. destruct Hin.
  - exact Hmaps.
  - vm_compute. reflexivity.
Qed.

(** The same block without the malformed overlay renders its two overlays. *)
Example well_formed_block_renders :
  renders_overlays
    (postprocessor example_now block_source 10 "Atlas.md" well_formed_block no_items empty_plugin)
    10 2.
Proof.
  eexists _, _. split; [left; reflexivity|]. split; [reflexivity|].
  split; vm_compute; reflexivity.
Qed.

Lemma malformed_radius_aborts_render_witness :
  falsy_id (p_id malformed_block) = false /\
  existsb malformed_radius (p_overlay malformed_block ++ ii_overlays no_items) = true /\
  let st' := postprocessor example_now block_source 10 "Atlas.md" malformed_block no_items views_example in
  pl_errors st' !! 10 = Some overlay_radius_error /\
  pl_notices st' = pl_notices views_example ++ [loading_notice] /\
  pl_maps st' = pl_maps views_example /\
  pl_mapFiles st' = pl_mapFiles views_example /\
  pl_saved st' = pl_saved views_example /\
  forall r0 m, pl_heap views_example !! r0 = Some m -> pl_heap st' !! r0 = Some m.
Proof.
  split; [reflexivity|]. split; [reflexivity|].
  apply (malformed_radius_aborts_render example_now block_source 10 "Atlas.md" malformed_block
           no_items views_example); reflexivity.
Defined.

(** ** Coordinates *)

Section CoordinateFacts.
Context `{Host}.

(** Reading the note of a link leaves the state as it is. *)
Lemma read_note_location_pure (zoomTag : option string) (m : LeafletMap) (file : TFile)
    (latitude longitude : jsval) (st st1 : Plugin) (o : outcome (jsval * jsval * option number)) :
  read_note_location zoomTag m file latitude longitude st = (o, st1) -> st1 = st.
Proof.
  unfold read_note_location, ret, throw. intros Hrun.
  repeat match type of Hrun with
         | (match ?x with _ => _ end) _ = _ => destruct x
         | (if ?x then _ else _) _ = _ => destruct x
         | (let (_, _) := ?x in _) _ = _ => destruct x
         end; congruence.
Qed.

Lemma resolve_coordinates_pure (lat long : jsval) (coordinates : option (list jsval))
    (zoomTag : option string) (m : LeafletMap) (st st1 : Plugin)
    (o : outcome (jsval * jsval * option number)) :
  resolve_coordinates lat long coordinates zoomTag m st = (o, st1) -> st1 = st.
Proof.
  unfold resolve_coordinates, ret, throw. intros Hrun.
  destruct coordinates as [[|c cs]|]; try congruence.
  destruct (hd JUndefined (flat (c :: cs))); try congruence.
  destruct (getFirstLinkpathDest _).
  - now apply read_note_location_pure in Hrun.
  - destruct (_ =? _)%nat; congruence.
Qed.

(** C9. When the latitude or the longitude to be parsed is not a number,
    [_getCoordinates] still returns: the user is warned by a notice, and a
    component that did not parse is the default, 50 on an image map and
    the configured latitude or longitude of the settings on a real map. *)
Theorem unparsable_coordinate_falls_back (lat long : jsval)
    (coordinates : option (list jsval)) (zoomTag : option string) (m : LeafletMap)
    (st st1 : Plugin) (latitude longitude : jsval) (z : option number) :
  resolve_coordinates lat long coordinates zoomTag m st = (Ok (latitude, longitude, z), st1) ->
  isNaN (parse_coordinate latitude) = true \/ isNaN (parse_coordinate longitude) = true ->
  exists c0 c1 st',
    _getCoordinates lat long coordinates zoomTag m st = (Ok ((c0, c1), z), st') /\
    pl_notices st' = pl_notices st ++ [coordinates_notice] /\
    (isNaN (parse_coordinate latitude) = true -> c0 = default_latitude m st) /\
    (isNaN (parse_coordinate longitude) = true -> c1 = default_longitude m st).
Proof.
  intros Hres Hnan. pose proof (resolve_coordinates_pure _ _ _ _ _ _ _ _ Hres) as ->.
  unfold _getCoordinates. rewrite (bind_ok _ _ _ _ _ Hres).
  unfold coordinates_or_defaults, bind, Notice, ret, or_default.
  assert (Hor : isNaN (parse_coordinate latitude) || isNaN (parse_coordinate longitude) = true)
    by (destruct Hnan as [-> | ->]; [reflexivity | apply orb_true_r]).
  rewrite Hor. unfold default_latitude, default_longitude.
  destruct (lm_type m); eexists _, _, _; (split; [reflexivity|]);
    (split; [reflexivity|]); split; intros ->; simpl; now rewrite orb_true_r.
Qed.

End CoordinateFacts.

Lemma unparsable_coordinate_falls_back_witness :
  resolve_coordinates (JString "north") (JString "12") None None image_map views_example
    = (Ok (JString "north", JString "12", None), views_example) /\
  (isNaN (parse_coordinate (JString "north")) = true \/
   isNaN (parse_coordinate (JString "12")) = true) /\
  exists c0 c1 st',
    _getCoordinates (JString "north") (JString "12") None None image_map views_example
      = (Ok ((c0, c1), None), st') /\
    pl_notices st' = pl_notices views_example ++ [coordinates_notice] /\
    (isNaN (parse_coordinate (JString "north")) = true ->
     c0 = default_latitude image_map views_example) /\
    (isNaN (parse_coordinate (JString "12")) = true ->
     c1 = default_longitude image_map views_example).
Proof.
  split; [reflexivity|]. split; [left; reflexivity|].
  apply (unparsable_coordinate_falls_back (JString "north") (JString "12") None None
           image_map views_example views_example (JString "north") (JString "12") None).
  - reflexivity.
  - left. reflexivity.
Defined.

(** On an image map, coordinates that both fail to parse give the centre
    (50, 50) of the image plane. *)
Example image_map_centre :
  fst (_getCoordinates (JString "north") (JString "east") None None image_map views_example)
  = Ok ((Num 50, Num 50), None).
Proof. reflexivity. Qed.

(** On a real map they give the location configured in the settings. *)
Example real_map_default_location :
  fst (_getCoordinates (JString "north") (JString "east") None None
         (map_of "world" 11 [] []) views_example)
  = Ok ((Num 39, Num (-82)%Q), None).
Proof. reflexivity. Qed.

(** ** The external binding watcher *)

Section WatcherFacts.
Context `{Host}.

Lemma changed_location_keeps (fileId name : string) (fm : FrontMatter) (m : LeafletMap) :
  lm_overlays (fst (changed_location fileId name fm m)) = lm_overlays m /\
  lm_mapLayers (fst (changed_location fileId name fm m)) = lm_mapLayers m.
Proof.
  unfold changed_location.
  destruct (getMarkerById m fileId); [|simpl; tauto].
  destruct (fm_location fm) as [[| | |[|[| |a|] [|[| |b|] [|]]]]|]; try (simpl; tauto).
  destruct (isNaN a || isNaN b); [simpl; tauto|].
  destruct (LatLng_equals _ _); simpl; tauto.
Qed.

Lemma tagged_declared (fileId overlayColor layer : string) (e : OverlayEntry)
    (radius : Q) (unit : string) :
  tagged fileId (overlay_of (entry_data fileId overlayColor layer e radius unit) false) = true.
Proof. unfold tagged, id_differs. simpl. now rewrite String.eqb_refl. Qed.

(** On a map with a layer, the loop over the declarations does not throw,
    inserts the overlay of each declaration that passes the guard, and
    leaves the overlays of other ids in place. *)
Lemma insert_declared_inserts (fileId name overlayColor layer : string)
    (layers : list string) (entries : list OverlayEntry) (m : LeafletMap) :
  lm_mapLayers m = layer :: layers ->
  exists m' notes,
    insert_declared fileId name overlayColor entries m = (m', notes, false) /\
    Permutation (List.filter (tagged fileId) (lm_overlays m'))
                (declared_overlays fileId overlayColor layer entries
                   ++ List.filter (tagged fileId) (lm_overlays m)) /\
    List.filter (fun o => id_differs (ov_id o) fileId) (lm_overlays m') =
    List.filter (fun o => id_differs (ov_id o) fileId) (lm_overlays m).
Proof.
  revert m. induction entries as [|e entries IH]; intros m Hlayers; simpl.
  - exists m, []. repeat split; reflexivity.
  - destruct (entry_radius e) as [[radius unit]|].
    + rewrite Hlayers.
      set (o := overlay_of (entry_data fileId overlayColor layer e radius unit) false).
      destruct (IH (addOverlay m (entry_data fileId overlayColor layer e radius unit) false))
        as (m' & notes & Hrun & Hperm & Hrest); [exact Hlayers|].
      exists m', notes. split; [exact Hrun|]. split.
      * rewrite Hperm. simpl. fold o.
        rewrite (filter_insert_by_in _ _ o (lm_overlays m) (tagged_declared _ _ _ _ _ _)).
        symmetry. apply Permutation_middle.
      * rewrite Hrest. simpl. apply filter_insert_by_out.
        pose proof (tagged_declared fileId overlayColor layer e radius unit) as Ht.
        unfold tagged in Ht. now apply negb_true_iff in Ht.
    + destruct (IH m Hlayers) as (m' & notes & Hrun & Hperm & Hrest).
      rewrite Hrun. exists m', (bound_length_notice name :: notes).
      repeat split; assumption.
Qed.

Lemma declared_overlays_length (fileId overlayColor layer : string)
    (entries : list OverlayEntry) :
  length (declared_overlays fileId overlayColor layer entries) =
  length (List.filter well_formed_length entries).
Proof.
  unfold declared_overlays, well_formed_length.
  induction entries as [|e entries IH]; simpl; [reflexivity|].
  destruct (entry_radius e) as [[radius unit]|]; simpl; now rewrite IH.
Qed.

(** A notification for a document whose cache holds no front matter is
    ignored. *)
Lemma watcher_ignores_missing_front_matter (self : ref) (watchers : list (TFile * string))
    (overlayColor : string) (f : TFile) (st : Plugin) :
  getFileCache st f = Some {| cm_frontmatter := None |} \/ getFileCache st f = None ->
  watcher_changed self watchers overlayColor (File f) st = st.
Proof.
  intros Hcache. unfold watcher_changed.
  destruct (watched watchers f); [|reflexivity].
  destruct Hcache as [-> | ->]; reflexivity.
Qed.

(** On a map without a layer the loop inserts nothing: it skips the
    declarations that do not pass the guard and throws at the first that
    does. *)
Lemma insert_declared_without_layer (fileId name overlayColor : string)
    (entries : list OverlayEntry) (m : LeafletMap) :
  lm_mapLayers m = [] ->
  exists notes threw, insert_declared fileId name overlayColor entries m = (m, notes, threw).
Proof.
  intros Hlayers. induction entries as [|e entries IH]; simpl; [eauto|].
  destruct (entry_radius e) as [[radius unit]|].
  - rewrite Hlayers. eauto.
  - destruct IH as (notes & threw & ->). eauto.
Qed.

(** With front matter in the cache, the handler replaces the overlays of
    the binding id by those of the current declarations. *)
Lemma watcher_replaces_overlays (self : ref) (watchers : list (TFile * string))
    (overlayColor : string) (f : TFile) (fileId : string) (fm : FrontMatter)
    (m : LeafletMap) (st : Plugin) :
  watched watchers f = Some fileId ->
  getFileCache st f = Some {| cm_frontmatter := Some fm |} ->
  pl_heap st !! self = Some m ->
  let declared := match fm_mapoverlay fm with Some entries => entries | None => [] end in
  exists m',
    pl_heap (watcher_changed self watchers overlayColor (File f) st) !! self = Some m' /\
    Permutation (List.filter (tagged fileId) (lm_overlays m'))
                (declared_on fileId overlayColor (lm_mapLayers m) declared) /\
    (lm_mapLayers m <> [] ->
     length (List.filter (tagged fileId) (lm_overlays m')) =
       length (List.filter well_formed_length declared)) /\
    List.filter (fun o => id_differs (ov_id o) fileId) (lm_overlays m') =
    List.filter (fun o => id_differs (ov_id o) fileId) (lm_overlays m).
Proof.
  intros Hwatched Hcache Hself declared.
  unfold watcher_changed. rewrite Hwatched, Hcache, Hself.
  destruct (changed_location_keeps fileId (tf_name f) fm m) as [Hov Hml].
  destruct (changed_location fileId (tf_name f) fm m) as [m1 raised]. simpl in Hov, Hml.
  set (cleared := set_overlays
         (List.filter (fun o => id_differs (ov_id o) fileId) (lm_overlays m1)) m1).
  assert (Hnone : List.filter (tagged fileId) (lm_overlays cleared) = []).
  { simpl. apply filter_none. intros o Ho. apply filter_In in Ho as [_ Ho].
    unfold tagged. now rewrite Ho. }
  assert (Hkept : List.filter (fun o => id_differs (ov_id o) fileId) (lm_overlays cleared)
                  = List.filter (fun o => id_differs (ov_id o) fileId) (lm_overlays m)).
  { simpl. rewrite Hov. apply filter_all. intros o Ho. now apply filter_In in Ho as [_ Ho]. }
  assert (Hgoal : exists m' notes,
             changed_overlays fileId (tf_name f) overlayColor fm m1 = (m', notes) /\
             Permutation (List.filter (tagged fileId) (lm_overlays m'))
                         (declared_on fileId overlayColor (lm_mapLayers m) declared) /\
             List.filter (fun o => id_differs (ov_id o) fileId) (lm_overlays m') =
             List.filter (fun o => id_differs (ov_id o) fileId) (lm_overlays m)).
  { unfold changed_overlays. fold cleared. subst declared.
    destruct (fm_mapoverlay fm) as [entries|].
    - destruct (lm_mapLayers m) as [|layer layers] eqn:Hlayers.
      + destruct (insert_declared_without_layer fileId (tf_name f) overlayColor
                    entries cleared) as (notes & threw & Hrun).
        { simpl. now rewrite Hml. }
        rewrite Hrun. eexists _, _. split; [reflexivity|].
        split; [now rewrite Hnone | exact Hkept].
      + destruct (insert_declared_inserts fileId (tf_name f) overlayColor layer layers
                    entries cleared) as (m' & notes & Hrun & Hperm & Hrest).
        { simpl. now rewrite Hml. }
        rewrite Hrun. eexists _, _. split; [reflexivity|]. split.
        * rewrite Hperm, Hnone. now rewrite app_nil_r.
        * now rewrite Hrest.
    - eexists _, _. split; [reflexivity|]. split; [|exact Hkept].
      rewrite Hnone. unfold declared_on. now destruct (lm_mapLayers m). }
  destruct Hgoal as (m' & notes & Hrun & Hperm & Hrest). rewrite Hrun.
  exists m'. simpl. split; [apply lookup_insert_eq|]. split; [exact Hperm|].
  split; [|exact Hrest].
  intros Hlayers. rewrite (Permutation_length Hperm). unfold declared_on.
  destruct (lm_mapLayers m); [congruence|]. apply declared_overlays_length.
Qed.

(** C4 as the code has it. A content-change notification on a bound
    document whose file cache holds front matter replaces the overlays of
    the document's binding id as a whole: the overlays registered with that
    id are removed, and afterwards the map's overlays with that id are
    exactly those of the document's current declarations, one for each
    declaration whose length parses (none on a map that has no layer); the
    overlays of other ids are untouched. A notification for a document
    whose file cache holds no front matter changes nothing. *)
Theorem bound_overlays_fully_replaced (self : ref) (watchers : list (TFile * string))
    (overlayColor : string) (f : TFile) (fileId : string) (m : LeafletMap) (st : Plugin) :
  watched watchers f = Some fileId ->
  pl_heap st !! self = Some m ->
  (forall fm,
     getFileCache st f = Some {| cm_frontmatter := Some fm |} ->
     let declared := match fm_mapoverlay fm with Some entries => entries | None => [] end in
     exists m',
       pl_heap (watcher_changed self watchers overlayColor (File f) st) !! self = Some m' /\
       Permutation (List.filter (tagged fileId) (lm_overlays m'))
                   (declared_on fileId overlayColor (lm_mapLayers m) declared) /\
       (lm_mapLayers m <> [] ->
        length (List.filter (tagged fileId) (lm_overlays m')) =
          length (List.filter well_formed_length declared)) /\
       List.filter (fun o => id_differs (ov_id o) fileId) (lm_overlays m') =
       List.filter (fun o => id_differs (ov_id o) fileId) (lm_overlays m)) /\
  (getFileCache st f = Some {| cm_frontmatter := None |} \/ getFileCache st f = None ->
   watcher_changed self watchers overlayColor (File f) st = st).
Proof.
  intros Hwatched Hself. split.
  - intros fm Hcache. now apply watcher_replaces_overlays.
  - apply watcher_ignores_missing_front_matter.
Qed.

End WatcherFacts.

(** The document declared two overlays and its front matter is then
    removed: the notification is ignored, and the two overlays of the
    earlier declarations still carry its binding id. *)
Lemma bound_overlays_left_without_front_matter :
  let first := watcher_changed 1 [(town, "town")] "blue" (File town) bound_example in
  let edited := set_metadataCache without_front_matter first in
  watched [(town, "town")] town = Some "town" /\
  getFileCache edited town = Some {| cm_frontmatter := None |} /\
  exists m',
    pl_heap (watcher_changed 1 [(town, "town")] "blue" (File town) edited) !! 1 = Some m' /\
    length (List.filter (tagged "town") (lm_overlays m')) = 2%nat.
Proof.
  intros first edited. split; [reflexivity|]. split; [reflexivity|].
  eexists. split; [vm_compute; reflexivity|]. reflexivity.
Qed.

(** The document declared two overlays and now declares one: after the
    second notification one overlay carries its binding id. *)
Lemma bound_overlays_fully_replaced_witness :
  let first := watcher_changed 1 [(town, "town")] "blue" (File town) bound_example in
  let edited := set_metadataCache (declares ["5 m"]) first in
  (exists m, pl_heap first !! 1 = Some m /\
             length (List.filter (tagged "town") (lm_overlays m)) = 2%nat) /\
  exists m',
    pl_heap (watcher_changed 1 [(town, "town")] "blue" (File town) edited) !! 1 = Some m' /\
    length (List.filter (tagged "town") (lm_overlays m')) = 1%nat.
Proof.
  intros first edited. split.
  { eexists. split; [vm_compute; reflexivity|]. reflexivity. }
  destruct (bound_overlays_fully_replaced 1 [(town, "town")] "blue" town "town"
              (default image_map (pl_heap edited !! 1)) edited) as [Hreplaced _].
  - reflexivity.
  - vm_compute. reflexivity.
  - destruct (Hreplaced (town_declares ["5 m"]) eq_refl) as (m' & Hm' & _ & Hlen & _).
    exists m'. split; [exact Hm'|]. rewrite Hlen; [reflexivity | discriminate].
Defined.

(** ** The registry of views *)

Lemma keeps_ret {A : Type} (a : A) : keeps_registry (ret a).
Proof. intros st. simpl. tauto. Qed.

Lemma keeps_throw {A : Type} (msg : string) : keeps_registry (@throw A msg).
Proof. intros st. simpl. tauto. Qed.

Lemma keeps_Notice (msg : string) : keeps_registry (Notice msg).
Proof. intros st. simpl. tauto. Qed.

Lemma keeps_pure {A : Type} (f : Plugin -> A) : keeps_registry (fun st => (Ok (f st), st)).
Proof. intros st. simpl. tauto. Qed.

Lemma keeps_bind {A B : Type} (c : M A) (k : A -> M B) :
  keeps_registry c -> (forall a, keeps_registry (k a)) -> keeps_registry (bind c k).
Proof.
  intros Hc Hk st. unfold bind. specialize (Hc st).
  destruct (c st) as [[a|msg] st1]; simpl in *; [|exact Hc].
  specialize (Hk a st1). destruct Hc as [Hm Hh], Hk as [Hm' Hh'].
  split; [congruence | auto].
Qed.

Lemma keeps_call (r : ref) (f : LeafletMap -> LeafletMap) : keeps_registry (call r f).
Proof.
  intros st. simpl. split; [reflexivity|].
  intros r0 Hr0. now apply lookup_alter_is_Some.
Qed.

Lemma keeps_forM {A : Type} (f : A -> M unit) (l : list A) :
  (forall x, keeps_registry (f x)) -> keeps_registry (forM f l).
Proof.
  intros Hf. induction l as [|x l IH]; simpl; [apply keeps_ret|].
  apply keeps_bind; auto.
Qed.

Lemma keeps_mapM {A B : Type} (f : A -> M B) (l : list A) :
  (forall x, keeps_registry (f x)) -> keeps_registry (mapM f l).
Proof.
  intros Hf. induction l as [|x l IH]; simpl; [apply keeps_ret|].
  apply keeps_bind; [auto|]. intros y.
  apply keeps_bind; [exact IH|]. intros ys. apply keeps_ret.
Qed.

Create HintDb keeps.
#[local] Hint Resolve keeps_ret keeps_throw keeps_Notice keeps_pure keeps_call : keeps.

(** Through a computation along its sequencing, loops and branches. *)
Ltac keeps :=
  repeat first
    [ solve [auto with keeps]
    | apply keeps_bind; [|intros ?]
    | apply keeps_forM; intros ?
    | apply keeps_mapM; intros ?
    | match goal with
      | |- keeps_registry (match ?x with _ => _ end) => destruct x
      | |- keeps_registry (if ?x then _ else _) => destruct x
      end ].

Section RegistryFacts.
Context `{Host}.

Lemma keeps_draw_id : keeps_registry draw_id.
Proof. intros st. simpl. tauto. Qed.

Lemma keeps_read (r : ref) : keeps_registry (read r).
Proof. intros st. unfold read. destruct (pl_heap st !! r); simpl; tauto. Qed.

#[local] Hint Resolve keeps_draw_id keeps_read : keeps.

Lemma keeps_overlay_tuple (o : RawOverlay) : keeps_registry (overlay_tuple o).
Proof. unfold overlay_tuple. keeps. Qed.

Lemma keeps_resolve_coordinates (lat long : jsval) (coordinates : option (list jsval))
    (zoomTag : option string) (m : LeafletMap) :
  keeps_registry (resolve_coordinates lat long coordinates zoomTag m).
Proof.
  intros st.
  destruct (resolve_coordinates lat long coordinates zoomTag m st) as [o st1] eqn:Hres.
  apply resolve_coordinates_pure in Hres as ->. simpl. tauto.
Qed.

Lemma keeps__getCoordinates (lat long : jsval) (coordinates : option (list jsval))
    (zoomTag : option string) (m : LeafletMap) :
  keeps_registry (_getCoordinates lat long coordinates zoomTag m).
Proof.
  unfold _getCoordinates, coordinates_or_defaults.
  apply keeps_bind; [apply keeps_resolve_coordinates|].
  intros [[latitude longitude] z]. keeps.
  intros st. destruct (lm_type m); simpl; tauto.
Qed.

Lemma keeps_sort_overlays (l : list OverlayTuple) : keeps_registry (sort_overlays l).
Proof.
  intros st. pose proof (sort_overlays_pure l st) as Hpure.
  destruct (sort_overlays l st) as [o st1]. simpl in Hpure. subst st1.
  destruct o; simpl; tauto.
Qed.

#[local] Hint Resolve keeps_overlay_tuple keeps_sort_overlays keeps__getCoordinates : keeps.

Lemma keeps_populate (image id : string) (r : ref) (params : Params) (items : ImmutableItems) :
  keeps_registry (populate image id r params items).
Proof.
  unfold populate, create_immutable, insert_overlays, insert_overlays_with, load_layers.
  keeps.
Qed.

Lemma broadcast_keeps (f : LeafletMap -> LeafletMap) (l : list IMapInterface)
    (h : gmap ref LeafletMap) (r : ref) :
  is_Some (fold_left (fun h v => alter f (mi_map v) h) l h !! r) <-> is_Some (h !! r).
Proof.
  revert h. induction l as [|x l IH]; intros h; simpl; [reflexivity|].
  rewrite IH. apply lookup_alter_is_Some.
Qed.

(** The save cycle keeps the registry well formed. *)
Lemma saveSettings_keeps_registry (st : Plugin) (now : Z) :
  registry_wf st -> registry_wf (saveSettings st now).
Proof.
  intros [Hnd Hlive]. split; [exact Hnd|].
  intros v Hv. simpl. apply broadcast_keeps. now apply Hlive.
Qed.

(** A run of the post-processor keeps the registry well formed: a view it
    registers has a map object no other view has. *)
Lemma postprocessor_keeps_registry (now : Z) (source : string) (el : Element)
    (sourcePath : string) (params : Params) (items : ImmutableItems) (st : Plugin) :
  registry_wf st ->
  registry_wf (postprocessor now source el sourcePath params items st).
Proof.
  intros [Hnd Hlive]. unfold postprocessor, postprocessor_try.
  destruct (falsy_id (p_id params)); [split; assumption|].
  set (image := match p_image params with Some i => i | None => "real" end).
  set (id := match p_id params with Some i => i | None => EmptyString end).
  unfold bind at 1. unfold bind at 1. unfold alloc at 1.
  set (st0 := set_AppData _ st).
  set (r := fresh (dom (pl_heap st0))).
  set (st1 := set_heap _ st0).
  assert (Hfresh : pl_heap st !! r = None).
  { apply not_elem_of_dom. apply is_fresh. }
  assert (Hr1 : is_Some (pl_heap st1 !! r)).
  { simpl. rewrite lookup_insert_eq. eauto. }
  assert (Hold1 : forall r0, is_Some (pl_heap st !! r0) -> is_Some (pl_heap st1 !! r0)).
  { intros r0 Hr0. simpl. apply lookup_insert_is_Some'. now right. }
  pose proof (keeps_populate image id r params items st1) as [Hmaps Hheap].
  unfold bind at 1.
  destruct (populate image id r params items st1) as [[populated|msg] st2]; simpl in Hmaps, Hheap.
  - unfold render_and_register, bind, call. simpl.
    split.
    + rewrite Hmaps. simpl. unfold register_view. rewrite map_app. simpl.
      apply List.NoDup_app; [now apply NoDup_map_filter | |].
      * repeat constructor. intros [].
      * intros x Hx [Hr|[]]. subst x.
        apply in_map_iff in Hx as (w & Hw & Hin). apply filter_In in Hin as [Hin _].
        apply Hlive in Hin. rewrite Hw, Hfresh in Hin. now destruct Hin.
    + intros v Hv. apply broadcast_keeps. simpl. apply lookup_alter_is_Some.
      apply Hheap. rewrite Hmaps in Hv. simpl in Hv. unfold register_view in Hv.
      apply in_app_or in Hv as [Hv|[<-|[]]]; [|exact Hr1].
      apply filter_In in Hv as [Hv _]. apply Hold1. now apply Hlive.
  - split; simpl; rewrite Hmaps; simpl; [exact Hnd|].
    intros v Hv. apply Hheap, Hold1. now apply Hlive.
Qed.

(** So do the handlers of the watcher and of the marker events. *)
Lemma watcher_changed_keeps_registry (self : ref) (watchers : list (TFile * string))
    (overlayColor : string) (file : TAbstractFile) (st : Plugin) :
  registry_wf st -> registry_wf (watcher_changed self watchers overlayColor file st).
Proof.
  intros Hwf. unfold watcher_changed.
  destruct file as [f|]; [|exact Hwf].
  destruct (watched watchers f); [|exact Hwf].
  destruct (getFileCache st f) as [[[fm|]]|]; try exact Hwf.
  destruct (pl_heap st !! self) as [m|] eqn:Hself; [|exact Hwf].
  destruct (changed_location _ _ _ _) as [located raised].
  destruct (changed_overlays _ _ _ _ _) as [m' notes].
  destruct Hwf as [Hnd Hlive]. split; [exact Hnd|].
  intros v Hv. simpl. apply lookup_insert_is_Some'. right. now apply Hlive.
Qed.

Lemma marker_added_keeps_registry (self : ref) (marker : Marker) (now : Z) (st : Plugin) :
  registry_wf st -> registry_wf (on_marker_added self marker now st).
Proof.
  intros [Hnd Hlive]. apply saveSettings_keeps_registry.
  unfold marker_added_broadcast. destruct (pl_heap st !! self); [|now split].
  split; [exact Hnd|]. intros v Hv. simpl.
  apply broadcast_keeps, lookup_alter_is_Some. now apply Hlive.
Qed.

Lemma marker_dragging_keeps_registry (self : ref) (marker : Marker) (st : Plugin) :
  registry_wf st -> registry_wf (on_marker_dragging self marker st).
Proof.
  intros [Hnd Hlive]. unfold on_marker_dragging.
  destruct (pl_heap st !! self); [|now split].
  split; [exact Hnd|]. intros v Hv. simpl. apply broadcast_keeps. now apply Hlive.
Qed.

End RegistryFacts.

(** ** Cross-view marker events *)

Section MapEventFacts.
Context `{Host}.

(** A round of calls on the maps of some views leaves the other maps. *)
Lemma broadcast_misses (f : LeafletMap -> LeafletMap) (l : list IMapInterface)
    (h : gmap ref LeafletMap) (r : ref) :
  (forall v, In v l -> mi_map v <> r) ->
  fold_left (fun h v => alter f (mi_map v) h) l h !! r = h !! r.
Proof.
  revert h. induction l as [|x l IH]; intros h Hout; simpl; [reflexivity|].
  rewrite IH; [|intros v Hv; apply Hout; now right].
  apply lookup_alter_ne. apply Hout. now left.
Qed.

(** It calls the map of each of the views once, when the views have
    distinct maps. *)
Lemma broadcast_reaches (f : LeafletMap -> LeafletMap) (l : list IMapInterface)
    (h : gmap ref LeafletMap) (v : IMapInterface) :
  List.NoDup (map mi_map l) -> In v l ->
  fold_left (fun h v => alter f (mi_map v) h) l h !! mi_map v = f <$> h !! mi_map v.
Proof.
  revert h. induction l as [|x l IH]; intros h Hnd Hin; simpl; [destruct Hin|].
  simpl in Hnd. apply List.NoDup_cons_iff in Hnd as [Hx Hnd].
  destruct Hin as [-> | Hin].
  - rewrite broadcast_misses; [apply lookup_alter_eq|].
    intros w Hw Heq. apply Hx. rewrite <- Heq. now apply in_map.
  - rewrite IH by assumption. f_equal. apply lookup_alter_ne.
    intros Heq. apply Hx. rewrite Heq. now apply in_map.
Qed.

Lemma sibling_spec (h : gmap ref LeafletMap) (origin m : LeafletMap) (v : IMapInterface) :
  h !! mi_map v = Some m ->
  is_sibling h origin v = true <->
  mi_id v = lm_id origin /\ lm_contentEl m <> lm_contentEl origin.
Proof.
  intros Hm. unfold is_sibling. rewrite Hm, andb_true_iff, String.eqb_eq, negb_true_iff.
  rewrite Nat.eqb_neq. tauto.
Qed.

(** What a broadcast over the siblings does to the map of a view. *)
Lemma siblings_called (f : LeafletMap -> LeafletMap) (st : Plugin) (origin : LeafletMap)
    (h : gmap ref LeafletMap) (v : IMapInterface) :
  List.NoDup (map mi_map (pl_maps st)) ->
  In v (pl_maps st) ->
  fold_left (fun h v => alter f (mi_map v) h) (siblings st origin) h !! mi_map v =
  if is_sibling (pl_heap st) origin v then f <$> h !! mi_map v else h !! mi_map v.
Proof.
  intros Hnd Hin. unfold siblings. destruct (is_sibling (pl_heap st) origin v) eqn:Hs.
  - apply broadcast_reaches; [now apply NoDup_map_filter|].
    apply filter_In. now split.
  - apply broadcast_misses. intros w Hw Heq. apply filter_In in Hw as [Hw Hws].
    assert (w = v) as ->; [|congruence].
    clear -Hnd Hin Hw Heq. induction (pl_maps st) as [|x l IH]; [destruct Hin|].
    simpl in Hnd. apply List.NoDup_cons_iff in Hnd as [Hx Hnd].
    destruct Hin as [-> | Hin], Hw as [-> | Hw]; try reflexivity.
    + exfalso. apply Hx. rewrite <- Heq. now apply in_map.
    + exfalso. apply Hx. rewrite Heq. now apply in_map.
    + now apply IH.
Qed.

(** The broadcast hands the marker, its tooltip unbound, to the siblings
    and to no other view. *)
Lemma broadcast_hands_marker (self : ref) (marker : Marker) (st : Plugin)
    (origin m : LeafletMap) (v : IMapInterface) :
  registry_wf st ->
  pl_heap st !! self = Some origin ->
  In v (pl_maps st) ->
  pl_heap st !! mi_map v = Some m ->
  let st' := marker_added_broadcast self marker st in
  let handed := unbind_tooltip marker in
  (mi_id v = lm_id origin -> lm_contentEl m <> lm_contentEl origin ->
   pl_heap st' !! mi_map v = Some (addMarker m handed)) /\
  (mi_map v = self ->
   pl_heap st' !! mi_map v =
     Some (set_markers
             (update_first (marker_has_id (mk_id marker)) unbind_tooltip (lm_markers m)) m)) /\
  (mi_id v <> lm_id origin -> mi_map v <> self -> pl_heap st' !! mi_map v = Some m).
Proof.
  intros [Hnd _] Hself Hin Hm st' handed.
  subst st'. unfold marker_added_broadcast. rewrite Hself.
  cbn [pl_heap set_heap].
  rewrite (siblings_called (fun m0 => addMarker m0 handed) st origin
             (alter (fun m0 => set_markers
                       (update_first (marker_has_id (mk_id marker)) unbind_tooltip
                                     (lm_markers m0)) m0) self (pl_heap st))
             v Hnd Hin).
  pose proof (sibling_spec (pl_heap st) origin m v Hm) as Hspec.
  split; [|split].
  - intros Hid Hel. rewrite (proj2 Hspec (conj Hid Hel)).
    rewrite lookup_alter_ne, Hm; [reflexivity|].
    intros Heq. rewrite Heq, Hm in Hself. congruence.
  - intros Hv. subst self. rewrite Hself in Hm. injection Hm as ->.
    destruct (is_sibling (pl_heap st) m v) eqn:Hs.
    + destruct (proj1 Hspec eq_refl) as [_ Hne]. congruence.
    + now rewrite lookup_alter_eq, Hself.
  - intros Hid Hv. destruct (is_sibling (pl_heap st) origin v) eqn:Hs.
    + destruct (proj1 Hspec eq_refl) as [Heq _]. congruence.
    + rewrite lookup_alter_ne, Hm; [reflexivity | congruence].
Qed.

Lemma broadcast_keeps_views (self : ref) (marker : Marker) (st : Plugin) :
  pl_maps (marker_added_broadcast self marker st) = pl_maps st.
Proof. unfold marker_added_broadcast. now destruct (pl_heap st !! self). Qed.

(** C5. When a marker is added in one view, every registered view of the
    same map id with another content element is handed the marker, with
    the id, the type and the location it has and with its tooltip closed
    and unbound; the originating view is not, and neither is a view of
    another map id. (The save cycle that ends the handler then refreshes
    the icons of every view.) *)
Theorem marker_added_reaches_siblings (self : ref) (marker : Marker) (now : Z)
    (st : Plugin) (origin m : LeafletMap) (v : IMapInterface) :
  registry_wf st ->
  pl_heap st !! self = Some origin ->
  In v (pl_maps st) ->
  pl_heap st !! mi_map v = Some m ->
  let st' := on_marker_added self marker now st in
  let handed := unbind_tooltip marker in
  (mk_id handed = mk_id marker /\
   mk_type handed = mk_type marker /\
   mk_loc handed = mk_loc marker /\
   li_tooltip_bound (mk_leafletInstance handed) = false) /\
  (mi_id v = lm_id origin -> lm_contentEl m <> lm_contentEl origin ->
   pl_heap st' !! mi_map v = Some (updateMarkerIcons (addMarker m handed))) /\
  (mi_map v = self ->
   pl_heap st' !! mi_map v =
     Some (updateMarkerIcons
             (set_markers
                (update_first (marker_has_id (mk_id marker)) unbind_tooltip (lm_markers m))
                m))) /\
  (mi_id v <> lm_id origin -> mi_map v <> self ->
   pl_heap st' !! mi_map v = Some (updateMarkerIcons m)).
Proof.
  intros Hwf Hself Hin Hm st' handed. split; [repeat split|].
  destruct (broadcast_hands_marker self marker st origin m v Hwf Hself Hin Hm)
    as (Hsib & Horigin & Hother).
  assert (Hsave : pl_heap st' !! mi_map v =
                  updateMarkerIcons <$> pl_heap (marker_added_broadcast self marker st) !! mi_map v).
  { subst st'. unfold on_marker_added. cbn [saveSettings pl_heap].
    rewrite broadcast_keeps_views.
    apply broadcast_reaches; [apply Hwf | exact Hin]. }
  rewrite Hsave. split; [|split].
  - intros Hid Hel. now rewrite (Hsib Hid Hel).
  - intros Hv. now rewrite (Horigin Hv).
  - intros Hid Hv. now rewrite (Hother Hid Hv).
Qed.

Lemma find_update_first {A : Type} (p : A -> bool) (f : A -> A) (l : list A) (x : A) :
  List.find p l = Some x -> p (f x) = true ->
  List.find p (update_first p f l) = Some (f x).
Proof.
  induction l as [|y l IH]; simpl; [discriminate|].
  destruct (p y) eqn:Hy; intros Hf Hp.
  - injection Hf as ->. simpl. now rewrite Hp.
  - simpl. rewrite Hy. now apply IH.
Qed.

(** C6. While a marker is dragged, a sibling view that has no marker of its
    id is left as it is, and nothing is raised, noted or kept for later;
    a sibling view that has one sees it at the dragged marker's position;
    the views that are no siblings are left as they are. *)
Theorem marker_dragging_skips_missing (self : ref) (marker : Marker) (st : Plugin)
    (origin m : LeafletMap) (v : IMapInterface) :
  registry_wf st ->
  pl_heap st !! self = Some origin ->
  In v (pl_maps st) ->
  pl_heap st !! mi_map v = Some m ->
  let st' := on_marker_dragging self marker st in
  (is_sibling (pl_heap st) origin v = true ->
   List.find (marker_has_id (mk_id marker)) (lm_markers m) = None ->
   pl_heap st' !! mi_map v = Some m) /\
  (forall existing,
     is_sibling (pl_heap st) origin v = true ->
     List.find (marker_has_id (mk_id marker)) (lm_markers m) = Some existing ->
     exists m',
       pl_heap st' !! mi_map v = Some m' /\
       List.find (marker_has_id (mk_id marker)) (lm_markers m') = Some (follow marker existing) /\
       mk_loc (follow marker existing) = mk_loc marker /\
       li_latlng (mk_leafletInstance (follow marker existing))
         = li_latlng (mk_leafletInstance marker)) /\
  (is_sibling (pl_heap st) origin v = false -> pl_heap st' !! mi_map v = Some m) /\
  pl_notices st' = pl_notices st /\
  pl_errors st' = pl_errors st /\
  pl_maps st' = pl_maps st /\
  pl_AppData st' = pl_AppData st.
Proof.
  intros [Hnd _] Hself Hin Hm st'. subst st'. unfold on_marker_dragging. rewrite Hself.
  cbn [pl_heap set_heap pl_notices pl_errors pl_maps pl_AppData].
  rewrite (siblings_called (drag_in marker) st origin (pl_heap st) v Hnd Hin), Hm.
  split; [|split; [|split; [|tauto]]].
  - intros -> Hnone. simpl. unfold drag_in. now rewrite Hnone.
  - intros existing -> Hsome. simpl. unfold drag_in. rewrite Hsome.
    eexists. split; [reflexivity|]. simpl. split; [|tauto].
    apply find_update_first; [exact Hsome|].
    apply find_some in Hsome as [_ Hid]. exact Hid.
  - now intros ->.
Qed.

End MapEventFacts.

Lemma marker_added_reaches_siblings_witness :
  let st' := on_marker_added 2 (marker_at "m2" 2 2) example_now views_example in
  let handed := unbind_tooltip (marker_at "m2" 2 2) in
  pl_heap st' !! 1 =
    Some (updateMarkerIcons (addMarker (map_of "world" 11 [marker_at "m1" 1 1] []) handed)) /\
  pl_heap st' !! 3 = Some (updateMarkerIcons (map_of "moon" 31 [marker_at "m1" 5 5] [])).
Proof.
  intros st' handed. split.
  - apply (marker_added_reaches_siblings 2 (marker_at "m2" 2 2) example_now views_example
             (map_of "world" 21 [marker_at "m1" 1 1; marker_at "m2" 2 2] [])
             (map_of "world" 11 [marker_at "m1" 1 1] []) (view_of 1 10 "world")).
    + split; [repeat constructor; simpl; intuition discriminate|].
      intros v [<-|[<-|[<-|[]]]]; vm_compute; eauto.
    + reflexivity.
    + simpl; auto.
    + reflexivity.
    + reflexivity.
    + simpl. discriminate.
  - apply (marker_added_reaches_siblings 2 (marker_at "m2" 2 2) example_now views_example
             (map_of "world" 21 [marker_at "m1" 1 1; marker_at "m2" 2 2] [])
             (map_of "moon" 31 [marker_at "m1" 5 5] []) (view_of 3 30 "moon")).
    + split; [repeat constructor; simpl; intuition discriminate|].
      intros v [<-|[<-|[<-|[]]]]; vm_compute; eauto.
    + reflexivity.
    + simpl; auto.
    + reflexivity.
    + simpl. discriminate.
    + simpl. discriminate.
Defined.

(** View B adds the marker "m2": view A, of the same map, holds a copy
    with the same id, type and location and no tooltip; view C does not. *)
Example sibling_holds_the_marker :
  let st' := on_marker_added 2 (marker_at "m2" 2 2) example_now views_example in
  option_map (fun m => map (fun k => (mk_id k, mk_type k, mk_loc k,
                                      li_tooltip_bound (mk_leafletInstance k)))
                           (lm_markers m)) (pl_heap st' !! 1)
  = Some [ ("m1", "default", latLng (Num 1) (Num 1), true);
           ("m2", "default", latLng (Num 2) (Num 2), false) ] /\
  option_map (fun m => map mk_id (lm_markers m)) (pl_heap st' !! 3) = Some ["m1"].
Proof. split; vm_compute; reflexivity. Qed.

Lemma marker_dragging_skips_missing_witness :
  let st' := on_marker_dragging 2 (marker_at "m2" 9 9) views_example in
  pl_heap st' !! 1 = Some (map_of "world" 11 [marker_at "m1" 1 1] []) /\
  pl_notices st' = [] /\ pl_errors st' = ∅.
Proof.
  intros st'.
  pose proof (marker_dragging_skips_missing 2 (marker_at "m2" 9 9) views_example
                (map_of "world" 21 [marker_at "m1" 1 1; marker_at "m2" 2 2] [])
                (map_of "world" 11 [marker_at "m1" 1 1] []) (view_of 1 10 "world")
                ltac:(split; [repeat constructor; simpl; intuition discriminate|];
                      intros v [<-|[<-|[<-|[]]]]; vm_compute; eauto)
                eq_refl ltac:(simpl; auto) eq_refl)
    as (Hskip & _ & _ & Hnotes & Herrs & _).
  split; [|split].
  - apply Hskip; reflexivity.
  - exact Hnotes.
  - exact Herrs.
Defined.

(** A sibling that holds the dragged marker follows it. *)
Example marker_dragging_moves_copy :
  option_map (fun m => map mk_loc (lm_markers m))
    (pl_heap (on_marker_dragging 2 (marker_at "m1" 9 9) views_example) !! 1)
  = Some [latLng (Num 9) (Num 9)].
Proof. vm_compute. reflexivity. Qed.

(** ** More on the save cycle *)

Section SaveCycleFacts.
Context `{Host}.

(** A record the save cycle leaves in the store has markers or overlays,
    and it either was in the store under an id no view has, or it is the
    record freshly built for a registered view: the cycle invents no record
    and keeps no earlier record of a displayed map. *)
Theorem saved_record_is_kept_or_fresh (st : Plugin) (now : Z) (r : IMapMarkerData) :
  In r (ad_mapMarkers (pl_AppData (saveSettings st now))) ->
  has_data r = true /\
  ((In r (ad_mapMarkers (pl_AppData st)) /\
    forall m, In m (pl_maps st) -> id_differs (rd_id r) (mi_id m) = true)
   \/ exists w, In w (pl_maps st) /\ r = fresh_record st now w).
Proof.
  simpl. unfold before_gc, merge_active. rewrite merge_active_shape.
  intros Hr. apply filter_In in Hr as [Hr _]. apply filter_In in Hr as [Hr Hdata].
  split; [exact Hdata|]. apply in_app_or in Hr as [Hr|Hr].
  - left. apply filter_In in Hr as [Hr Hi]. split; [exact Hr|]. now apply inactive_spec.
  - right. apply in_map_iff in Hr as (w & <- & Hw). exists w.
    split; [now apply writers_incl | reflexivity].
Qed.

(** A store in which no two records carry the same id is one after the
    save cycle. *)
Theorem save_keeps_ids_unique (st : Plugin) (now : Z) :
  unique_ids (ad_mapMarkers (pl_AppData st)) ->
  unique_ids (ad_mapMarkers (pl_AppData (saveSettings st now))).
Proof.
  intros Hu id. rewrite saved_records_of_id. unfold merge_active.
  rewrite merge_active_by_id.
  etransitivity; [apply List.filter_length_le|].
  etransitivity; [apply List.filter_length_le|].
  destruct (last_writer (pl_maps st) id); [reflexivity | apply Hu].
Qed.

(** When the map of the last view of an id holds no mutable marker and no
    mutable overlay, the save cycle leaves no record of that id: the record
    the store held for it is removed, whatever its files. *)
Theorem save_drops_record_of_empty_map (st : Plugin) (now : Z) (id : string)
    (w : IMapInterface) (m : LeafletMap) :
  last_writer (pl_maps st) id = Some w ->
  pl_heap st !! mi_map w = Some m ->
  List.filter mk_mutable (lm_markers m) = [] ->
  List.filter ov_mutable (lm_overlays m) = [] ->
  List.filter (has_id id) (ad_mapMarkers (pl_AppData (saveSettings st now))) = [].
Proof.
  intros Hw Hm Hmarkers Hoverlays. rewrite saved_records_of_id. unfold merge_active.
  rewrite merge_active_by_id, Hw. simpl.
  unfold has_data, fresh_record. simpl. rewrite Hm. simpl.
  now rewrite Hmarkers, Hoverlays.
Qed.

(** The markers and overlays a round of [updateMarkerIcons] calls leaves
    on the maps, when [updateMarkerIcons] keeps them. *)
Lemma icons_keep_data (l : list IMapInterface) (h : gmap ref LeafletMap) (r : ref) :
  (forall m, lm_markers (updateMarkerIcons m) = lm_markers m /\
             lm_overlays (updateMarkerIcons m) = lm_overlays m) ->
  from_option lm_markers []
    (fold_left (fun h m => alter updateMarkerIcons (mi_map m) h) l h !! r)
    = from_option lm_markers [] (h !! r) /\
  from_option lm_overlays []
    (fold_left (fun h m => alter updateMarkerIcons (mi_map m) h) l h !! r)
    = from_option lm_overlays [] (h !! r).
Proof.
  intros Hkeep. revert h. induction l as [|x l IH]; intros h; simpl; [tauto|].
  destruct (IH (alter updateMarkerIcons (mi_map x) h)) as [-> ->].
  destruct (decide (mi_map x = r)) as [->|Hne].
  - rewrite lookup_alter_eq. destruct (h !! r) as [m|]; simpl; [apply Hkeep | tauto].
  - rewrite lookup_alter_ne by exact Hne. tauto.
Qed.

Lemma fresh_record_after_save (st : Plugin) (now : Z) (w : IMapInterface) :
  (forall m, lm_markers (updateMarkerIcons m) = lm_markers m /\
             lm_overlays (updateMarkerIcons m) = lm_overlays m) ->
  fresh_record (saveSettings st now) now w = fresh_record st now w.
Proof.
  intros Hkeep. unfold fresh_record. cbn [saveSettings pl_heap pl_mapFiles].
  destruct (icons_keep_data (pl_maps st) (pl_heap st) (mi_map w) Hkeep) as [-> ->].
  reflexivity.
Qed.

(** A save cycle right after a save cycle leaves the durable store as the
    first left it, when refreshing the icons of a map keeps its markers and
    overlays. *)
Theorem save_is_idempotent (st : Plugin) (now : Z) :
  (forall m, lm_markers (updateMarkerIcons m) = lm_markers m /\
             lm_overlays (updateMarkerIcons m) = lm_overlays m) ->
  pl_AppData (saveSettings (saveSettings st now) now) = pl_AppData (saveSettings st now).
Proof.
  intros Hkeep.
  set (maps := pl_maps st).
  set (kept := List.filter (gc_keep now) (List.filter has_data
                 (List.filter (inactive maps) (ad_mapMarkers (pl_AppData st))))).
  set (pushed := List.filter (gc_keep now) (List.filter has_data
                   (map (fresh_record st now) (writers maps)))).
  assert (Hfirst : ad_mapMarkers (pl_AppData (saveSettings st now)) = kept ++ pushed).
  { simpl. unfold before_gc, merge_active. rewrite merge_active_shape.
    now rewrite !List.filter_app. }
  assert (Hsecond : ad_mapMarkers (pl_AppData (saveSettings (saveSettings st now) now))
                    = kept ++ pushed).
  { cbn [saveSettings pl_AppData ad_mapMarkers]. unfold before_gc, merge_active.
    rewrite merge_active_shape. fold (saveSettings st now). rewrite Hfirst.
    cbn [saveSettings pl_maps]. fold maps.
    rewrite (map_ext _ (fresh_record st now))
      by (intros w; apply fresh_record_after_save, Hkeep).
    rewrite !List.filter_app. fold pushed. f_equal.
    assert (Hkept : List.filter (inactive maps) kept = kept).
    { apply filter_all. intros r Hr. unfold kept in Hr.
      apply filter_In in Hr as [Hr _]. apply filter_In in Hr as [Hr _].
      now apply filter_In in Hr as [_ Hr]. }
    assert (Hpushed : List.filter (inactive maps) pushed = []).
    { apply filter_none. intros r Hr. unfold pushed in Hr.
      apply filter_In in Hr as [Hr _]. apply filter_In in Hr as [Hr _].
      apply in_map_iff in Hr as (w & <- & Hw).
      apply fresh_is_active. now apply writers_incl. }
    rewrite Hkept, Hpushed, app_nil_r.
    rewrite (filter_all has_data kept).
    - apply filter_all. intros r Hr. now apply filter_In in Hr.
    - intros r Hr. apply filter_In in Hr as [Hr _]. now apply filter_In in Hr. }
  rewrite <- Hfirst in Hsecond. clear Hfirst.
  cbn [saveSettings pl_AppData ad_mapMarkers ad_lat ad_long] in Hsecond |- *.
  now f_equal.
Qed.

End SaveCycleFacts.

Lemma saved_record_is_kept_or_fresh_witness :
  In (record_of (Some "recent") [] (6 * day))
     (ad_mapMarkers (pl_AppData (saveSettings gc_example example_now))) /\
  has_data (record_of (Some "recent") [] (6 * day)) = true /\
  ((In (record_of (Some "recent") [] (6 * day)) (ad_mapMarkers (pl_AppData gc_example)) /\
    forall m, In m (pl_maps gc_example) ->
              id_differs (rd_id (record_of (Some "recent") [] (6 * day))) (mi_id m) = true)
   \/ exists w, In w (pl_maps gc_example) /\
                record_of (Some "recent") [] (6 * day) = fresh_record gc_example example_now w).
Proof.
  assert (Hin : In (record_of (Some "recent") [] (6 * day))
                   (ad_mapMarkers (pl_AppData (saveSettings gc_example example_now))))
    by (simpl; auto).
  split; [exact Hin|].
  exact (saved_record_is_kept_or_fresh gc_example example_now _ Hin).
Defined.

Lemma save_keeps_ids_unique_witness :
  unique_ids (ad_mapMarkers (pl_AppData views_example)) /\
  unique_ids (ad_mapMarkers (pl_AppData (saveSettings views_example example_now))).
Proof.
  assert (Hu : unique_ids (ad_mapMarkers (pl_AppData views_example))).
  { intros id. simpl. destruct (has_id id _); simpl; lia. }
  split; [exact Hu|].
  exact (save_keeps_ids_unique views_example example_now Hu).
Defined.

Lemma save_drops_record_of_empty_map_witness :
  List.filter (has_id "world") (ad_mapMarkers (pl_AppData emptied_example))
    = [record_of (Some "world") ["Atlas.md"] day] /\
  List.filter (has_id "world")
    (ad_mapMarkers (pl_AppData (saveSettings emptied_example example_now))) = [].
Proof.
  split; [reflexivity|].
  apply (save_drops_record_of_empty_map emptied_example example_now "world"
           (view_of 1 10 "world") (map_of "world" 11 [] [])); reflexivity.
Defined.

Lemma save_is_idempotent_witness :
  (forall m, lm_markers (updateMarkerIcons m) = lm_markers m /\
             lm_overlays (updateMarkerIcons m) = lm_overlays m) /\
  pl_AppData (saveSettings (saveSettings views_example example_now) example_now)
    = pl_AppData (saveSettings views_example example_now).
Proof.
  assert (Hkeep : forall m, lm_markers (updateMarkerIcons m) = lm_markers m /\
                            lm_overlays (updateMarkerIcons m) = lm_overlays m)
    by (intros m; split; reflexivity).
  split; [exact Hkeep|].
  exact (save_is_idempotent views_example example_now Hkeep).
Defined.

(** ** The old format of the store *)

Lemma find_app_none {A : Type} (p : A -> bool) (l l' : list A) :
  (forall x, In x l -> p x = false) -> List.find p (l ++ l') = List.find p l'.
Proof.
  induction l as [|x l IH]; simpl; intros Hall; [reflexivity|].
  rewrite (Hall x (or_introl eq_refl)). apply IH. intros y Hy. apply Hall. now right.
Qed.

Lemma remove_first_In {A : Type} (p : A -> bool) (l : list A) (x : A) :
  In x (remove_first p l) -> In x l.
Proof.
  induction l as [|y l IH]; simpl; [tauto|].
  destruct (p y); simpl; intuition.
Qed.

Lemma remove_first_length {A : Type} (p : A -> bool) (l : list A) (x : A) :
  List.find p l = Some x -> S (length (remove_first p l)) = length l.
Proof.
  induction l as [|y l IH]; simpl; [discriminate|].
  destruct (p y); intros Hf; [reflexivity|]. simpl. now rewrite IH.
Qed.

Lemma filter_remove_first {A : Type} (p : A -> bool) (l : list A) :
  List.filter p (remove_first p l) = tl (List.filter p l).
Proof.
  induction l as [|y l IH]; simpl; [reflexivity|].
  destruct (p y) eqn:Hy; simpl; [reflexivity|]. now rewrite Hy.
Qed.

Lemma found_is_data (sourcePath image id : string) (r : IMapMarkerData) :
  old_format_found sourcePath image id r = true ->
  old_format_data sourcePath image id r = true.
Proof.
  unfold old_format_found, old_format_data.
  destruct (path_is r (sourcePath +:+ "/" +:+ image)); simpl; [reflexivity|tauto].
Qed.

Lemma found_has_data (sourcePath image id : string) (store : list IMapMarkerData) :
  existsb (old_format_found sourcePath image id) store = true ->
  exists data, List.find (old_format_data sourcePath image id) store = Some data.
Proof.
  intros Hex. apply existsb_exists in Hex as (r & Hr & Hfound).
  destruct (List.find _ store) as [data|] eqn:Hf; [eauto|].
  pose proof (find_none _ _ Hf r Hr) as Hn.
  now rewrite (found_is_data _ _ _ _ Hfound) in Hn.
Qed.

Lemma find_split {A : Type} (p : A -> bool) (l : list A) (x : A) :
  List.find p l = Some x ->
  exists before after,
    l = before ++ x :: after /\ remove_first p l = before ++ after /\
    forall y, In y before -> p y = false.
Proof.
  induction l as [|y l IH]; simpl; [discriminate|].
  destruct (p y) eqn:Hy.
  - intros [= <-]. exists [], l. repeat split. intros z [].
  - intros Hf. destruct (IH Hf) as (before & after & -> & -> & Hnone).
    exists (y :: before), after. repeat split.
    intros z [<-|Hz]; [exact Hy | now apply Hnone].
Qed.

(** The migration moves the first record of the store that carries the
    path of the block's document with the block's image or id. When that
    record is of the old format for the block (it has no id, or its path is
    the one with the block's id) and the store holds no record of the
    block's id yet, the record is moved under the id: it is taken out of
    the store, the other records staying in their order, and a record with
    its markers and overlays, the block's id, the block's document as its
    one file and the time of the render is appended, which is what looking
    the id up afterwards yields. *)
Theorem old_record_is_found_under_id (now : Z) (sourcePath image id : string)
    (store : list IMapMarkerData) (data : IMapMarkerData) :
  List.find (old_format_data sourcePath image id) store = Some data ->
  old_format_found sourcePath image id data = true ->
  (forall r, In r store -> has_id id r = false) ->
  let moved :=
    {| rd_id := Some id; rd_path := None; rd_files := [sourcePath];
       rd_lastAccessed := Some now; rd_markers := rd_markers data;
       rd_overlays := rd_overlays data |} in
  (exists before after,
     store = before ++ data :: after /\
     update_old_format now sourcePath image id store = before ++ after ++ [moved]) /\
  List.find (has_id id) (update_old_format now sourcePath image id store) = Some moved.
Proof.
  intros Hdata Hfound Hnew moved.
  assert (Hex : existsb (old_format_found sourcePath image id) store = true).
  { apply existsb_exists. exists data. split; [|exact Hfound].
    now apply find_some in Hdata. }
  unfold update_old_format. rewrite Hex, Hdata. fold moved. split.
  - destruct (find_split _ _ _ Hdata) as (before & after & Hstore & Hrest & _).
    exists before, after. split; [exact Hstore|]. now rewrite Hrest, <- app_assoc.
  - rewrite find_app_none.
    + simpl. unfold has_id. simpl. now rewrite String.eqb_refl.
    + intros r Hr. apply Hnew. now apply remove_first_In in Hr.
Qed.

(** A store that holds at most one record of the old format for the block
    is migrated once: on the migrated store the migration changes
    nothing. *)
Theorem old_record_is_moved_once (now now' : Z) (sourcePath image id : string)
    (store : list IMapMarkerData) :
  (length (List.filter (old_format_data sourcePath image id) store) <= 1)%nat ->
  update_old_format now' sourcePath image id
    (update_old_format now sourcePath image id store)
  = update_old_format now sourcePath image id store.
Proof.
  intros Hone. unfold update_old_format at 2.
  destruct (existsb (old_format_found sourcePath image id) store) eqn:Hex.
  - destruct (found_has_data _ _ _ _ Hex) as [data Hdata]. rewrite Hdata.
    unfold update_old_format.
    assert (Hnone : existsb (old_format_found sourcePath image id)
                      (remove_first (old_format_data sourcePath image id) store
                         ++ [ {| rd_id := Some id; rd_path := None; rd_files := [sourcePath];
                                 rd_lastAccessed := Some now; rd_markers := rd_markers data;
                                 rd_overlays := rd_overlays data |} ]) = false).
    { rewrite existsb_app. simpl. rewrite orb_false_r.
      destruct (existsb _ (remove_first _ store)) eqn:Hrest; [|reflexivity].
      apply existsb_exists in Hrest as (r & Hr & Hfound).
      assert (Hin : In r (List.filter (old_format_data sourcePath image id)
                            (remove_first (old_format_data sourcePath image id) store))).
      { apply filter_In. split; [exact Hr | now apply found_is_data]. }
      rewrite filter_remove_first in Hin.
      destruct (List.filter _ store) as [|a [|b l]]; simpl in Hone, Hin; [tauto | tauto | lia]. }
    now rewrite Hnone, Hex, Hdata.
  - unfold update_old_format. now rewrite Hex.
Qed.

Lemma old_record_is_found_under_id_witness :
  let data :=
    {| rd_id := None; rd_path := Some "Atlas.md/real"; rd_files := [];
       rd_lastAccessed := None; rd_markers := [pin]; rd_overlays := [] |} in
  let moved :=
    {| rd_id := Some "world"; rd_path := None; rd_files := ["Atlas.md"];
       rd_lastAccessed := Some example_now; rd_markers := [pin]; rd_overlays := [] |} in
  List.find (old_format_data "Atlas.md" "real" "world") old_format_store = Some data /\
  old_format_found "Atlas.md" "real" "world" data = true /\
  (forall r, In r old_format_store -> has_id "world" r = false) /\
  (exists before after,
     old_format_store = before ++ data :: after /\
     update_old_format example_now "Atlas.md" "real" "world" old_format_store
       = before ++ after ++ [moved]) /\
  List.find (has_id "world")
    (update_old_format example_now "Atlas.md" "real" "world" old_format_store)
  = Some moved.
Proof.
  intros data moved.
  assert (Hnew : forall r, In r old_format_store -> has_id "world" r = false)
    by (intros r [<-|[<-|[]]]; reflexivity).
  split; [reflexivity|]. split; [reflexivity|]. split; [exact Hnew|].
  exact (old_record_is_found_under_id example_now "Atlas.md" "real" "world"
           old_format_store data eq_refl eq_refl Hnew).
Defined.

(** The record moved is the first that carries one of the two paths,
    whatever its id: before a record of the old format for the block stands
    one that carries the path and the id of another map, and that one is
    moved. *)
Example first_record_of_the_path_is_moved :
  let other :=
    {| rd_id := Some "moon"; rd_path := Some "Atlas.md/real"; rd_files := [];
       rd_lastAccessed := None; rd_markers := []; rd_overlays := [] |} in
  map (fun r => (rd_id r, rd_path r, rd_markers r))
      (update_old_format example_now "Atlas.md" "real" "world" (other :: old_format_store))
  = [ (Some "moon", None, [pin]);
      (None, Some "Atlas.md/real", [pin]);
      (Some "world", None, []) ].
Proof. reflexivity. Qed.

Lemma old_record_is_moved_once_witness :
  (length (List.filter (old_format_data "Atlas.md" "real" "world") old_format_store) <= 1)%nat /\
  update_old_format (example_now + day) "Atlas.md" "real" "world"
    (update_old_format example_now "Atlas.md" "real" "world" old_format_store)
  = update_old_format example_now "Atlas.md" "real" "world" old_format_store.
Proof.
  assert (Hone : (length (List.filter (old_format_data "Atlas.md" "real" "world")
                            old_format_store) <= 1)%nat)
    by (simpl; lia).
  split; [exact Hone|].
  exact (old_record_is_moved_once example_now (example_now + day) "Atlas.md" "real" "world"
           old_format_store Hone).
Defined.

(** ** A render from beginning to end *)

Lemma populates_after_touches (r : ref) (st1 st2 st3 : Plugin) :
  touches_only r st1 st2 -> populates r st2 st3 -> populates r st1 st3.
Proof.
  unfold touches_only, populates.
  intros (A1 & B1 & C1 & D1 & E1 & F1) (A2 & B2 & D2 & E2 & F2 & C2).
  split; [congruence|]. split; [congruence|]. split; [congruence|]. split; [congruence|].
  split; [intros r0 Hr0; rewrite F2, F1; auto|].
  rewrite <- C1. exact C2.
Qed.

Lemma populates_before_touches (r : ref) (st1 st2 st3 : Plugin) :
  populates r st1 st2 -> touches_only r st2 st3 -> populates r st1 st3.
Proof.
  unfold touches_only, populates.
  intros (A1 & B1 & D1 & E1 & F1 & C1) (A2 & B2 & C2 & D2 & E2 & F2).
  split; [congruence|]. split; [congruence|]. split; [congruence|]. split; [congruence|].
  split; [intros r0 Hr0; rewrite F2, F1; auto|].
  rewrite C2. exact C1.
Qed.

Lemma register_view_shown (v : IMapInterface) (maps : list IMapInterface) :
  List.filter (shown_in (mi_el v)) (register_view v maps) = [v] /\
  List.filter (fun w => negb (shown_in (mi_el v) w)) (register_view v maps) =
  List.filter (fun w => negb (shown_in (mi_el v) w)) maps.
Proof.
  unfold register_view, shown_in. rewrite !List.filter_app. simpl.
  rewrite Nat.eqb_refl. simpl. rewrite app_nil_r. split.
  - rewrite filter_none; [reflexivity|].
    intros w Hw. apply filter_In in Hw as [_ Hw]. now apply negb_true_iff in Hw.
  - apply filter_idem.
Qed.

Lemma register_view_one_per_element (v : IMapInterface) (maps : list IMapInterface) :
  one_view_per_element maps -> one_view_per_element (register_view v maps).
Proof.
  unfold one_view_per_element, register_view. intros Hnd.
  rewrite map_app. simpl. apply List.NoDup_app.
  - now apply NoDup_map_filter.
  - repeat constructor. intros [].
  - intros x Hx [<-|[]]. apply in_map_iff in Hx as (w & Hw & Hin).
    apply filter_In in Hin as [_ Hin]. apply negb_true_iff, Nat.eqb_neq in Hin.
    congruence.
Qed.

(** The document of a block is listed as embedding the block's map. *)
Lemma note_map_file_lists (sourcePath id : string) (l : list MapFile) :
  In sourcePath (files_embedding (note_map_file sourcePath id l) id).
Proof.
  unfold files_embedding, note_map_file.
  destruct (existsb _ l) eqn:Hex.
  - induction l as [|mf l IH]; simpl in *; [discriminate|].
    destruct (String.eqb (mf_file mf) sourcePath) eqn:Hmf; simpl.
    + rewrite existsb_app. simpl. rewrite String.eqb_refl, orb_true_r. simpl.
      left. now apply String.eqb_eq.
    + destruct (existsb (String.eqb id) (mf_maps mf)); simpl; [right|]; now apply IH.
  - rewrite List.filter_app, map_app. apply in_or_app. right. simpl.
    rewrite String.eqb_refl. simpl. now left.
Qed.

Section RenderFacts.
Context `{Host}.

Lemma keeps_create_immutable (layers : list string) (r : ref) (t : ImmutableMarker) :
  keeps_registry (create_immutable layers r t).
Proof.
  unfold create_immutable. apply keeps_bind; [|intros id; apply keeps_call].
  destruct (im_id t); [apply keeps_ret | apply keeps_draw_id].
Qed.

(** Without a malformed radius [overlayArray] is built. *)
Lemma overlayArray_built (r : ref) (raws : list RawOverlay) (st : Plugin) :
  existsb malformed_radius raws = false ->
  exists overlayArray st1,
    mapM overlay_tuple raws st = (Ok overlayArray, st1) /\ touches_only r st st1.
Proof.
  revert st. induction raws as [|o raws IH]; intros st Hgood; simpl.
  - exists [], st. split; [reflexivity | apply touches_only_refl].
  - simpl in Hgood. apply orb_false_iff in Hgood as [Ho Hgood].
    destruct (overlay_tuple_runs r o st) as (st1 & Hframe & Hrun). rewrite Ho in Hrun.
    destruct Hrun as [t Hrun]. destruct (IH st1 Hgood) as (arr & st2 & Hrest & Hframe2).
    exists (t :: arr), st2. split; [|eapply touches_only_trans; eassumption].
    rewrite (bind_ok _ _ _ _ _ Hrun), (bind_ok _ _ _ _ _ Hrest). reflexivity.
Qed.

(** The units of [overlayArray] are those of the declarations. *)
Lemma overlayArray_units (raws : list RawOverlay) (st st1 : Plugin)
    (overlayArray : list OverlayTuple) :
  mapM overlay_tuple raws st = (Ok overlayArray, st1) ->
  forallb unit_known overlayArray = units_known raws.
Proof.
  revert st st1 overlayArray.
  induction raws as [|o raws IH]; intros st st1 overlayArray; simpl.
  - unfold ret. intros [= <- _]. reflexivity.
  - unfold bind at 1.
    destruct (overlay_tuple o st) as [[t|message] sa] eqn:Ho; [|discriminate].
    unfold bind at 1.
    destruct (mapM overlay_tuple raws sa) as [[ts|message] sb] eqn:Hrest; [|discriminate].
    unfold ret. intros [= <- _]. simpl. rewrite (IH _ _ _ Hrest). f_equal.
    unfold overlay_tuple, bind in Ho.
    destruct (match raw_id o with Some i => ret i | None => draw_id end st) as [[id|?] sc];
      [|discriminate].
    unfold unit_known, declared_unit.
    destruct (OVERLAY_TAG_REGEX (raw_length o)) as [[g1 g2]|]; [|discriminate].
    destruct (Number_of_group g1); [discriminate|].
    injection Ho as <- _. simpl. now destruct g2.
Qed.

(** Without the parameter [coordinates] the centre is computed from the
    latitude and longitude, with a notice at most. *)
Lemma centre_without_coordinates (lat long : jsval) (zoomTag : option string)
    (m : LeafletMap) (st : Plugin) :
  exists coords st1,
    _getCoordinates lat long None zoomTag m st = (Ok (coords, None), st1) /\
    pl_maps st1 = pl_maps st /\ pl_mapFiles st1 = pl_mapFiles st /\
    pl_errors st1 = pl_errors st /\ pl_saved st1 = pl_saved st /\
    pl_heap st1 = pl_heap st /\ pl_AppData st1 = pl_AppData st /\
    (pl_notices st1 = pl_notices st \/
     pl_notices st1 = pl_notices st ++ [coordinates_notice]).
Proof.
  unfold _getCoordinates, resolve_coordinates, coordinates_or_defaults, bind, ret, Notice.
  destruct (isNaN (parse_coordinate lat) || isNaN (parse_coordinate long));
    destruct (lm_type m); eexists _, _; (split; [reflexivity|]); simpl; tauto.
Qed.

Lemma load_layers_runs (image : string) (layers : list string) (st : Plugin) :
  load_layers image layers st =
  (if layers_ok image layers then Ok (layerData_of image layers) else Throw layers_notice, st).
Proof.
  unfold load_layers, layers_ok, layerData_of.
  destruct (String.eqb image "real"); simpl; [reflexivity|].
  assert (Hbad : existsb (fun d : string * option string =>
                            match snd d with
                            | Some data => String.eqb data EmptyString
                            | None => true
                            end) (map (fun l => (l, toDataURL l)) layers)
                 = negb (forallb layer_has_data layers)).
  { induction layers as [|l layers IH]; simpl; [reflexivity|].
    rewrite IH, negb_andb. f_equal. unfold layer_has_data.
    destruct (toDataURL l); [now rewrite negb_involutive | reflexivity]. }
  rewrite Hbad. destruct (forallb layer_has_data layers); reflexivity.
Qed.

(** A block without a malformed radius, with units [convert] knows and
    without the parameter [coordinates] is put on its map up to the loading
    of the layers. *)
Lemma populate_runs (image id : string) (r : ref) (params : Params)
    (items : ImmutableItems) (st : Plugin) :
  existsb malformed_radius (p_overlay params ++ ii_overlays items) = false ->
  units_known (p_overlay params ++ ii_overlays items) = true ->
  p_coordinates params = None ->
  is_Some (pl_heap st !! r) ->
  exists located st1,
    populates r st st1 /\ is_Some (pl_heap st1 !! r) /\
    populate image id r params items st =
      (if layers_ok image (p_layers params)
       then Ok (located, layerData_of image (p_layers params))
       else Throw layers_notice, st1).
Proof.
  intros Hgood Hunits Hcoords Hlive. unfold populate.
  destruct (create_immutable_touches (p_layers params) r (ii_markers items) st)
    as (sa & Ha & Fa).
  assert (La : is_Some (pl_heap sa !! r)).
  { pose proof (keeps_forM (create_immutable (p_layers params) r) (ii_markers items)
                  (keeps_create_immutable _ _) st) as [_ Hl].
    rewrite Ha in Hl. now apply Hl. }
  rewrite (bind_ok _ _ _ _ _ Ha).
  destruct (overlayArray_built r _ sa Hgood) as (arr & sb & Hb & Fb).
  assert (Lb : is_Some (pl_heap sb !! r)).
  { pose proof (keeps_mapM overlay_tuple (p_overlay params ++ ii_overlays items)
                  keeps_overlay_tuple sa) as [_ Hl].
    rewrite Hb in Hl. now apply Hl. }
  set (sc := set_heap
               (alter (fun m => fold_left
                                  (fun m t => addOverlay m (tuple_data (p_layers params) t) false)
                                  (Array_sort (by_key_descending radius_m) arr) m)
                      r (pl_heap sb)) sb).
  assert (Hc : insert_overlays (p_layers params) r (p_overlay params ++ ii_overlays items) sa
               = (Ok tt, sc)).
  { unfold insert_overlays, insert_overlays_with. rewrite (bind_ok _ _ _ _ _ Hb).
    rewrite <- (overlayArray_units _ _ _ _ Hb) in Hunits.
    rewrite (bind_ok _ _ _ _ _ (sort_overlays_known arr sb Hunits)).
    apply (forM_call r (fun m t => addOverlay m (tuple_data (p_layers params) t) false)). }
  rewrite (bind_ok _ _ _ _ _ Hc).
  assert (Fc : touches_only r sb sc) by apply call_touches.
  assert (Lc : is_Some (pl_heap sc !! r)) by (simpl; now apply lookup_alter_is_Some).
  unfold bind at 1. cbv beta iota. unfold bind at 1. cbv beta iota.
  unfold bind at 1, read at 1. destruct Lc as [m Hm]. rewrite Hm. rewrite Hcoords.
  match goal with
  | |- context [_getCoordinates ?la ?lo None ?z m] =>
      destruct (centre_without_coordinates la lo z m sc)
        as (coords & sd & Hd & D1 & D2 & D3 & D4 & D5 & D6 & D7)
  end.
  rewrite (bind_ok _ _ _ _ _ Hd).
  unfold bind at 1. cbv beta iota. unfold bind at 1, call at 1. cbv beta iota.
  unfold bind at 1. rewrite load_layers_runs.
  set (se := set_heap _ sd).
  exists (coords, None), se.
  assert (Fe : populates r st se).
  { eapply populates_after_touches; [exact Fa|].
    eapply populates_after_touches; [exact Fb|].
    eapply populates_after_touches; [exact Fc|].
    unfold populates. subst se. simpl. repeat split; try assumption.
    intros r0 Hr0. rewrite lookup_alter_ne by congruence. now rewrite D5. }
  assert (Le : is_Some (pl_heap se !! r)).
  { subst se. simpl. apply lookup_alter_is_Some. rewrite D5, Hm. eauto. }
  split; [exact Fe|]. split; [exact Le|].
  destruct (layers_ok image (p_layers params)); reflexivity.
Qed.

(** What the post-processor leaves of a block that has an id, no
    malformed radius, units [convert] knows and no parameter [coordinates]:
    its view registered and the settings saved, or the error on its
    layers. *)
Lemma postprocessor_runs (now : Z) (source : string) (el : Element)
    (sourcePath : string) (params : Params) (items : ImmutableItems) (st : Plugin) :
  falsy_id (p_id params) = false ->
  existsb malformed_radius (p_overlay params ++ ii_overlays items) = false ->
  units_known (p_overlay params ++ ii_overlays items) = true ->
  p_coordinates params = None ->
  exists r st1,
    pl_heap st !! r = None /\ populates r st st1 /\ is_Some (pl_heap st1 !! r) /\
    postprocessor now source el sourcePath params items st =
      if layers_ok (image_of params) (p_layers params)
      then saveSettings
             (set_mapFiles (note_map_file sourcePath (id_of params) (pl_mapFiles st1))
                (set_maps (register_view (view_for r source el params) (pl_maps st1)) st1))
             now
      else renderError el layers_notice (add_notices [loading_notice] st1).
Proof.
  intros Hid Hgood Hunits Hcoords. unfold postprocessor, postprocessor_try. rewrite Hid.
  fold (image_of params). fold (id_of params).
  unfold bind at 1. unfold bind at 1. unfold alloc at 1.
  set (st0 := set_AppData _ st).
  set (r := fresh (dom (pl_heap st0))).
  set (sa := set_heap _ st0).
  assert (Hfresh : pl_heap st !! r = None).
  { apply not_elem_of_dom. apply is_fresh. }
  assert (Fa : touches_only r st sa).
  { unfold touches_only. simpl. repeat split; try reflexivity.
    intros r0 Hr0. now apply lookup_insert_ne. }
  assert (La : is_Some (pl_heap sa !! r)).
  { simpl. rewrite lookup_insert_eq. eauto. }
  destruct (populate_runs (image_of params) (id_of params) r params items sa
              Hgood Hunits Hcoords La) as (located & sb & Fb & Lb & Hrun).
  exists r.
  destruct (layers_ok (image_of params) (p_layers params)).
  - rewrite (bind_ok _ _ _ _ _ Hrun).
    unfold render_and_register, bind, call. cbv beta iota.
    exists (set_heap
              (alter (fun m =>
                        render m (fst located) (snd located)
                          (head (layerData_of (image_of params) (p_layers params)))
                          (1 <? length (layerData_of (image_of params) (p_layers params)))%nat)
                     r (pl_heap sb)) sb).
    split; [exact Hfresh|]. split; [|split; [|reflexivity]].
    + eapply populates_after_touches; [exact Fa|].
      eapply populates_before_touches; [exact Fb | apply call_touches].
    + simpl. now apply lookup_alter_is_Some.
  - rewrite (bind_throw _ _ _ _ _ Hrun).
    exists sb. split; [exact Hfresh|]. split; [|split; [exact Lb | reflexivity]].
    eapply populates_after_touches; [exact Fa | exact Fb].
Qed.

End RenderFacts.

Section RenderTheorems.
Context `{Host}.

(** A block that has an id, immutable markers at positions that are
    numbers, no overlay with a malformed radius or with a unit [convert]
    does not know, no parameter [coordinates] and, on an image map, only
    layers that yield data is rendered. No error is shown; one view of the
    block's element, with the block's id and source and a map object of its
    own, is registered in place of the view the element showed before; the
    block's document is noted as embedding the map; the settings are saved
    as they then stand; and at most the notice on the coordinates is
    raised. *)
Theorem well_formed_block_is_rendered (now : Z) (source : string) (el : Element)
    (sourcePath : string) (params : Params) (items : ImmutableItems) (st : Plugin) :
  falsy_id (p_id params) = false ->
  positions_are_numbers items = true ->
  existsb malformed_radius (p_overlay params ++ ii_overlays items) = false ->
  units_known (p_overlay params ++ ii_overlays items) = true ->
  p_coordinates params = None ->
  layers_ok (image_of params) (p_layers params) = true ->
  let st' := postprocessor now source el sourcePath params items st in
  exists r,
    pl_heap st !! r = None /\
    is_Some (pl_heap st' !! r) /\
    pl_maps st' = register_view (view_for r source el params) (pl_maps st) /\
    List.filter (shown_in el) (pl_maps st') = [view_for r source el params] /\
    pl_mapFiles st' = note_map_file sourcePath (id_of params) (pl_mapFiles st) /\
    pl_errors st' = pl_errors st /\
    pl_saved st' = Some (pl_AppData st') /\
    (pl_notices st' = pl_notices st \/
     pl_notices st' = pl_notices st ++ [coordinates_notice]).
Proof.
  intros Hid _ Hgood Hunits Hcoords Hlayers st'.
  destruct (postprocessor_runs now source el sourcePath params items st
              Hid Hgood Hunits Hcoords)
    as (r & st1 & Hfresh & (Hmaps & Hfiles & Herrs & Hsaved & Hheap & Hnotes) & Hlive & Hrun).
  rewrite Hlayers in Hrun. subst st'. rewrite Hrun. exists r.
  cbn [saveSettings pl_heap pl_maps pl_mapFiles pl_errors pl_saved pl_notices pl_AppData
       set_mapFiles set_maps].
  rewrite Hmaps, Hfiles, Herrs.
  split; [exact Hfresh|]. split; [now apply broadcast_keeps|].
  split; [reflexivity|].
  split; [exact (proj1 (register_view_shown (view_for r source el params) (pl_maps st)))|].
  split; [reflexivity|]. split; [reflexivity|]. split; [reflexivity | exact Hnotes].
Qed.

(** A block of an image map one of whose layers yields no data is not
    rendered, although its markers and overlays were put on a map. When the
    block has an id, immutable markers at positions that are numbers, no
    overlay with a malformed radius or with a unit [convert] does not know,
    and no parameter [coordinates], so that nothing throws before the layers
    are loaded, the block's region shows the error on the layers, the user
    is notified, no view is registered, the documents noted and the saved
    settings are as they were, and so are the maps of the other views. *)
Theorem invalid_layer_aborts_render (now : Z) (source : string) (el : Element)
    (sourcePath : string) (params : Params) (items : ImmutableItems) (st : Plugin) :
  falsy_id (p_id params) = false ->
  positions_are_numbers items = true ->
  existsb malformed_radius (p_overlay params ++ ii_overlays items) = false ->
  units_known (p_overlay params ++ ii_overlays items) = true ->
  p_coordinates params = None ->
  image_of params <> "real" ->
  existsb (fun l => negb (layer_has_data l)) (p_layers params) = true ->
  let st' := postprocessor now source el sourcePath params items st in
  pl_errors st' !! el = Some layers_notice /\
  (pl_notices st' = pl_notices st ++ [loading_notice] \/
   pl_notices st' = pl_notices st ++ [coordinates_notice; loading_notice]) /\
  pl_maps st' = pl_maps st /\
  pl_mapFiles st' = pl_mapFiles st /\
  pl_saved st' = pl_saved st /\
  forall r0 m, pl_heap st !! r0 = Some m -> pl_heap st' !! r0 = Some m.
Proof.
  intros Hid _ Hgood Hunits Hcoords Himage Hbad st'.
  destruct (postprocessor_runs now source el sourcePath params items st
              Hid Hgood Hunits Hcoords)
    as (r & st1 & Hfresh & (Hmaps & Hfiles & Herrs & Hsaved & Hheap & Hnotes) & _ & Hrun).
  assert (Hlayers : layers_ok (image_of params) (p_layers params) = false).
  { unfold layers_ok. apply String.eqb_neq in Himage. rewrite Himage. simpl.
    destruct (forallb layer_has_data (p_layers params)) eqn:Hall; [|reflexivity].
    apply existsb_exists in Hbad as (l & Hl & Hno).
    rewrite forallb_forall in Hall. rewrite (Hall l Hl) in Hno. discriminate. }
  rewrite Hlayers in Hrun. subst st'. rewrite Hrun. simpl.
  split; [apply lookup_insert_eq|]. split.
  - destruct Hnotes as [-> | ->]; [now left | right; now rewrite <- app_assoc].
  - repeat split; try assumption.
    intros r0 m Hm. rewrite Hheap; [exact Hm | congruence].
Qed.

(** Whatever the block, the post-processor keeps the registry such that
    each element shows one view. *)
Theorem postprocessor_keeps_one_view_per_element (now : Z) (source : string)
    (el : Element) (sourcePath : string) (params : Params) (items : ImmutableItems)
    (st : Plugin) :
  one_view_per_element (pl_maps st) ->
  one_view_per_element (pl_maps (postprocessor now source el sourcePath params items st)).
Proof.
  intros Hone. unfold postprocessor, postprocessor_try.
  destruct (falsy_id (p_id params)); [exact Hone|].
  set (image := match p_image params with Some i => i | None => "real" end).
  set (id := match p_id params with Some i => i | None => EmptyString end).
  unfold bind at 1. unfold bind at 1. unfold alloc at 1.
  set (st0 := set_AppData _ st).
  set (r := fresh (dom (pl_heap st0))).
  set (st1 := set_heap _ st0).
  pose proof (keeps_populate image id r params items st1) as [Hmaps _].
  unfold bind at 1.
  destruct (populate image id r params items st1) as [[populated|msg] st2];
    simpl in Hmaps.
  - unfold render_and_register, bind, call. simpl. rewrite Hmaps. simpl.
    now apply register_view_one_per_element.
  - simpl. rewrite Hmaps. exact Hone.
Qed.

End RenderTheorems.

Lemma well_formed_block_is_rendered_witness :
  let st' := postprocessor example_now block_source 10 "Atlas.md" well_formed_block no_items
               views_example in
  falsy_id (p_id well_formed_block) = false /\
  positions_are_numbers no_items = true /\
  existsb malformed_radius (p_overlay well_formed_block ++ ii_overlays no_items) = false /\
  units_known (p_overlay well_formed_block ++ ii_overlays no_items) = true /\
  layers_ok (image_of well_formed_block) (p_layers well_formed_block) = true /\
  exists r,
    pl_heap views_example !! r = None /\
    is_Some (pl_heap st' !! r) /\
    pl_maps st' = register_view (view_for r block_source 10 well_formed_block)
                    (pl_maps views_example) /\
    List.filter (shown_in 10) (pl_maps st') = [view_for r block_source 10 well_formed_block] /\
    pl_mapFiles st' = note_map_file "Atlas.md" "world" (pl_mapFiles views_example) /\
    pl_errors st' = pl_errors views_example /\
    pl_saved st' = Some (pl_AppData st') /\
    (pl_notices st' = pl_notices views_example \/
     pl_notices st' = pl_notices views_example ++ [coordinates_notice]).
Proof.
  intros st'. do 5 (split; [reflexivity|]).
  exact (well_formed_block_is_rendered example_now block_source 10 "Atlas.md"
           well_formed_block no_items views_example
           eq_refl eq_refl eq_refl eq_refl eq_refl eq_refl).
Defined.

Lemma invalid_layer_aborts_render_witness :
  let st' := postprocessor example_now block_source 10 "Atlas.md" image_block no_items
               views_example in
  image_of image_block <> "real" /\
  existsb (fun l => negb (layer_has_data l)) (p_layers image_block) = true /\
  existsb malformed_radius (p_overlay image_block ++ ii_overlays no_items) = false /\
  units_known (p_overlay image_block ++ ii_overlays no_items) = true /\
  pl_errors st' !! 10 = Some layers_notice /\
  (pl_notices st' = pl_notices views_example ++ [loading_notice] \/
   pl_notices st' = pl_notices views_example ++ [coordinates_notice; loading_notice]) /\
  pl_maps st' = pl_maps views_example /\
  pl_mapFiles st' = pl_mapFiles views_example /\
  pl_saved st' = pl_saved views_example /\
  forall r0 m, pl_heap views_example !! r0 = Some m -> pl_heap st' !! r0 = Some m.
Proof.
  intros st'.
  assert (Himage : image_of image_block <> "real") by discriminate.
  split; [exact Himage|]. do 3 (split; [reflexivity|]).
  exact (invalid_layer_aborts_render example_now block_source 10 "Atlas.md" image_block
           no_items views_example eq_refl eq_refl eq_refl eq_refl eq_refl Himage eq_refl).
Defined.

Lemma postprocessor_keeps_one_view_per_element_witness :
  one_view_per_element (pl_maps views_example) /\
  one_view_per_element
    (pl_maps (postprocessor example_now block_source 10 "Atlas.md" well_formed_block no_items
                views_example)).
Proof.
  assert (Hone : one_view_per_element (pl_maps views_example))
    by (repeat constructor; simpl; intuition discriminate).
  split; [exact Hone|].
  exact (postprocessor_keeps_one_view_per_element example_now block_source 10 "Atlas.md"
           well_formed_block no_items views_example Hone).
Defined.

(** ** More on the coordinates *)

Section MoreCoordinateFacts.
Context `{Host}.

(** A percent sign ends a coordinate: what follows the first one is not
    read. *)
Theorem percent_sign_ends_coordinate (s t : string) :
  parse_coordinate (JString (s +:+ String "%" t)) = parse_coordinate (JString s).
Proof.
  unfold parse_coordinate. cbn [template]. f_equal.
  induction s as [|c s IH]; simpl; [reflexivity|].
  destruct (Ascii.eqb c "%"); [reflexivity | now rewrite IH].
Qed.

(** When the latitude and the longitude to be parsed both parse,
    [_getCoordinates] raises no notice and changes nothing; a component is
    the parsed number when its source value is truthy, and the default when
    its source value is falsy, as the number 0 is. *)
Theorem coordinates_that_parse (lat long : jsval) (coordinates : option (list jsval))
    (zoomTag : option string) (m : LeafletMap) (st st1 : Plugin)
    (latitude longitude : jsval) (z : option number) :
  resolve_coordinates lat long coordinates zoomTag m st = (Ok (latitude, longitude, z), st1) ->
  isNaN (parse_coordinate latitude) = false ->
  isNaN (parse_coordinate longitude) = false ->
  exists c0 c1,
    _getCoordinates lat long coordinates zoomTag m st = (Ok ((c0, c1), z), st) /\
    c0 = (if truthy latitude then parse_coordinate latitude else default_latitude m st) /\
    c1 = (if truthy longitude then parse_coordinate longitude else default_longitude m st).
Proof.
  intros Hres Hlat Hlong. pose proof (resolve_coordinates_pure _ _ _ _ _ _ _ _ Hres) as ->.
  unfold _getCoordinates. rewrite (bind_ok _ _ _ _ _ Hres).
  unfold coordinates_or_defaults, bind, Notice, ret, or_default.
  rewrite Hlat, Hlong. simpl. rewrite !orb_false_r.
  unfold default_latitude, default_longitude.
  destruct (lm_type m), (truthy latitude), (truthy longitude); simpl; eauto.
Qed.

(** The centre [_getCoordinates] returns has no component that is not a
    number: always on an image map, and on a real map when the location
    configured in the settings is one. *)
Theorem centre_is_a_number (lat long : jsval) (coordinates : option (list jsval))
    (zoomTag : option string) (m : LeafletMap) (st st1 : Plugin)
    (latitude longitude : jsval) (z : option number) :
  resolve_coordinates lat long coordinates zoomTag m st = (Ok (latitude, longitude, z), st1) ->
  (lm_type m = RealMap ->
   isNaN (ad_lat (pl_AppData st)) = false /\ isNaN (ad_long (pl_AppData st)) = false) ->
  exists c0 c1 st',
    _getCoordinates lat long coordinates zoomTag m st = (Ok ((c0, c1), z), st') /\
    isNaN c0 = false /\ isNaN c1 = false.
Proof.
  intros Hres Hsettings. pose proof (resolve_coordinates_pure _ _ _ _ _ _ _ _ Hres) as ->.
  unfold _getCoordinates. rewrite (bind_ok _ _ _ _ _ Hres).
  unfold coordinates_or_defaults, bind, Notice, ret, or_default.
  assert (Hor : forall v (d : number), isNaN d = false ->
            isNaN (if negb (truthy v) || isNaN (parse_coordinate v)
                   then d else parse_coordinate v) = false).
  { intros v d Hd. destruct (negb (truthy v)); simpl; [exact Hd|].
    destruct (isNaN (parse_coordinate v)) eqn:Hv; [exact Hd | exact Hv]. }
  destruct (isNaN (parse_coordinate latitude) || isNaN (parse_coordinate longitude));
    destruct (lm_type m) eqn:Htype; simpl;
    eexists _, _, _; (split; [reflexivity|]);
    try (split; apply Hor; reflexivity);
    destruct (Hsettings eq_refl) as [Hla Hlo]; split; apply Hor; assumption.
Qed.

End MoreCoordinateFacts.

Lemma coordinates_that_parse_witness :
  resolve_coordinates (JNumber (Num 0)) (JString "12") None None image_map views_example
    = (Ok (JNumber (Num 0), JString "12", None), views_example) /\
  isNaN (parse_coordinate (JNumber (Num 0))) = false /\
  isNaN (parse_coordinate (JString "12")) = false /\
  _getCoordinates (JNumber (Num 0)) (JString "12") None None image_map views_example
    = (Ok ((Num 50, Num 12), None), views_example).
Proof.
  assert (Hlat : isNaN (parse_coordinate (JNumber (Num 0))) = false) by reflexivity.
  assert (Hlong : isNaN (parse_coordinate (JString "12")) = false) by reflexivity.
  split; [reflexivity|]. split; [exact Hlat|]. split; [exact Hlong|].
  destruct (coordinates_that_parse (JNumber (Num 0)) (JString "12") None None image_map
              views_example views_example (JNumber (Num 0)) (JString "12") None
              eq_refl Hlat Hlong) as (c0 & c1 & Hrun & -> & ->).
  exact Hrun.
Defined.

Lemma centre_is_a_number_witness :
  exists c0 c1 st',
    _getCoordinates (JString "north") (JString "12%") None None
      (map_of "world" 11 [] []) views_example = (Ok ((c0, c1), None), st') /\
    isNaN c0 = false /\ isNaN c1 = false.
Proof.
  apply (centre_is_a_number (JString "north") (JString "12%") None None
           (map_of "world" 11 [] []) views_example views_example
           (JString "north") (JString "12%") None eq_refl).
  intros _. split; reflexivity.
Defined.

(** ** More on the external binding watcher *)

Lemma map_update_first {A B : Type} (g : A -> B) (p : A -> bool) (f : A -> A) (l : list A) :
  (forall x, g (f x) = g x) -> map g (update_first p f l) = map g l.
Proof.
  intros Hg. induction l as [|x l IH]; simpl; [reflexivity|].
  destruct (p x); simpl; [now rewrite Hg | now rewrite IH].
Qed.

Lemma filter_update_first_out {A : Type} (p : A -> bool) (f : A -> A) (l : list A) :
  (forall x, p x = true -> p (f x) = true) ->
  List.filter (fun x => negb (p x)) (update_first p f l) =
  List.filter (fun x => negb (p x)) l.
Proof.
  intros Hp. induction l as [|x l IH]; simpl; [reflexivity|].
  destruct (p x) eqn:Hx; simpl.
  - now rewrite (Hp x Hx).
  - now rewrite Hx, IH.
Qed.

Lemma find_filter {A : Type} (p q : A -> bool) (l : list A) :
  (forall x, p x = true -> q x = true) ->
  List.find p (List.filter q l) = List.find p l.
Proof.
  intros Hpq. induction l as [|x l IH]; simpl; [reflexivity|].
  destruct (p x) eqn:Hp.
  - rewrite (Hpq x Hp). simpl. now rewrite Hp.
  - destruct (q x); simpl; [now rewrite Hp|exact IH].
Qed.

Lemma LatLng_equals_refl (a b : Q) :
  LatLng_equals (latLng (Num a) (Num b)) (latLng (Num a) (Num b)) = true.
Proof.
  unfold LatLng_equals. cbn [lat lng]. apply andb_true_iff.
  split; apply Qle_bool_iff; apply (proj2 (Qabs_Qle_condition _ _)); split; lra.
Qed.

Section MoreWatcherFacts.
Context `{Host}.

Lemma insert_declared_keeps_markers (fileId name overlayColor : string)
    (entries : list OverlayEntry) (m : LeafletMap) :
  lm_markers (fst (fst (insert_declared fileId name overlayColor entries m))) = lm_markers m.
Proof.
  revert m. induction entries as [|e entries IH]; intros m; simpl; [reflexivity|].
  destruct (entry_radius e) as [[radius unit]|].
  - destruct (lm_mapLayers m); [reflexivity|]. now rewrite IH.
  - specialize (IH m).
    destruct (insert_declared fileId name overlayColor entries m) as [[m' notes] threw].
    exact IH.
Qed.

Lemma changed_overlays_keeps_markers (fileId name overlayColor : string) (fm : FrontMatter)
    (m : LeafletMap) :
  lm_markers (fst (changed_overlays fileId name overlayColor fm m)) = lm_markers m.
Proof.
  unfold changed_overlays. destruct (fm_mapoverlay fm) as [entries|]; [|reflexivity].
  pose proof (insert_declared_keeps_markers fileId name overlayColor entries
                (set_overlays (List.filter (fun o => id_differs (ov_id o) fileId)
                                           (lm_overlays m)) m)) as Hk.
  destruct (insert_declared _ _ _ _ _) as [[m' notes] threw]. exact Hk.
Qed.

(** The bound marker after the handler read a location of two numbers. *)
Lemma changed_location_moves (fileId name : string) (fm : FrontMatter) (m : LeafletMap)
    (marker : Marker) (a b : Q) :
  getMarkerById m fileId = Some marker ->
  fm_location fm = Some (JArray [JNumber (Num a); JNumber (Num b)]) ->
  exists marker',
    getMarkerById (fst (changed_location fileId name fm m)) fileId = Some marker' /\
    LatLng_equals (mk_loc marker') (latLng (Num a) (Num b)) = true /\
    (LatLng_equals (mk_loc marker) (latLng (Num a) (Num b)) = true -> marker' = marker) /\
    map mk_id (lm_markers (fst (changed_location fileId name fm m)))
    = map mk_id (lm_markers m) /\
    List.filter (fun k => negb (marker_has_id fileId k))
                (lm_markers (fst (changed_location fileId name fm m)))
    = List.filter (fun k => negb (marker_has_id fileId k)) (lm_markers m).
Proof.
  intros Hmarker Hloc. unfold changed_location. rewrite Hmarker, Hloc.
  cbn [isNaN orb].
  destruct (LatLng_equals (mk_loc marker) (latLng (Num a) (Num b))) eqn:Heq.
  - exists marker. repeat split; assumption.
  - exists (setLatLng (latLng (Num a) (Num b)) marker). unfold getMarkerById in *. simpl.
    split; [|split; [|split; [discriminate|split]]].
    + apply find_update_first; [exact Hmarker|].
      apply find_some in Hmarker as [_ Hid]. exact Hid.
    + apply LatLng_equals_refl.
    + now apply map_update_first.
    + now apply filter_update_first_out.
Qed.

(** When a bound document declares a location of two numbers, the
    content-change notification leaves the bound marker at that location,
    within the margin Leaflet compares positions with; the marker is moved
    only when it was farther away, and no other marker is touched. *)
Theorem bound_marker_follows_location (self : ref) (watchers : list (TFile * string))
    (overlayColor : string) (f : TFile) (fileId : string) (fm : FrontMatter)
    (m : LeafletMap) (st : Plugin) (marker : Marker) (a b : Q) :
  watched watchers f = Some fileId ->
  getFileCache st f = Some {| cm_frontmatter := Some fm |} ->
  pl_heap st !! self = Some m ->
  getMarkerById m fileId = Some marker ->
  fm_location fm = Some (JArray [JNumber (Num a); JNumber (Num b)]) ->
  exists m' marker',
    pl_heap (watcher_changed self watchers overlayColor (File f) st) !! self = Some m' /\
    getMarkerById m' fileId = Some marker' /\
    LatLng_equals (mk_loc marker') (latLng (Num a) (Num b)) = true /\
    (LatLng_equals (mk_loc marker) (latLng (Num a) (Num b)) = true -> marker' = marker) /\
    map mk_id (lm_markers m') = map mk_id (lm_markers m) /\
    List.filter (fun k => negb (marker_has_id fileId k)) (lm_markers m')
    = List.filter (fun k => negb (marker_has_id fileId k)) (lm_markers m).
Proof.
  intros Hwatched Hcache Hself Hmarker Hloc.
  unfold watcher_changed. rewrite Hwatched, Hcache, Hself.
  destruct (changed_location_moves fileId (tf_name f) fm m marker a b Hmarker Hloc)
    as (marker' & Hfound & Hat & Hsame & Hids & Hothers).
  destruct (changed_location fileId (tf_name f) fm m) as [located raised].
  cbn [fst] in Hfound, Hids, Hothers.
  pose proof (changed_overlays_keeps_markers fileId (tf_name f) overlayColor fm located)
    as Hkeep.
  destruct (changed_overlays _ _ _ _ _) as [m' notes]. simpl in Hkeep.
  exists m', marker'. simpl. split; [apply lookup_insert_eq|].
  unfold getMarkerById in *. rewrite Hkeep. repeat split; assumption.
Qed.

(** The [try] block on the bound marker raises its notice on a location
    Leaflet refuses, and no other. *)
Lemma changed_location_notices (fileId name : string) (fm : FrontMatter) (m : LeafletMap) :
  snd (changed_location fileId name fm m) =
  if refused_location fileId fm m then [bound_marker_notice name] else [].
Proof.
  unfold changed_location, refused_location.
  destruct (getMarkerById m fileId); [|reflexivity].
  destruct (fm_location fm) as [[| | |[|[| |a|] [|[| |b|] [|]]]]|]; try reflexivity.
  destruct (isNaN a || isNaN b); [reflexivity|].
  now destruct (LatLng_equals _ _).
Qed.

(** On a location Leaflet refuses the bound marker stays where it is. *)
Lemma changed_location_refused (fileId name : string) (fm : FrontMatter) (m : LeafletMap) :
  refused_location fileId fm m = true ->
  changed_location fileId name fm m = (m, [bound_marker_notice name]).
Proof.
  unfold changed_location, refused_location.
  destruct (getMarkerById m fileId); [|discriminate].
  destruct (fm_location fm) as [[| | |[|[| |a|] [|[| |b|] [|]]]]|]; try discriminate.
  now intros ->.
Qed.

(** On a map with a layer, the loop over the declarations raises the
    notice on the length once for each declaration that does not pass the
    guard, and does not throw. *)
Lemma insert_declared_notes (fileId name overlayColor layer : string)
    (layers : list string) (entries : list OverlayEntry) (m : LeafletMap) :
  lm_mapLayers m = layer :: layers ->
  exists m',
    insert_declared fileId name overlayColor entries m =
    (m',
     repeat (bound_length_notice name)
            (length (List.filter (fun e => negb (well_formed_length e)) entries)),
     false).
Proof.
  revert m. induction entries as [|e entries IH]; intros m Hlayers; simpl; [eauto|].
  unfold well_formed_length at 1. destruct (entry_radius e) as [[radius unit]|]; simpl.
  - rewrite Hlayers. now apply IH.
  - destruct (IH m Hlayers) as [m' ->]. eauto.
Qed.

(** A declaration of a bound document whose length does not parse is
    skipped with a notice of its own, on a map that has a layer: the
    notification raises that notice once for each such declaration. Before
    them stands the notice on the bound marker, when the document declares
    a location Leaflet refuses; the notification raises no other notice. *)
Theorem malformed_declaration_is_skipped (self : ref) (watchers : list (TFile * string))
    (overlayColor : string) (f : TFile) (fileId : string) (fm : FrontMatter)
    (entries : list OverlayEntry) (m : LeafletMap) (st : Plugin) :
  watched watchers f = Some fileId ->
  getFileCache st f = Some {| cm_frontmatter := Some fm |} ->
  pl_heap st !! self = Some m ->
  lm_mapLayers m <> [] ->
  fm_mapoverlay fm = Some entries ->
  pl_notices (watcher_changed self watchers overlayColor (File f) st) =
  pl_notices st ++
    (if refused_location fileId fm m then [bound_marker_notice (tf_name f)] else []) ++
    repeat (bound_length_notice (tf_name f))
           (length (List.filter (fun e => negb (well_formed_length e)) entries)).
Proof.
  intros Hwatched Hcache Hself Hlayers Hentries.
  unfold watcher_changed. rewrite Hwatched, Hcache, Hself.
  destruct (changed_location_keeps fileId (tf_name f) fm m) as [_ Hml].
  pose proof (changed_location_notices fileId (tf_name f) fm m) as Hraised.
  destruct (changed_location fileId (tf_name f) fm m) as [located raised].
  cbn [fst snd] in Hml, Hraised. subst raised.
  unfold changed_overlays. rewrite Hentries.
  destruct (lm_mapLayers m) as [|layer layers] eqn:Hm; [congruence|].
  destruct (insert_declared_notes fileId (tf_name f) overlayColor layer layers entries
              (set_overlays
                 (List.filter (fun o => id_differs (ov_id o) fileId) (lm_overlays located))
                 located)) as [m' Hrun]; [exact Hml|].
  rewrite Hrun. simpl. now rewrite app_nil_r.
Qed.

(** On a map without a layer, the loop throws at the first declaration
    that passes the guard, with nothing inserted. *)
Lemma insert_declared_throws (fileId name overlayColor : string)
    (entries : list OverlayEntry) (m : LeafletMap) :
  lm_mapLayers m = [] ->
  existsb well_formed_length entries = true ->
  exists notes,
    insert_declared fileId name overlayColor entries m = (m, notes, true) /\
    forall n, In n notes -> n = bound_length_notice name.
Proof.
  intros Hlayers. induction entries as [|e entries IH]; simpl; [discriminate|].
  unfold well_formed_length at 1. destruct (entry_radius e) as [[radius unit]|]; simpl.
  - intros _. rewrite Hlayers. exists []. split; [reflexivity | intros n []].
  - intros Hex. destruct (IH Hex) as (notes & -> & Hnotes).
    exists (bound_length_notice name :: notes). split; [reflexivity|].
    intros n [<-|Hn]; [reflexivity | now apply Hnotes].
Qed.

(** On a map that has no layer yet, a notification for a bound document
    that declares an overlay whose length parses removes the overlays of
    the document's binding id and inserts none: the insertion fails, and
    the user is told that the overlays could not be updated, after the
    notices on the lengths that do not parse and, when the document
    declares a location Leaflet refuses, the notice on the bound marker. *)
Theorem bound_overlays_lost_without_layer (self : ref) (watchers : list (TFile * string))
    (overlayColor : string) (f : TFile) (fileId : string) (fm : FrontMatter)
    (entries : list OverlayEntry) (m : LeafletMap) (st : Plugin) :
  watched watchers f = Some fileId ->
  getFileCache st f = Some {| cm_frontmatter := Some fm |} ->
  pl_heap st !! self = Some m ->
  lm_mapLayers m = [] ->
  fm_mapoverlay fm = Some entries ->
  existsb well_formed_length entries = true ->
  let st' := watcher_changed self watchers overlayColor (File f) st in
  exists m' notes,
    pl_heap st' !! self = Some m' /\
    lm_overlays m' = List.filter (fun o => id_differs (ov_id o) fileId) (lm_overlays m) /\
    pl_notices st' =
      pl_notices st ++
        (if refused_location fileId fm m then [bound_marker_notice (tf_name f)] else []) ++
        notes ++ [bound_overlays_notice (tf_name f)] /\
    forall n, In n notes -> n = bound_length_notice (tf_name f).
Proof.
  intros Hwatched Hcache Hself Hlayers Hentries Hex st'. subst st'.
  unfold watcher_changed. rewrite Hwatched, Hcache, Hself.
  destruct (changed_location_keeps fileId (tf_name f) fm m) as [Hov Hml].
  pose proof (changed_location_notices fileId (tf_name f) fm m) as Hraised.
  destruct (changed_location fileId (tf_name f) fm m) as [located raised].
  cbn [fst snd] in Hov, Hml, Hraised. subst raised.
  unfold changed_overlays. rewrite Hentries.
  destruct (insert_declared_throws fileId (tf_name f) overlayColor entries
              (set_overlays
                 (List.filter (fun o => id_differs (ov_id o) fileId) (lm_overlays located))
                 located)) as (notes & Hrun & Hnotes);
    [simpl; congruence | exact Hex |].
  rewrite Hrun. eexists _, notes. simpl.
  split; [apply lookup_insert_eq|]. split; [now rewrite Hov|].
  split; [reflexivity|exact Hnotes].
Qed.

Lemma watched_after_delete (watchers : list (TFile * string)) (f g : TFile) :
  watched (watchers_delete watchers f) g =
  if String.eqb (tf_path g) (tf_path f) then None else watched watchers g.
Proof.
  unfold watched, watchers_delete.
  destruct (String.eqb (tf_path g) (tf_path f)) eqn:Hg.
  - apply String.eqb_eq in Hg. rewrite Hg.
    replace (List.find _ (List.filter _ watchers)) with (@None (TFile * string));
      [reflexivity|].
    symmetry. induction watchers as [|w watchers IH]; simpl; [reflexivity|].
    destruct (String.eqb (tf_path (fst w)) (tf_path f)) eqn:Hw; simpl; [exact IH|].
    now rewrite Hw.
  - f_equal. apply find_filter. intros w Hw. apply String.eqb_eq in Hw.
    rewrite Hw, Hg. reflexivity.
Qed.

(** When a bound document is deleted, the map keeps no overlay of the
    document's binding id, the overlays of other ids are those the removal
    of the bound marker left, and the document is bound no more: the other
    documents are bound as they were, and a later content-change
    notification for the deleted document changes nothing. *)
Theorem deleted_document_is_unbound
    (removeMarker : LeafletMap -> option Marker -> LeafletMap)
    (self : ref) (watchers : list (TFile * string)) (overlayColor : string)
    (f : TFile) (fileId : string) (m : LeafletMap) (st : Plugin) :
  watched watchers f = Some fileId ->
  pl_heap st !! self = Some m ->
  let watchers' := fst (watcher_deleted removeMarker self watchers (File f) st) in
  let st' := snd (watcher_deleted removeMarker self watchers (File f) st) in
  (exists m',
     pl_heap st' !! self = Some m' /\
     List.filter (tagged fileId) (lm_overlays m') = [] /\
     List.filter (fun o => id_differs (ov_id o) fileId) (lm_overlays m') =
     List.filter (fun o => id_differs (ov_id o) fileId)
                 (lm_overlays (removeMarker m (getMarkerById m fileId)))) /\
  watched watchers' f = None /\
  (forall g, tf_path g <> tf_path f -> watched watchers' g = watched watchers g) /\
  watcher_changed self watchers' overlayColor (File f) st' = st'.
Proof.
  intros Hwatched Hself watchers' st'. subst watchers' st'.
  unfold watcher_deleted. rewrite Hwatched, Hself. cbn [fst snd].
  assert (Hgone : watched (watchers_delete watchers f) f = None).
  { rewrite watched_after_delete. now rewrite String.eqb_refl. }
  split; [|split; [exact Hgone|split]].
  - eexists. simpl. split; [apply lookup_insert_eq|]. simpl. split.
    + apply filter_none. intros o Ho. apply filter_In in Ho as [_ Ho].
      unfold tagged. now rewrite Ho.
    + apply filter_idem.
  - intros g Hg. rewrite watched_after_delete.
    apply String.eqb_neq in Hg. now rewrite Hg.
  - unfold watcher_changed. now rewrite Hgone.
Qed.

End MoreWatcherFacts.

Lemma bound_marker_follows_location_witness :
  exists m' marker',
    pl_heap (watcher_changed 1 [(town, "town")] "blue" (File town) located_example) !! 1
      = Some m' /\
    getMarkerById m' "town" = Some marker' /\
    LatLng_equals (mk_loc marker') (latLng (Num 3) (Num 4)) = true /\
    (LatLng_equals (mk_loc (marker_at "town" 1 1)) (latLng (Num 3) (Num 4)) = true ->
     marker' = marker_at "town" 1 1) /\
    map mk_id (lm_markers m') = ["town"; "m1"] /\
    List.filter (fun k => negb (marker_has_id "town" k)) (lm_markers m')
    = [marker_at "m1" 5 5].
Proof.
  exact (bound_marker_follows_location 1 [(town, "town")] "blue" town "town" town_located
           (map_of "world" 11 [marker_at "town" 1 1; marker_at "m1" 5 5] [])
           located_example (marker_at "town" 1 1) 3 4
           eq_refl eq_refl eq_refl eq_refl eq_refl).
Defined.

Lemma malformed_declaration_is_skipped_witness :
  lm_mapLayers (map_of "world" 11 [marker_at "town" 1 1; marker_at "m1" 5 5] []) <> [] /\
  pl_notices (watcher_changed 1 [(town, "town")] "blue" (File town) located_example)
  = [bound_length_notice "Town.md"].
Proof.
  assert (Hlayers : lm_mapLayers (map_of "world" 11 [marker_at "town" 1 1; marker_at "m1" 5 5] [])
                    <> []) by discriminate.
  split; [exact Hlayers|].
  exact (malformed_declaration_is_skipped 1 [(town, "town")] "blue" town "town" town_located
           _ (map_of "world" 11 [marker_at "town" 1 1; marker_at "m1" 5 5] [])
           located_example eq_refl eq_refl eq_refl Hlayers eq_refl).
Defined.

(** On a location whose latitude is [NaN] the bound marker stays where it
    is and the user is told that it could not be updated, before the notice
    on the length that does not parse. *)
Example refused_location_leaves_marker :
  let st' := watcher_changed 1 [(town, "town")] "blue" (File town) refused_example in
  option_map (fun m => map mk_loc (lm_markers m)) (pl_heap st' !! 1)
    = Some [latLng (Num 1) (Num 1); latLng (Num 5) (Num 5)] /\
  pl_notices st' = [bound_marker_notice "Town.md"; bound_length_notice "Town.md"].
Proof. split; vm_compute; reflexivity. Qed.

Lemma bound_overlays_lost_without_layer_witness :
  let st' := watcher_changed 1 [(town, "town")] "blue" (File town) unlayered_example in
  existsb well_formed_length
    (match fm_mapoverlay (town_declares ["abc"; "5 m"]) with Some l => l | None => [] end)
    = true /\
  exists m' notes,
    pl_heap st' !! 1 = Some m' /\
    lm_overlays m' = [] /\
    pl_notices st' = notes ++ [bound_overlays_notice "Town.md"] /\
    forall n, In n notes -> n = bound_length_notice "Town.md".
Proof.
  intros st'. split; [reflexivity|].
  exact (bound_overlays_lost_without_layer 1 [(town, "town")] "blue" town "town"
           (town_declares ["abc"; "5 m"]) _
           (default image_map (pl_heap unlayered_example !! 1))
           unlayered_example eq_refl eq_refl eq_refl eq_refl eq_refl eq_refl).
Defined.

Lemma deleted_document_is_unbound_witness :
  let bound := watcher_changed 1 [(town, "town")] "blue" (File town) bound_example in
  let watchers' :=
    fst (watcher_deleted example_removeMarker 1 [(town, "town")] (File town) bound) in
  let st' :=
    snd (watcher_deleted example_removeMarker 1 [(town, "town")] (File town) bound) in
  (exists m, pl_heap bound !! 1 = Some m /\
             length (List.filter (tagged "town") (lm_overlays m)) = 2%nat) /\
  (exists m', pl_heap st' !! 1 = Some m' /\
              List.filter (tagged "town") (lm_overlays m') = []) /\
  watched watchers' town = None /\
  watcher_changed 1 watchers' "blue" (File town) st' = st'.
Proof.
  intros bound watchers' st'. split.
  { eexists. split; [vm_compute; reflexivity|]. reflexivity. }
  assert (Hheap : pl_heap bound !! 1 = Some (default image_map (pl_heap bound !! 1)))
    by (vm_compute; reflexivity).
  destruct (deleted_document_is_unbound example_removeMarker 1 [(town, "town")] "blue"
              town "town" (default image_map (pl_heap bound !! 1)) bound eq_refl Hheap)
    as ((m' & Hm' & Hnone & _) & Hgone & _ & Hlater).
  split; [exists m'; split; assumption|]. split; assumption.
Defined.

(** ** What a render leaves alone *)

Section Leaves.
Context `{Host} {B : Type} (part : Plugin -> B).

(** The part is not of the map objects, of the notices or of the count of
    ids drawn. *)
Hypothesis part_heap : forall h st, part (set_heap h st) = part st.
Hypothesis part_notices : forall l st, part (add_notices l st) = part st.
Hypothesis part_ids : forall st, part (snd (draw_id st)) = part st.

Lemma leaves_ret {A : Type} (a : A) : leaves part (ret a).
Proof. intros st. reflexivity. Qed.

Lemma leaves_throw {A : Type} (msg : string) : leaves part (@throw A msg).
Proof. intros st. reflexivity. Qed.

Lemma leaves_Notice (msg : string) : leaves part (Notice msg).
Proof. intros st. apply part_notices. Qed.

Lemma leaves_pure {A : Type} (f : Plugin -> A) : leaves part (fun st => (Ok (f st), st)).
Proof. intros st. reflexivity. Qed.

Lemma leaves_bind {A C : Type} (c : M A) (k : A -> M C) :
  leaves part c -> (forall a, leaves part (k a)) -> leaves part (bind c k).
Proof.
  intros Hc Hk st. unfold bind. specialize (Hc st).
  destruct (c st) as [[a|msg] st1]; simpl in *; [|exact Hc].
  rewrite (Hk a st1). exact Hc.
Qed.

Lemma leaves_call (r : ref) (f : LeafletMap -> LeafletMap) : leaves part (call r f).
Proof. intros st. apply part_heap. Qed.

Lemma leaves_forM {A : Type} (f : A -> M unit) (l : list A) :
  (forall x, leaves part (f x)) -> leaves part (forM f l).
Proof.
  intros Hf. induction l as [|x l IH]; simpl; [apply leaves_ret|].
  apply leaves_bind; auto.
Qed.

Lemma leaves_mapM {A C : Type} (f : A -> M C) (l : list A) :
  (forall x, leaves part (f x)) -> leaves part (mapM f l).
Proof.
  intros Hf. induction l as [|x l IH]; simpl; [apply leaves_ret|].
  apply leaves_bind; [auto|]. intros y.
  apply leaves_bind; [exact IH|]. intros ys. apply leaves_ret.
Qed.

Lemma leaves_draw_id : leaves part draw_id.
Proof. exact part_ids. Qed.

Lemma leaves_read (r : ref) : leaves part (read r).
Proof. intros st. unfold read. now destruct (pl_heap st !! r). Qed.

Create HintDb leaves.
#[local] Hint Resolve leaves_ret leaves_throw leaves_Notice leaves_pure leaves_call
  leaves_draw_id leaves_read : leaves.

(** Through a computation along its sequencing, loops and branches. *)
Ltac leaves_through :=
  repeat first
    [ solve [auto with leaves]
    | apply leaves_bind; [|intros ?]
    | apply leaves_forM; intros ?
    | apply leaves_mapM; intros ?
    | match goal with
      | |- leaves _ (match ?x with _ => _ end) => destruct x
      | |- leaves _ (if ?x then _ else _) => destruct x
      end ].

Lemma leaves_overlay_tuple (o : RawOverlay) : leaves part (overlay_tuple o).
Proof. unfold overlay_tuple. leaves_through. Qed.

Lemma leaves__getCoordinates (lat long : jsval) (coordinates : option (list jsval))
    (zoomTag : option string) (m : LeafletMap) :
  leaves part (_getCoordinates lat long coordinates zoomTag m).
Proof.
  unfold _getCoordinates, coordinates_or_defaults.
  apply leaves_bind.
  - intros st.
    destruct (resolve_coordinates lat long coordinates zoomTag m st) as [o st1] eqn:Hres.
    now apply resolve_coordinates_pure in Hres as ->.
  - intros [[latitude longitude] z]. leaves_through.
    intros st. now destruct (lm_type m).
Qed.

Lemma leaves_sort_overlays (l : list OverlayTuple) : leaves part (sort_overlays l).
Proof. intros st. now rewrite sort_overlays_pure. Qed.

#[local] Hint Resolve leaves_overlay_tuple leaves_sort_overlays leaves__getCoordinates
  : leaves.

(** The markers and overlays of a block are put on its map, its centre
    computed and its data loaded with the part left alone. *)
Lemma leaves_populate (image id : string) (r : ref) (params : Params)
    (items : ImmutableItems) :
  leaves part (populate image id r params items).
Proof.
  unfold populate, create_immutable, insert_overlays, insert_overlays_with, load_layers.
  leaves_through.
Qed.

End Leaves.

(** ** The documents that embed a map *)

Lemma map_file_update_first (oldPath newPath : string) (l : list MapFile) (p : string) :
  In p (map mf_file
          (update_first (fun mf => String.eqb (mf_file mf) oldPath)
             (fun mf => {| mf_file := newPath; mf_maps := mf_maps mf |}) l)) ->
  In p (map mf_file l) \/ p = newPath.
Proof.
  induction l as [|x l IH]; simpl; [tauto|].
  destruct (String.eqb (mf_file x) oldPath); simpl; intuition.
Qed.

Lemma update_first_wf (oldPath newPath : string) (l : list MapFile) :
  mapFiles_wf l -> ~ In newPath (map mf_file l) ->
  mapFiles_wf (update_first (fun mf => String.eqb (mf_file mf) oldPath)
                 (fun mf => {| mf_file := newPath; mf_maps := mf_maps mf |}) l).
Proof.
  unfold mapFiles_wf. induction l as [|x l IH]; simpl; intros Hnd Hnew; [constructor|].
  apply List.NoDup_cons_iff in Hnd as [Hx Hnd].
  destruct (String.eqb (mf_file x) oldPath); simpl.
  - apply List.NoDup_cons_iff. split; [tauto | exact Hnd].
  - apply List.NoDup_cons_iff. split; [|apply IH; tauto].
    intros Hin. apply map_file_update_first in Hin as [Hin | Heq]; [tauto|].
    apply Hnew. now left.
Qed.

Lemma note_map_file_wf (sourcePath id : string) (l : list MapFile) :
  mapFiles_wf l -> mapFiles_wf (note_map_file sourcePath id l).
Proof.
  unfold mapFiles_wf, note_map_file. intros Hnd.
  destruct (existsb _ l) eqn:Hex.
  - rewrite map_update_first; [exact Hnd | reflexivity].
  - rewrite map_app. simpl. apply List.NoDup_app; [exact Hnd | |].
    + repeat constructor. intros [].
    + intros p Hp [<-|[]]. apply in_map_iff in Hp as (mf & Hmf & Hin).
      assert (Hex' : existsb (fun mf => String.eqb (mf_file mf) sourcePath) l = true)
        by (apply existsb_exists; exists mf; split; [exact Hin | now apply String.eqb_eq]).
      congruence.
Qed.

(** Under one entry per document, the documents that embed a map after
    the renaming of one of them. *)
Lemma files_embedding_renamed (oldPath newPath id : string) (l : list MapFile) :
  mapFiles_wf l ->
  files_embedding
    (update_first (fun mf => String.eqb (mf_file mf) oldPath)
       (fun mf => {| mf_file := newPath; mf_maps := mf_maps mf |}) l) id
  = map (renamed oldPath newPath) (files_embedding l id).
Proof.
  unfold mapFiles_wf, files_embedding. induction l as [|x l IH]; simpl; intros Hnd;
    [reflexivity|].
  apply List.NoDup_cons_iff in Hnd as [Hx Hnd].
  destruct (String.eqb (mf_file x) oldPath) eqn:Hold; simpl.
  - assert (Hrest : map (renamed oldPath newPath)
                      (map mf_file (List.filter (fun mf => existsb (String.eqb id) (mf_maps mf)) l))
                    = map mf_file (List.filter (fun mf => existsb (String.eqb id) (mf_maps mf)) l)).
    { rewrite <- (map_id (map mf_file _)) at 2. apply map_ext_in.
      intros p Hp. unfold renamed. destruct (String.eqb p oldPath) eqn:Hp'; [|reflexivity].
      exfalso. apply Hx. apply String.eqb_eq in Hp', Hold. subst p. rewrite Hold.
      apply in_map_iff in Hp as (mf & Hmf & Hin). apply filter_In in Hin as [Hin _].
      apply in_map_iff. eauto. }
    destruct (existsb (String.eqb id) (mf_maps x)); simpl; rewrite Hrest;
      [unfold renamed; now rewrite Hold | reflexivity].
  - destruct (existsb (String.eqb id) (mf_maps x)); simpl; rewrite (IH Hnd);
      [unfold renamed; now rewrite Hold | reflexivity].
Qed.

Section EmbeddingFacts.
Context `{Host}.

(** A save cycle after which a record carries the id of a registered view:
    the record is the one freshly built for a view of that id. *)
Lemma saved_record_of_view (st : Plugin) (now : Z) (rec : IMapMarkerData)
    (m : IMapInterface) :
  In rec (ad_mapMarkers (pl_AppData (saveSettings st now))) ->
  In m (pl_maps st) ->
  rd_id rec = Some (mi_id m) ->
  exists w, In w (pl_maps st) /\ mi_id w = mi_id m /\ rec = fresh_record st now w.
Proof.
  intros Hrec Hm Hid.
  assert (Hf : In rec (List.filter (has_id (mi_id m))
                         (ad_mapMarkers (pl_AppData (saveSettings st now))))).
  { apply filter_In. split; [exact Hrec | now apply has_id_spec]. }
  rewrite saved_records_of_id in Hf. unfold merge_active in Hf.
  rewrite merge_active_by_id in Hf.
  destruct (last_writer_in _ _ Hm) as [w Hw]. rewrite Hw in Hf.
  apply filter_In in Hf as [Hf _]. apply filter_In in Hf as [Hf _].
  destruct Hf as [<-|[]]. exists w. unfold last_writer in Hw.
  apply find_some in Hw as [Hin Heq]. apply in_rev in Hin.
  apply String.eqb_eq in Heq. auto.
Qed.

(** Whatever the block, the post-processor keeps [this.mapFiles] with one
    entry for each document. *)
Theorem postprocessor_keeps_one_entry_per_document (now : Z) (source : string)
    (el : Element) (sourcePath : string) (params : Params) (items : ImmutableItems)
    (st : Plugin) :
  mapFiles_wf (pl_mapFiles st) ->
  mapFiles_wf (pl_mapFiles (postprocessor now source el sourcePath params items st)).
Proof.
  intros Hwf. unfold postprocessor, postprocessor_try.
  destruct (falsy_id (p_id params)); [exact Hwf|].
  set (image := match p_image params with Some i => i | None => "real" end).
  set (id := match p_id params with Some i => i | None => EmptyString end).
  unfold bind at 1. unfold bind at 1. unfold alloc at 1.
  set (st0 := set_AppData _ st).
  set (r := fresh (dom (pl_heap st0))).
  set (st1 := set_heap _ st0).
  pose proof (leaves_populate pl_mapFiles (fun _ _ => eq_refl) (fun _ _ => eq_refl)
                (fun _ => eq_refl) image id r params items st1) as Hfiles.
  unfold bind at 1.
  destruct (populate image id r params items st1) as [[populated|msg] st2];
    simpl in Hfiles.
  - unfold render_and_register, bind, call. simpl. rewrite Hfiles. simpl.
    now apply note_map_file_wf.
  - simpl. rewrite Hfiles. exact Hwf.
Qed.

(** The handlers of the vault's events keep [this.mapFiles] with one entry
    for each document: the deletion of a document always, the renaming of
    one when the new path has no entry yet. *)
Theorem vault_events_keep_one_entry_per_document (file : option TAbstractFile)
    (oldPath : string) (now : Z) (st : Plugin) :
  mapFiles_wf (pl_mapFiles st) ->
  mapFiles_wf (pl_mapFiles (vault_delete file now st)) /\
  ((forall f, file = Some f -> ~ In (path_of f) (map mf_file (pl_mapFiles st))) ->
   mapFiles_wf (pl_mapFiles (vault_rename file oldPath now st))).
Proof.
  intros Hwf. split.
  - unfold vault_delete. destruct file as [f|]; [|exact Hwf].
    destruct (existsb _ (pl_mapFiles st)); [|exact Hwf].
    simpl. now apply NoDup_map_filter.
  - intros Hnew. unfold vault_rename. destruct file as [f|]; [|exact Hwf].
    destruct (existsb _ (pl_mapFiles st)); [|exact Hwf].
    simpl. apply update_first_wf; [exact Hwf | now apply Hnew].
Qed.

(** When a document that embeds maps is deleted, its entry is dropped and
    the settings are saved with the records of the displayed maps not
    listing it any more; the deletion of any other file or folder changes
    nothing, and nothing is saved. *)
Theorem deleted_document_is_unlisted (file : TAbstractFile) (now : Z) (st : Plugin) :
  let listed := existsb (fun mf => String.eqb (mf_file mf) (path_of file)) (pl_mapFiles st) in
  let st' := vault_delete (Some file) now st in
  (listed = false -> st' = st) /\
  (listed = true ->
   (forall mf, In mf (pl_mapFiles st') -> mf_file mf <> path_of file) /\
   pl_saved st' = Some (pl_AppData st') /\
   forall rec m,
     In rec (ad_mapMarkers (pl_AppData st')) -> In m (pl_maps st) ->
     rd_id rec = Some (mi_id m) -> ~ In (path_of file) (rd_files rec)).
Proof.
  intros listed st'. subst listed st'. unfold vault_delete. split.
  - now intros ->.
  - intros ->.
    set (st1 := set_mapFiles _ st).
    assert (Hgone : forall mf, In mf (pl_mapFiles st1) -> mf_file mf <> path_of file).
    { intros mf Hmf. subst st1. simpl in Hmf. apply filter_In in Hmf as [_ Hmf].
      apply negb_true_iff in Hmf. now apply String.eqb_neq in Hmf. }
    split; [exact Hgone|]. split; [reflexivity|].
    intros rec m Hrec Hm Hid.
    destruct (saved_record_of_view st1 now rec m Hrec Hm Hid) as (w & _ & _ & ->).
    simpl. unfold files_embedding. intros Hin.
    apply in_map_iff in Hin as (mf & Hmf & Hin). apply filter_In in Hin as [Hin _].
    now apply (Hgone mf Hin).
Qed.

(** When a document that embeds maps is renamed, the records of the
    displayed maps are saved with the new path in the place of the old
    one, under one entry for each document. *)
Theorem renamed_document_is_followed (file : TAbstractFile) (oldPath : string) (now : Z)
    (st : Plugin) :
  mapFiles_wf (pl_mapFiles st) ->
  existsb (fun mf => String.eqb (mf_file mf) oldPath) (pl_mapFiles st) = true ->
  let st' := vault_rename (Some file) oldPath now st in
  pl_saved st' = Some (pl_AppData st') /\
  (forall id, files_embedding (pl_mapFiles st') id =
              map (renamed oldPath (path_of file)) (files_embedding (pl_mapFiles st) id)) /\
  forall rec m,
    In rec (ad_mapMarkers (pl_AppData st')) -> In m (pl_maps st) ->
    rd_id rec = Some (mi_id m) ->
    rd_files rec =
    map (renamed oldPath (path_of file)) (files_embedding (pl_mapFiles st) (mi_id m)).
Proof.
  intros Hwf Hlisted st'. subst st'. unfold vault_rename. rewrite Hlisted.
  set (st1 := set_mapFiles _ st).
  assert (Hfiles : forall id, files_embedding (pl_mapFiles st1) id =
            map (renamed oldPath (path_of file)) (files_embedding (pl_mapFiles st) id)).
  { intros id. subst st1. simpl. now apply files_embedding_renamed. }
  split; [reflexivity|]. split; [exact Hfiles|].
  intros rec m Hrec Hm Hid.
  destruct (saved_record_of_view st1 now rec m Hrec Hm Hid) as (w & _ & Hw & ->).
  simpl. rewrite Hw. apply Hfiles.
Qed.

End EmbeddingFacts.

Lemma postprocessor_keeps_one_entry_per_document_witness :
  mapFiles_wf (pl_mapFiles embedded_example) /\
  mapFiles_wf
    (pl_mapFiles (postprocessor example_now block_source 10 "Atlas.md" well_formed_block
                    no_items embedded_example)).
Proof.
  assert (Hwf : mapFiles_wf (pl_mapFiles embedded_example))
    by (repeat constructor; simpl; intuition discriminate).
  split; [exact Hwf|].
  exact (postprocessor_keeps_one_entry_per_document example_now block_source 10 "Atlas.md"
           well_formed_block no_items embedded_example Hwf).
Defined.

Lemma vault_events_keep_one_entry_per_document_witness :
  mapFiles_wf (pl_mapFiles embedded_example) /\
  mapFiles_wf (pl_mapFiles (vault_delete (Some (File atlas_moved)) example_now embedded_example)) /\
  mapFiles_wf
    (pl_mapFiles (vault_rename (Some (File atlas_moved)) "Atlas.md" example_now
                    embedded_example)).
Proof.
  assert (Hwf : mapFiles_wf (pl_mapFiles embedded_example))
    by (repeat constructor; simpl; intuition discriminate).
  split; [exact Hwf|].
  destruct (vault_events_keep_one_entry_per_document (Some (File atlas_moved)) "Atlas.md"
              example_now embedded_example Hwf) as [Hdelete Hrename].
  split; [exact Hdelete|]. apply Hrename.
  intros f [= <-]. simpl. intuition discriminate.
Defined.

Lemma deleted_document_is_unlisted_witness :
  let st' := vault_delete (Some (File atlas)) example_now embedded_example in
  existsb (fun mf => String.eqb (mf_file mf) "Atlas.md") (pl_mapFiles embedded_example) = true /\
  (forall mf, In mf (pl_mapFiles st') -> mf_file mf <> "Atlas.md") /\
  pl_saved st' = Some (pl_AppData st') /\
  forall rec m,
    In rec (ad_mapMarkers (pl_AppData st')) -> In m (pl_maps embedded_example) ->
    rd_id rec = Some (mi_id m) -> ~ In "Atlas.md" (rd_files rec).
Proof.
  intros st'. split; [reflexivity|].
  exact (proj2 (deleted_document_is_unlisted (File atlas) example_now embedded_example)
           eq_refl).
Defined.

Lemma renamed_document_is_followed_witness :
  let st' := vault_rename (Some (File atlas_moved)) "Atlas.md" example_now embedded_example in
  mapFiles_wf (pl_mapFiles embedded_example) /\
  pl_saved st' = Some (pl_AppData st') /\
  (forall id, files_embedding (pl_mapFiles st') id =
              map (renamed "Atlas.md" "Maps/Atlas.md")
                  (files_embedding (pl_mapFiles embedded_example) id)) /\
  forall rec m,
    In rec (ad_mapMarkers (pl_AppData st')) -> In m (pl_maps embedded_example) ->
    rd_id rec = Some (mi_id m) ->
    rd_files rec =
    map (renamed "Atlas.md" "Maps/Atlas.md")
        (files_embedding (pl_mapFiles embedded_example) (mi_id m)).
Proof.
  intros st'.
  assert (Hwf : mapFiles_wf (pl_mapFiles embedded_example))
    by (repeat constructor; simpl; intuition discriminate).
  split; [exact Hwf|].
  exact (renamed_document_is_followed (File atlas_moved) "Atlas.md" example_now
           embedded_example Hwf eq_refl).
Defined.

(** The record of the displayed map "world" after "Atlas.md" was moved. *)
Example renamed_document_in_the_store :
  map rd_files
    (ad_mapMarkers
       (pl_AppData (vault_rename (Some (File atlas_moved)) "Atlas.md" example_now
                      embedded_example)))
  = [["Maps/Atlas.md"; "Notes.md"]].
Proof. vm_compute. reflexivity. Qed.

(** ** More on the cross-view marker events *)

Lemma update_first_idem {A : Type} (p : A -> bool) (f : A -> A) (l : list A) :
  (forall x, p x = true -> p (f x) = true) ->
  (forall x, f (f x) = f x) ->
  update_first p f (update_first p f l) = update_first p f l.
Proof.
  intros Hp Hf. induction l as [|x l IH]; simpl; [reflexivity|].
  destruct (p x) eqn:Hx; simpl.
  - now rewrite (Hp x Hx), Hf.
  - now rewrite Hx, IH.
Qed.

(** A round of calls on the maps of some views keeps of each map what
    each call keeps. *)
Lemma broadcast_preserves {B : Type} (g : LeafletMap -> B) (f : LeafletMap -> LeafletMap)
    (l : list IMapInterface) (h : gmap ref LeafletMap) (r : ref) :
  (forall m, g (f m) = g m) ->
  g <$> fold_left (fun h v => alter f (mi_map v) h) l h !! r = g <$> h !! r.
Proof.
  intros Hg. revert h. induction l as [|x l IH]; intros h; simpl; [reflexivity|].
  rewrite IH. destruct (decide (mi_map x = r)) as [->|Hne].
  - rewrite lookup_alter_eq. destruct (h !! r); simpl; [now rewrite Hg | reflexivity].
  - now rewrite lookup_alter_ne.
Qed.

(** Calls that are idempotent make an idempotent round. *)
Lemma broadcast_idem (f : LeafletMap -> LeafletMap) (l : list IMapInterface)
    (h : gmap ref LeafletMap) :
  (forall m, f (f m) = f m) ->
  fold_left (fun h v => alter f (mi_map v) h) l
    (fold_left (fun h v => alter f (mi_map v) h) l h)
  = fold_left (fun h v => alter f (mi_map v) h) l h.
Proof.
  intros Hf.
  assert (Hone : forall (l : list IMapInterface) (h : gmap ref LeafletMap) (r : ref),
            fold_left (fun h v => alter f (mi_map v) h) l h !! r = h !! r \/
            fold_left (fun h v => alter f (mi_map v) h) l h !! r = f <$> h !! r).
  { clear l h. induction l as [|x l IH]; intros h r; simpl; [now left|].
    destruct (decide (mi_map x = r)) as [->|Hne].
    - right. destruct (IH (alter f r h) r) as [-> | ->]; rewrite lookup_alter_eq;
        [reflexivity|]. destruct (h !! r); simpl; [now rewrite Hf | reflexivity].
    - destruct (IH (alter f (mi_map x) h) r) as [-> | ->];
        rewrite lookup_alter_ne by exact Hne; auto. }
  assert (Hself : forall (l : list IMapInterface) (h : gmap ref LeafletMap) (r : ref),
            In r (map mi_map l) ->
            fold_left (fun h v => alter f (mi_map v) h) l h !! r = f <$> h !! r).
  { clear l h. induction l as [|x l IH]; intros h r; simpl; [tauto|].
    destruct (decide (mi_map x = r)) as [->|Hne]; intros Hin.
    - destruct (Hone l (alter f r h) r) as [-> | ->]; rewrite lookup_alter_eq;
        [reflexivity|]. destruct (h !! r); simpl; [now rewrite Hf | reflexivity].
    - destruct Hin as [Heq|Hin]; [congruence|].
      rewrite (IH _ _ Hin). now rewrite lookup_alter_ne. }
  apply map_eq. intros r.
  destruct (in_dec Nat.eq_dec r (map mi_map l)) as [Hin|Hout].
  - rewrite !(Hself _ _ _ Hin). destruct (h !! r); simpl; [now rewrite Hf | reflexivity].
  - apply broadcast_misses. intros v Hv Heq. apply Hout. rewrite <- Heq. now apply in_map.
Qed.

Section MoreMapEventFacts.
Context `{Host}.

Lemma follow_idem (marker existing : Marker) :
  follow marker (follow marker existing) = follow marker existing.
Proof. reflexivity. Qed.

Lemma drag_in_undragged (marker : Marker) (m : LeafletMap) :
  undragged (mk_id marker) (drag_in marker m) = undragged (mk_id marker) m.
Proof.
  unfold drag_in, undragged.
  destruct (List.find _ (lm_markers m)); [|reflexivity]. simpl.
  rewrite map_update_first by reflexivity.
  rewrite filter_update_first_out by (intros x Hx; exact Hx). reflexivity.
Qed.

Lemma drag_in_idem (marker : Marker) (m : LeafletMap) :
  drag_in marker (drag_in marker m) = drag_in marker m.
Proof.
  unfold drag_in.
  destruct (List.find _ (lm_markers m)) as [existing|] eqn:Hfind.
  - simpl.
    rewrite (find_update_first _ (follow marker) _ existing Hfind)
      by (apply find_some in Hfind as [_ Hid]; exact Hid).
    unfold set_markers. simpl. f_equal.
    apply update_first_idem; [intros x Hx; exact Hx | intros x; apply follow_idem].
  - now rewrite Hfind.
Qed.

(** The siblings of a view are the same after a round that keeps the
    elements of the maps. *)
Lemma siblings_after_round (f : LeafletMap -> LeafletMap) (st : Plugin)
    (origin origin' : LeafletMap) (l : list IMapInterface) :
  (forall m, lm_contentEl (f m) = lm_contentEl m) ->
  lm_id origin' = lm_id origin ->
  lm_contentEl origin' = lm_contentEl origin ->
  siblings (set_heap (fold_left (fun h v => alter f (mi_map v) h) l (pl_heap st)) st) origin'
  = siblings st origin.
Proof.
  intros Hel Hid Hc. unfold siblings. simpl. apply List.filter_ext. intros v.
  unfold is_sibling. rewrite Hid, Hc. f_equal.
  pose proof (broadcast_preserves lm_contentEl f l (pl_heap st) (mi_map v) Hel) as Hp.
  destruct (fold_left _ l (pl_heap st) !! mi_map v) as [m'|],
           (pl_heap st !! mi_map v) as [m|]; simpl in Hp; congruence.
Qed.

(** While a marker is dragged, no view gains or loses a marker: on every
    map the ids of the markers, the markers of other ids, the overlays and
    the element are as they were, and nothing is saved or registered. *)
Theorem marker_dragging_keeps_the_markers (self : ref) (marker : Marker) (st : Plugin)
    (r : ref) :
  let st' := on_marker_dragging self marker st in
  undragged (mk_id marker) <$> pl_heap st' !! r
    = undragged (mk_id marker) <$> pl_heap st !! r /\
  pl_AppData st' = pl_AppData st /\
  pl_saved st' = pl_saved st /\
  pl_maps st' = pl_maps st /\
  pl_mapFiles st' = pl_mapFiles st.
Proof.
  intros st'. subst st'. unfold on_marker_dragging.
  destruct (pl_heap st !! self) as [origin|]; [|tauto].
  simpl. split; [|tauto].
  apply broadcast_preserves. intros m. apply drag_in_undragged.
Qed.

(** The notification of a dragged marker is idempotent: handling it again
    for the same position changes nothing. *)
Theorem marker_dragging_is_idempotent (self : ref) (marker : Marker) (st : Plugin) :
  on_marker_dragging self marker (on_marker_dragging self marker st)
  = on_marker_dragging self marker st.
Proof.
  unfold on_marker_dragging at 2 3.
  destruct (pl_heap st !! self) as [origin|] eqn:Hself;
    [|unfold on_marker_dragging; now rewrite Hself].
  assert (Hkeeps : forall m, (lm_id (drag_in marker m), lm_contentEl (drag_in marker m))
                             = (lm_id m, lm_contentEl m)).
  { intros m. unfold drag_in. now destruct (List.find _ (lm_markers m)). }
  pose proof (broadcast_preserves (fun m => (lm_id m, lm_contentEl m)) (drag_in marker)
                (siblings st origin) (pl_heap st) self Hkeeps) as Hp.
  rewrite Hself in Hp. unfold on_marker_dragging. cbn [pl_heap set_heap].
  destruct (fold_left _ (siblings st origin) (pl_heap st) !! self) as [origin'|];
    simpl in Hp; [|discriminate].
  injection Hp as Hid Hc.
  rewrite (siblings_after_round (drag_in marker) st origin origin')
    by (try assumption; intros m; unfold drag_in; now destruct (List.find _ (lm_markers m))).
  unfold set_heap. simpl. f_equal.
  apply broadcast_idem. apply drag_in_idem.
Qed.

(** When the data of a marker is updated on the map of a registered view,
    the settings are saved first, from the maps as they are, and then the
    copies of the marker follow it: a sibling view that holds a marker of
    its id has it at the marker's position, and every other view has its
    map as the save left it. *)
Theorem marker_data_is_saved_then_followed (self : ref) (marker : Marker) (now : Z)
    (st : Plugin) (origin m : LeafletMap) (v : IMapInterface) :
  registry_wf st ->
  In self (map mi_map (pl_maps st)) ->
  pl_heap st !! self = Some origin ->
  In v (pl_maps st) ->
  pl_heap st !! mi_map v = Some m ->
  let saved := saveSettings st now in
  let st' := on_marker_data_updated self marker now st in
  pl_AppData st' = pl_AppData saved /\
  pl_saved st' = Some (pl_AppData saved) /\
  pl_heap st' !! mi_map v =
    Some (if is_sibling (pl_heap saved) (updateMarkerIcons origin) v
          then drag_in marker (updateMarkerIcons m)
          else updateMarkerIcons m).
Proof.
  intros Hwf Hs Hself Hin Hm saved st'.
  assert (Hlook : forall w, In w (pl_maps st) ->
            pl_heap saved !! mi_map w = updateMarkerIcons <$> pl_heap st !! mi_map w).
  { intros w Hw. subst saved. cbn [saveSettings pl_heap].
    apply broadcast_reaches; [apply Hwf | exact Hw]. }
  assert (Hself' : pl_heap saved !! self = Some (updateMarkerIcons origin)).
  { apply in_map_iff in Hs as (w & <- & Hw). rewrite (Hlook w Hw), Hself. reflexivity. }
  subst st'. unfold on_marker_data_updated, on_marker_dragging. fold saved. rewrite Hself'.
  cbn [pl_AppData pl_saved pl_heap set_heap]. split; [reflexivity|]. split; [reflexivity|].
  rewrite (siblings_called (drag_in marker) saved (updateMarkerIcons origin)
             (pl_heap saved) v (proj1 Hwf) Hin).
  rewrite (Hlook v Hin), Hm. simpl.
  now destruct (is_sibling _ (updateMarkerIcons origin) v).
Qed.

End MoreMapEventFacts.

Lemma marker_data_is_saved_then_followed_witness :
  let st' := on_marker_data_updated 2 (marker_at "m1" 9 9) example_now views_example in
  registry_wf views_example /\
  pl_saved st' = Some (pl_AppData (saveSettings views_example example_now)) /\
  pl_heap st' !! 1 = Some (map_of "world" 11 [marker_at "m1" 9 9] []).
Proof.
  intros st'.
  assert (Hwf : registry_wf views_example).
  { split; [repeat constructor; simpl; intuition discriminate|].
    intros v [<-|[<-|[<-|[]]]]; vm_compute; eauto. }
  split; [exact Hwf|].
  destruct (marker_data_is_saved_then_followed 2 (marker_at "m1" 9 9) example_now
              views_example
              (map_of "world" 21 [marker_at "m1" 1 1; marker_at "m2" 2 2] [])
              (map_of "world" 11 [marker_at "m1" 1 1] []) (view_of 1 10 "world")
              Hwf ltac:(simpl; auto) eq_refl ltac:(simpl; auto) eq_refl)
    as (_ & Hsaved & Hcopy).
  split; [exact Hsaved | exact Hcopy].
Defined.

(** ** The note a map is centred on *)

Section LinkedNoteFacts.
Context `{Host}.

(** Whatever it is called with, [_getCoordinates] changes nothing of the
    state but the notices, to which it adds the notice on the coordinates
    or nothing. *)
Theorem getCoordinates_only_notifies (lat long : jsval) (coordinates : option (list jsval))
    (zoomTag : option string) (m : LeafletMap) (st : Plugin) :
  let st' := snd (_getCoordinates lat long coordinates zoomTag m st) in
  pl_AppData st' = pl_AppData st /\
  pl_maps st' = pl_maps st /\
  pl_mapFiles st' = pl_mapFiles st /\
  pl_heap st' = pl_heap st /\
  pl_errors st' = pl_errors st /\
  pl_saved st' = pl_saved st /\
  pl_idsDrawn st' = pl_idsDrawn st /\
  pl_metadataCache st' = pl_metadataCache st /\
  (pl_notices st' = pl_notices st \/
   pl_notices st' = pl_notices st ++ [coordinates_notice]).
Proof.
  unfold _getCoordinates, bind.
  destruct (resolve_coordinates lat long coordinates zoomTag m st) as [o st1] eqn:Hres.
  apply resolve_coordinates_pure in Hres as ->.
  destruct o as [[[latitude longitude] z]|msg]; [|simpl; tauto].
  unfold coordinates_or_defaults, bind, Notice, ret.
  destruct (isNaN (parse_coordinate latitude) || isNaN (parse_coordinate longitude));
    destruct (lm_type m); simpl; tauto.
Qed.

(** When [coordinates] names a note whose front matter holds a location
    and no zoom tag is to be read, the map is centred on that location,
    whatever the latitude and longitude of the block are: each component is
    the note's number, read back from its text, when that number is not
    0. *)
Theorem note_location_is_the_centre (lat long c : jsval) (cs : list jsval) (link : string)
    (file : TFile) (fm : FrontMatter) (rest : list jsval) (zoomTag : option string)
    (m : LeafletMap) (st : Plugin) (a b : Q) :
  hd JUndefined (flat (c :: cs)) = JString link ->
  getFirstLinkpathDest (strip_first_bracket link) = Some file ->
  getFileCache st file = Some {| cm_frontmatter := Some fm |} ->
  fm_location fm = Some (JArray (JNumber (Num a) :: JNumber (Num b) :: rest)) ->
  match zoomTag with
  | Some t => List.find (fun kv => String.eqb (fst kv) t) (fm_own fm) = None
  | None => True
  end ->
  parse_coordinate (JNumber (Num a)) = Num a ->
  parse_coordinate (JNumber (Num b)) = Num b ->
  Qeq_bool a 0 = false ->
  Qeq_bool b 0 = false ->
  _getCoordinates lat long (Some (c :: cs)) zoomTag m st = (Ok ((Num a, Num b), None), st).
Proof.
  intros Hlink Hfile Hcache Hloc Hzoom Ha Hb Ha0 Hb0.
  assert (Hres : resolve_coordinates lat long (Some (c :: cs)) zoomTag m st
                 = (Ok (JNumber (Num a), JNumber (Num b), None), st)).
  { unfold resolve_coordinates. rewrite Hlink, Hfile.
    unfold read_note_location. rewrite Hcache, Hloc. simpl.
    destruct zoomTag as [t|]; simpl; [|reflexivity].
    destruct (String.eqb t EmptyString); [reflexivity|]. now rewrite Hzoom. }
  unfold _getCoordinates. rewrite (bind_ok _ _ _ _ _ Hres).
  unfold coordinates_or_defaults, bind, Notice, ret, or_default.
  rewrite Ha, Hb. simpl. rewrite Ha0, Hb0. simpl.
  now destruct (lm_type m).
Qed.

(** When the zoom tag of the note [coordinates] names holds a value that
    is neither absent nor a text, a number for one, [_getCoordinates]
    throws, and leaves the state as it is. *)
Theorem zoom_tag_that_is_no_text_throws (lat long c : jsval) (cs : list jsval)
    (link : string) (file : TFile) (fm : FrontMatter) (location : list jsval)
    (t : string) (v : jsval) (m : LeafletMap) (st : Plugin) :
  hd JUndefined (flat (c :: cs)) = JString link ->
  getFirstLinkpathDest (strip_first_bracket link) = Some file ->
  getFileCache st file = Some {| cm_frontmatter := Some fm |} ->
  fm_location fm = Some (JArray location) ->
  t <> EmptyString ->
  List.find (fun kv => String.eqb (fst kv) t) (fm_own fm) = Some (t, v) ->
  (exists n, v = JNumber n) \/ (exists l, v = JArray l) ->
  exists msg,
    _getCoordinates lat long (Some (c :: cs)) (Some t) m st = (Throw msg, st).
Proof.
  intros Hlink Hfile Hcache Hloc Ht Hfind Hv.
  exists "overlay.match is not a function".
  unfold _getCoordinates, bind, resolve_coordinates. rewrite Hlink, Hfile.
  unfold read_note_location. rewrite Hcache, Hloc. simpl.
  apply String.eqb_neq in Ht. rewrite Ht, Hfind.
  destruct Hv as [[n ->] | [l ->]]; reflexivity.
Qed.

End LinkedNoteFacts.

Lemma note_location_is_the_centre_witness :
  @_getCoordinates linked_host (JString "50%") (JString "50%") (Some [JArray [JString "Town"]])
    (Some "reach") image_map (zoomed_example (JString "5 km"))
  = (Ok ((Num 3, Num 4), None), zoomed_example (JString "5 km")).
Proof.
  apply (@note_location_is_the_centre linked_host (JString "50%") (JString "50%")
           (JArray [JString "Town"]) [] "Town" town
           {| fm_location := Some (JArray [JNumber (Num 3); JNumber (Num 4)]);
              fm_mapoverlay := None;
              fm_own := [("zoom", JString "5 km")] |}
           [] (Some "reach") image_map (zoomed_example (JString "5 km")) 3 4);
    reflexivity.
Defined.

Lemma zoom_tag_that_is_no_text_throws_witness :
  exists msg,
    @_getCoordinates linked_host (JString "50%") (JString "50%") (Some [JArray [JString "Town"]])
      (Some "zoom") image_map (zoomed_example (JNumber (Num 5)))
    = (Throw msg, zoomed_example (JNumber (Num 5))).
Proof.
  apply (@zoom_tag_that_is_no_text_throws linked_host (JString "50%") (JString "50%")
           (JArray [JString "Town"]) [] "Town" town
           {| fm_location := Some (JArray [JNumber (Num 3); JNumber (Num 4)]);
              fm_mapoverlay := None;
              fm_own := [("zoom", JNumber (Num 5))] |}
           [JNumber (Num 3); JNumber (Num 4)] "zoom" (JNumber (Num 5)) image_map
           (zoomed_example (JNumber (Num 5)))); try reflexivity.
  - discriminate.
  - left. eauto.
Defined.

(** The same note with a zoom tag that is a text: the zoom hint is its
    distance in metres. *)
Example zoom_tag_that_is_a_text :
  fst (@_getCoordinates linked_host (JString "50%") (JString "50%") (Some [JArray [JString "Town"]])
         (Some "zoom") (map_of "world" 11 [] []) (zoomed_example (JString "5 km")))
  = Ok ((Num 3, Num 4), Some (Num 5000)).
Proof. vm_compute. reflexivity. Qed.

(** ** A render is registered and saved, or neither *)

Section AllOrNothing.
Context `{Host}.

(** Whatever the block, the post-processor ends in one of two ways. When
    its [try] block returns, the view of the block is registered on a map
    object of its own, the block's document is noted, the settings are
    saved as they then stand, and no error is shown. When it throws, the
    block's region shows the message thrown and the user is notified, and
    the registry, the documents noted and the saved settings are as they
    were: no render is registered without being saved, or saved without
    being registered. *)
Theorem render_is_all_or_nothing (now : Z) (source : string) (el : Element)
    (sourcePath : string) (params : Params) (items : ImmutableItems) (st : Plugin) :
  let st' := postprocessor now source el sourcePath params items st in
  match fst (postprocessor_try now source el sourcePath params items st) with
  | Ok _ =>
      (exists r,
         pl_heap st !! r = None /\
         pl_maps st' = register_view (view_for r source el params) (pl_maps st)) /\
      pl_mapFiles st' = note_map_file sourcePath (id_of params) (pl_mapFiles st) /\
      pl_saved st' = Some (pl_AppData st') /\
      pl_errors st' = pl_errors st
  | Throw msg =>
      pl_errors st' = <[el := msg]> (pl_errors st) /\
      (exists earlier, pl_notices st' = earlier ++ [loading_notice]) /\
      pl_maps st' = pl_maps st /\
      pl_mapFiles st' = pl_mapFiles st /\
      pl_saved st' = pl_saved st
  end.
Proof.
  intros st'. subst st'. unfold postprocessor.
  destruct (postprocessor_try now source el sourcePath params items st) as [o stf] eqn:Hrun.
  cbn [fst]. unfold postprocessor_try in Hrun.
  destruct (falsy_id (p_id params)).
  - simpl in Hrun. injection Hrun as <- <-. simpl.
    split; [reflexivity|]. split; [eauto | tauto].
  - fold (image_of params) in Hrun. fold (id_of params) in Hrun.
    unfold bind at 1 in Hrun. unfold bind at 1 in Hrun. unfold alloc at 1 in Hrun.
    set (st0 := set_AppData _ st) in Hrun.
    set (r := fresh (dom (pl_heap st0))) in Hrun.
    set (st1 := set_heap _ st0) in Hrun.
    assert (Hfresh : pl_heap st !! r = None).
    { apply not_elem_of_dom. apply is_fresh. }
    pose proof (leaves_populate pl_maps (fun _ _ => eq_refl) (fun _ _ => eq_refl)
                  (fun _ => eq_refl) (image_of params) (id_of params) r params items st1)
      as Hmaps.
    pose proof (leaves_populate pl_mapFiles (fun _ _ => eq_refl) (fun _ _ => eq_refl)
                  (fun _ => eq_refl) (image_of params) (id_of params) r params items st1)
      as Hfiles.
    pose proof (leaves_populate pl_saved (fun _ _ => eq_refl) (fun _ _ => eq_refl)
                  (fun _ => eq_refl) (image_of params) (id_of params) r params items st1)
      as Hsaved.
    pose proof (leaves_populate pl_errors (fun _ _ => eq_refl) (fun _ _ => eq_refl)
                  (fun _ => eq_refl) (image_of params) (id_of params) r params items st1)
      as Herrs.
    unfold bind at 1 in Hrun.
    destruct (populate (image_of params) (id_of params) r params items st1)
      as [[populated|msg] st2]; simpl in Hmaps, Hfiles, Hsaved, Herrs.
    + unfold render_and_register, bind, call in Hrun. simpl in Hrun.
      injection Hrun as <- <-. simpl. rewrite Hmaps, Hfiles, Herrs.
      split; [exists r; split; [exact Hfresh | reflexivity]|]. tauto.
    + injection Hrun as <- <-. simpl. rewrite Hmaps, Hfiles, Hsaved, Herrs.
      split; [reflexivity|]. split; [eauto | tauto].
Qed.

(** When its [try] block returns, the post-processor ends with the save
    cycle on a state that has the block's view registered last and the
    block's document noted. *)
Lemma postprocessor_returns (now : Z) (source : string) (el : Element)
    (sourcePath : string) (params : Params) (items : ImmutableItems) (st : Plugin) :
  fst (postprocessor_try now source el sourcePath params items st) = Ok tt ->
  exists r st2,
    postprocessor now source el sourcePath params items st =
      saveSettings
        (set_mapFiles (note_map_file sourcePath (id_of params) (pl_mapFiles st2))
           (set_maps (register_view (view_for r source el params) (pl_maps st2)) st2))
        now.
Proof.
  intros Hok. unfold postprocessor.
  destruct (postprocessor_try now source el sourcePath params items st) as [o stf] eqn:Hrun.
  cbn [fst] in Hok. subst o. unfold postprocessor_try in Hrun.
  destruct (falsy_id (p_id params)); [discriminate|].
  fold (image_of params) in Hrun. fold (id_of params) in Hrun.
  unfold bind at 1 in Hrun. unfold bind at 1 in Hrun. unfold alloc at 1 in Hrun.
  set (st0 := set_AppData _ st) in Hrun.
  set (r := fresh (dom (pl_heap st0))) in Hrun.
  set (st1 := set_heap _ st0) in Hrun.
  unfold bind at 1 in Hrun.
  destruct (populate (image_of params) (id_of params) r params items st1)
    as [[populated|msg] st2]; [|discriminate].
  unfold render_and_register, bind, call in Hrun. simpl in Hrun.
  injection Hrun as <-.
  exists r. eexists (set_heap (alter _ r (pl_heap st2)) st2). reflexivity.
Qed.

(** After a render, that is when the [try] block of the post-processor
    returned, on a block whose immutable markers stand at positions that
    are numbers, a record the store holds for the block's id is attached to
    the block's document and was accessed at the time of the render; the
    garbage collection of no later save cycle drops it as it stands. *)
Theorem rendered_map_is_attached_to_its_document (now : Z) (source : string) (el : Element)
    (sourcePath : string) (params : Params) (items : ImmutableItems) (st : Plugin) :
  positions_are_numbers items = true ->
  fst (postprocessor_try now source el sourcePath params items st) = Ok tt ->
  let st' := postprocessor now source el sourcePath params items st in
  forall rec,
    In rec (ad_mapMarkers (pl_AppData st')) ->
    rd_id rec = Some (id_of params) ->
    In sourcePath (rd_files rec) /\
    rd_lastAccessed rec = Some now /\
    forall later, gc_keep later rec = true.
Proof.
  intros _ Hok st' rec Hrec Hrid.
  destruct (postprocessor_returns now source el sourcePath params items st Hok)
    as (r & st2 & Hrun).
  subst st'. rewrite Hrun in Hrec.
  set (stR := set_mapFiles _ _) in Hrec.
  assert (Hf : In rec (List.filter (has_id (id_of params))
                         (ad_mapMarkers (pl_AppData (saveSettings stR now))))).
  { apply filter_In. split; [exact Hrec | now apply has_id_spec]. }
  rewrite saved_records_of_id in Hf. unfold merge_active in Hf.
  rewrite merge_active_by_id in Hf.
  assert (Hw : last_writer (pl_maps stR) (id_of params)
               = Some (view_for r source el params)).
  { subst stR. cbn [pl_maps set_mapFiles set_maps]. unfold register_view.
    rewrite last_writer_snoc. simpl. now rewrite String.eqb_refl. }
  rewrite Hw in Hf. apply filter_In in Hf as [Hf _]. apply filter_In in Hf as [Hf _].
  destruct Hf as [<-|[]].
  assert (Hlisted : In sourcePath
                      (rd_files (fresh_record stR now (view_for r source el params)))).
  { subst stR. cbn [fresh_record rd_files pl_mapFiles set_mapFiles view_for mi_id].
    apply note_map_file_lists. }
  split; [exact Hlisted|]. split; [reflexivity|].
  intros later. unfold gc_keep.
  destruct (rd_files (fresh_record stR now (view_for r source el params)));
    [destruct Hlisted|].
  simpl. now rewrite orb_true_r.
Qed.

End AllOrNothing.

Lemma rendered_map_is_attached_to_its_document_witness :
  let st' := postprocessor example_now block_source 10 "Atlas.md" well_formed_block no_items
               views_example in
  fst (postprocessor_try example_now block_source 10 "Atlas.md" well_formed_block no_items
         views_example) = Ok tt /\
  exists rec,
    In rec (ad_mapMarkers (pl_AppData st')) /\
    rd_id rec = Some "world" /\
    In "Atlas.md" (rd_files rec) /\
    rd_lastAccessed rec = Some example_now /\
    forall later, gc_keep later rec = true.
Proof.
  intros st'.
  assert (Hok : fst (postprocessor_try example_now block_source 10 "Atlas.md"
                       well_formed_block no_items views_example) = Ok tt)
    by (vm_compute; reflexivity).
  split; [exact Hok|].
  destruct (List.find (has_id "world") (ad_mapMarkers (pl_AppData st'))) as [rec|] eqn:Hfind;
    [|vm_compute in Hfind; discriminate].
  apply find_some in Hfind as [Hin Hid]. apply has_id_spec in Hid.
  exists rec. split; [exact Hin|]. split; [exact Hid|].
  exact (rendered_map_is_attached_to_its_document example_now block_source 10 "Atlas.md"
           well_formed_block no_items views_example eq_refl Hok rec Hin Hid).
Defined.

(** A block of two overlays of which one has a unit [convert] does not
    know is not rendered: the comparator of the sort throws the error of
    [convert], which the block's region shows, and no view is registered. *)
Example unknown_unit_aborts_render :
  let st' := postprocessor example_now block_source 10 "Atlas.md" unknown_unit_block no_items
               views_example in
  existsb malformed_radius (p_overlay unknown_unit_block) = false /\
  pl_errors st' !! 10 = Some "xyz is not a valid unit" /\
  pl_maps st' = pl_maps views_example /\
  pl_saved st' = pl_saved views_example.
Proof. repeat split; vm_compute; reflexivity. Qed.

(** The three blocks of the examples: one is rendered, two fail. *)
Example blocks_rendered_or_failed :
  fst (postprocessor_try example_now block_source 10 "Atlas.md" well_formed_block no_items
         views_example) = Ok tt /\
  fst (postprocessor_try example_now block_source 10 "Atlas.md" malformed_block no_items
         views_example) = Throw overlay_radius_error /\
  fst (postprocessor_try example_now block_source 10 "Atlas.md" image_block no_items
         views_example) = Throw layers_notice.
Proof. repeat split; vm_compute; reflexivity. Qed.
